(** * AIM public interface (aim/interface.py): wind-profile patching and
      stitching, parameter sweeps and the cyclic distribution of wind fields.

    The development embeds the Python 2 functions of [interface.py] that the
    specification talks about:

    - [set_vent_location_in_windfield] and [set_timeblocks_in_windfield]
      (the patcher),
    - [join_sorted_windprofiles] (the stitcher) and [join_wind_profiles],
    - [_run_scenario] / [run_scenario] on dictionaries (the sweep expander)
      and the naming of a scenario script,
    - [run_multiple_windfields] (the scheduler built on pypar).

    Python strings are byte strings ([string]), Python integers are [Z],
    the file system is a finite map from paths to contents and exceptions
    are values of [exn]. *)

From Stdlib Require Import ZArith String Ascii List DecimalString DecimalPos
  Permutation Lia.
From stdpp Require Import gmap strings list fin_maps sorting.

(** ** Python builtins used by the module *)

Inductive exn : Type :=
  | IOError
  | IndexError
  | ValueError
  | AssertionError
  | KeyError
  | TypeError
  | AttributeError
  | UnboundLocalError.

Global Instance exn_eq_dec : EqDecision exn.
Proof. solve_decision. Defined.

(** The line terminator ['\n']. *)
Definition NL : ascii := "010"%char.

Definition is_digit (c : ascii) : bool :=
  match Ascii.is_nat c with Some _ => true | None => false end.

Definition digit_val (c : ascii) : Z :=
  match Ascii.is_nat c with Some d => Z.of_nat d | None => 0%Z end.

Fixpoint lstrip (s : string) : string :=
  match s with
  | String c s' => if Ascii.is_space c then lstrip s' else s
  | EmptyString => EmptyString
  end.

Fixpoint all_space (s : string) : bool :=
  match s with
  | String c s' => Ascii.is_space c && all_space s'
  | EmptyString => true
  end.

(** [digits acc s]: the value of the longest prefix of decimal digits of
    [s] (continuing from [acc]), how many digits were read, and the rest. *)
Fixpoint digits (acc : Z) (count : nat) (s : string) : Z * nat * string :=
  match s with
  | String c s' =>
      if is_digit c then digits (acc * 10 + digit_val c)%Z (S count) s'
      else (acc, count, s)
  | EmptyString => (acc, count, s)
  end.

(** [int(s)] for a [str] in base 10: surrounding white space, an optional
    sign, at least one digit.  [None] stands for [ValueError]. *)
Definition int (s : string) : option Z :=
  let s1 := lstrip s in
  let '(sign, s2) :=
    match s1 with
    | String "+"%char r => (1%Z, r)
    | String "-"%char r => ((-1)%Z, r)
    | _ => (1%Z, s1)
    end in
  let '(v, count, rest) := digits 0 0 s2 in
  match count with
  | O => None
  | S _ => if all_space rest then Some (sign * v)%Z else None
  end.

(** ['%i' % z]. *)
Definition fmt_int (z : Z) : string := NilZero.string_of_int (Z.to_int z).

(** [s[-n:]] for [n >= 1]: the last [n] characters, all of [s] when it is
    shorter. *)
Definition last_chars (n : nat) (s : string) : string :=
  substring (String.length s - n) n s.

(** [s.endswith(suffix)]. *)
Definition endswith (s suffix : string) : bool :=
  if (String.length suffix <=? String.length s)%nat
  then String.eqb
         (substring (String.length s - String.length suffix)
                    (String.length suffix) s) suffix
  else false.

(** [s.rfind(c)] for a one-character [c]: the highest index, or [-1]. *)
Fixpoint rfind_from (c : ascii) (s : string) (i found : Z) : Z :=
  match s with
  | String x s' => rfind_from c s' (i + 1)%Z (if Ascii.eqb x c then i else found)
  | EmptyString => found
  end.

Definition rfind (s : string) (c : ascii) : Z := rfind_from c s 0 (-1).

(** The loop of [genericpath._splitext] that skips the leading dots of the
    last path component: [n] positions from [filenameIndex] up to the last
    dot remain; [true] as soon as one of them is not a dot. *)
Fixpoint skip_leading_dots (p : string) (filenameIndex n : nat) : bool :=
  match n with
  | O => false
  | S n' =>
      match String.get filenameIndex p with
      | Some c =>
          if Ascii.eqb c "."%char then skip_leading_dots p (S filenameIndex) n'
          else true
      | None => false
      end
  end.

(** [os.path.splitext] on a POSIX system. *)
Definition splitext (p : string) : string * string :=
  let sepIndex := rfind p "/"%char in
  let dotIndex := rfind p "."%char in
  if (sepIndex <? dotIndex)%Z
     && skip_leading_dots p (Z.to_nat (sepIndex + 1))
          (Z.to_nat (dotIndex - (sepIndex + 1)))
  then (substring 0 (Z.to_nat dotIndex) p,
        substring (Z.to_nat dotIndex) (String.length p - Z.to_nat dotIndex) p)
  else (p, EmptyString).

(** [os.path.join(a, b)] for a relative [b]. *)
Definition path_join (a b : string) : string :=
  if String.eqb a EmptyString || endswith a "/" then a +:+ b else a +:+ "/" +:+ b.

(** [f.readlines()]: the content cut after every ['\n']; the terminators
    stay in the lines. *)
Fixpoint readlines (content : string) : list string :=
  match content with
  | EmptyString => []
  | String c rest =>
      if Ascii.eqb c NL then String c EmptyString :: readlines rest
      else match readlines rest with
           | [] => [String c EmptyString]
           | l :: ls => String c l :: ls
           end
  end.

(** The bytes produced by writing the strings of a list one after the
    other. *)
Definition join_lines (lines : list string) : string :=
  foldr String.append EmptyString lines.

(** [l[i]] and [l[i] = x] on Python lists, with their [IndexError]. *)
Definition getitem {A} (l : list A) (i : nat) : exn + A :=
  match l !! i with Some x => inr x | None => inl IndexError end.

Definition setitem {A} (l : list A) (i : nat) (x : A) : exn + list A :=
  if (i <? length l)%nat then inr (<[i:=x]> l) else inl IndexError.

(** ** Files

    The file system maps a path to the bytes of the file.  An operation
    takes the file system and returns the new one with either the
    exception it raised or its value.  What is written reaches the file at
    once; the buffering of Python could only be seen by reading a file
    while it is open for writing, which the properties below exclude. *)

Abbreviation filesystem := (gmap string string).

Definition io (A : Type) : Type := filesystem → filesystem * (exn + A).

Definition ret {A} (a : A) : io A := λ fs, (fs, inr a).
Definition raise {A} (e : exn) : io A := λ fs, (fs, inl e).
Definition bind {A B} (m : io A) (k : A → io B) : io B :=
  λ fs, match m fs with
        | (fs', inl e) => (fs', inl e)
        | (fs', inr a) => k a fs'
        end.
Definition lift {A} (r : exn + A) : io A := λ fs, (fs, r).

Notation "x <- m ;; k" := (bind m (fun x => k))
  (at level 100, m at next level, right associativity).
Notation "m ;;; k" := (bind m (fun _ => k))
  (at level 100, right associativity).

(** [for x in l: body x]. *)
Fixpoint for_each {A} (l : list A) (body : A → io unit) : io unit :=
  match l with
  | [] => ret tt
  | x :: l' => body x ;;; for_each l' body
  end.

(** [fid = open(filename); lines = fid.readlines(); fid.close()]. *)
Definition open_readlines (filename : string) : io (list string) :=
  λ fs, match fs !! filename with
        | Some content => (fs, inr (readlines content))
        | None => (fs, inl IOError)
        end.

(** [open(filename, 'w')]: the file is created or truncated. *)
Definition open_w (filename : string) : io unit :=
  λ fs, (<[filename := EmptyString]> fs, inr tt).

(** [fid.write(s)] on a file opened for writing. *)
Definition write (filename s : string) : io unit :=
  λ fs, (<[filename := default EmptyString (fs !! filename) +:+ s]> fs, inr tt).

(** ** The wind-profile patcher *)

Section Patcher.

(** The vent coordinates are any Python values; [py_str] is their
    rendering by ['%s']. *)
Context {V : Type} (py_str : V → string).

Definition vent_line (vent_location_easting vent_location_northing : V) : string :=
  py_str vent_location_easting +:+ " " +:+ py_str vent_location_northing
    +:+ String NL EmptyString.

Definition set_vent_location_in_windfield
    (filename : string) (vent_location_easting vent_location_northing : V)
    : io unit :=
  lines <- open_readlines filename ;;
  lines <- lift (setitem lines 0
                   (vent_line vent_location_easting vent_location_northing)) ;;
  open_w filename ;;;
  for_each lines (write filename).

End Patcher.

Definition timeblock_line (startsec endsec : Z) : string :=
  fmt_int startsec +:+ " " +:+ fmt_int endsec +:+ String NL EmptyString.

Definition set_timeblocks_in_windfield (filename : string) : io unit :=
  let '(basename, ext) := splitext filename in
  match int (last_chars 2 basename) with
  | None => raise ValueError
  | Some starthour =>
      let endhour := (starthour + 6)%Z in
      let startsec := (starthour * 3600)%Z in
      let endsec := (endhour * 3600)%Z in
      lines <- open_readlines filename ;;
      lines <- lift (setitem lines 2 (timeblock_line startsec endsec)) ;;
      open_w filename ;;;
      for_each lines (write filename)
  end.

(** Predicates on lines. *)
Fixpoint no_nl (s : string) : bool :=
  match s with
  | String c s' => negb (Ascii.eqb c NL) && no_nl s'
  | EmptyString => true
  end.

Fixpoint terminated (s : string) : bool :=
  match s with
  | String c s' =>
      if Ascii.eqb c NL then match s' with EmptyString => true | _ => false end
      else terminated s'
  | EmptyString => false
  end.

Definition unterminated (s : string) : bool :=
  match s with EmptyString => false | _ => no_nl s end.

Fixpoint lines_ok (ls : list string) : bool :=
  match ls with
  | [] => true
  | [l] => terminated l || unterminated l
  | l :: ls' => terminated l && lines_ok ls'
  end.

(** ** The wind-profile stitcher *)

(** The variables the loop of [join_sorted_windprofiles] carries from one
    file to the next.  They are unset while [first_file] is [True]: the
    loop state is then [None]. *)
Record stitch_state : Type := {
  seconds_start : Z;
  seconds_end : Z;
  num_layers : Z
}.

(** [seconds_start, seconds_end = [int(x) for x in line.split()]]. *)
Definition parse_time_range (line : string) : exn + (Z * Z) :=
  match mapM int (String.words line) with
  | Some [a; b] => inr (a, b)
  | _ => inl ValueError
  end.

Definition parse_int (s : string) : exn + Z :=
  match int s with Some z => inr z | None => inl ValueError end.

(** ['%i\n' % num_layers]. *)
Definition count_line (n : Z) : string := fmt_int n +:+ String NL EmptyString.

(** One iteration of the loop over [wind_data_files]. *)
Definition join_block (outfilename : string) (st : option stitch_state)
    (wind_data_file : string) : io (option stitch_state) :=
  lines <- open_readlines wind_data_file ;;
  st <- match st with
        | None =>
            vent_loc <- lift (getitem lines 0) ;;
            date <- lift (getitem lines 1) ;;
            l2 <- lift (getitem lines 2) ;;
            range <- lift (parse_time_range l2) ;;
            l3 <- lift (getitem lines 3) ;;
            n <- lift (parse_int l3) ;;
            write outfilename vent_loc ;;;
            write outfilename date ;;;
            ret {| seconds_start := fst range; seconds_end := snd range;
                   num_layers := n |}
        | Some st => ret st
        end ;;
  write outfilename (timeblock_line (seconds_start st) (seconds_end st)) ;;;
  write outfilename (count_line (num_layers st)) ;;;
  (if (Z.of_nat (length (drop 4 lines)) =? num_layers st)%Z
   then ret tt else raise AssertionError) ;;;
  for_each (drop 4 lines) (write outfilename) ;;;
  ret (Some {| seconds_start := seconds_end st;
               seconds_end := seconds_end st + 6 * 3600;
               num_layers := num_layers st |}).

Fixpoint join_loop (outfilename : string) (st : option stitch_state)
    (wind_data_files : list string) : io (option stitch_state) :=
  match wind_data_files with
  | [] => ret st
  | wind_data_file :: others =>
      st' <- join_block outfilename st wind_data_file ;;
      join_loop outfilename st' others
  end.

Definition join_sorted_windprofiles (wind_data_files : list string)
    (outfilename : string) : io unit :=
  open_w outfilename ;;;
  join_loop outfilename None wind_data_files ;;;
  ret tt.

(** *** What the specification says about the stitched file *)

(** The time range of block [k]: the first block has the range recorded in
    the first file, every later block starts where the previous one ends
    and lasts 21600 seconds. *)
Fixpoint block_range (first : Z * Z) (k : nat) : Z * Z :=
  match k with
  | O => first
  | S k' => let previous := block_range first k' in
            (snd previous, snd previous + 21600)%Z
  end.

(** The data lines of a source file: what follows its four header lines. *)
Definition data_lines (fs : gmap string string) (file : string) : list string :=
  drop 4 (readlines (default EmptyString (fs !! file))).

(** The layer count a source file declares on its own line 4. *)
Definition declared_layer_count (fs : gmap string string) (file : string) : option Z :=
  readlines (default EmptyString (fs !! file)) !! 3%nat ≫= int.

(** A block of the output: time-range line, layer-count line, data lines. *)
Definition block_text (range : Z * Z) (n : Z) (data : list string) : string :=
  timeblock_line (fst range) (snd range) +:+ count_line n +:+ join_lines data.

Definition stitched (fs : gmap string string) (vent_loc date : string)
    (first : Z * Z) (n : Z) (wind_data_files : list string) : string :=
  vent_loc +:+ date
    +:+ join_lines (imap (λ k file, block_text (block_range first k) n (data_lines fs file))
                         wind_data_files).

(** The loop variables after a block has been written. *)
Definition next_state (st : stitch_state) : stitch_state :=
  {| seconds_start := seconds_end st;
     seconds_end := seconds_end st + 6 * 3600;
     num_layers := num_layers st |}.

(** The test of the assertion [len(lines[4:]) == num_layers]. *)
Definition layers_match (n : Z) (lines : list string) : bool :=
  (Z.of_nat (length (drop 4 lines)) =? n)%Z.

Definition readable_with (fs : gmap string string) (n : Z) (f : string) : Prop :=
  ∃ content, fs !! f = Some content ∧ layers_match n (readlines content) = true.

(** A source file that exists and has exactly [n] data lines. *)
Definition well_layered (fs : gmap string string) (n : Z) (file : string) : Prop :=
  is_Some (fs !! file) ∧ Z.of_nat (length (data_lines fs file)) = n.

(** *** Sample wind profiles *)

Definition line (s : string) : string := s +:+ String NL EmptyString.

(** Two layers declared, two data lines. *)
Definition profile_00 : string :=
  line "439423 9167213" +:+ line "20090913" +:+ line "0 21600" +:+ line "2"
    +:+ line "1000 5.0 1.0" +:+ line "2000 6.0 2.0".

(** Three layers declared on line 4, but only two data lines follow. *)
Definition profile_06 : string :=
  line "439423 9167213" +:+ line "20090913" +:+ line "3600 7200" +:+ line "3"
    +:+ line "1000 7.0 3.0" +:+ line "2000 8.0 4.0".

(** Two layers declared, three data lines. *)
Definition profile_12 : string :=
  line "439423 9167213" +:+ line "20090913" +:+ line "43200 64800" +:+ line "2"
    +:+ line "1000 7.0 3.0" +:+ line "2000 8.0 4.0" +:+ line "3000 9.0 5.0".

(** One layer: a file of five lines. *)
Definition profile_18 : string :=
  line "439423 9167213" +:+ line "20090913" +:+ line "64800 86400" +:+ line "1"
    +:+ line "1000 9.0 5.0".

Definition sample_fs : gmap string string :=
  {[ "w/p00.profile" := profile_00;
     "w/p18.profile" := profile_18;
     "w/p06.profile" := profile_06;
     "w/p12.profile" := profile_12 ]}.

(** ** The parameter sweep of [_run_scenario]

    A scenario given as a dictionary maps parameter names to Python
    values.  A value is a string, an integer or a tuple of values; a tuple
    is a sweep.  (Floating-point values are not represented.) *)

#[local] Set Warnings "-register-all".

Inductive value : Type :=
  | VStr (s : string)
  | VInt (z : Z)
  | VTuple (items : list value).

Definition is_tuple (v : value) : bool :=
  match v with VTuple _ => true | _ => false end.

Definition DEFAULT_SCENARIO_NAME : string := "no_name".

(** Modelled from the spec: [utilities.get_scenario_parameters] is not
    among the sources.  The Expander of the specification works on the
    mapping it is given, so for a dictionary the helper hands the mapping
    back; its validation of the parameter names is not represented. *)
Definition get_scenario_parameters (scenario : gmap string value) : gmap string value :=
  scenario.

(** [if 'scenario_name' in scenario: ... else:
    scenario['scenario_name'] = DEFAULT_SCENARIO_NAME]: the dictionary
    after the first lines of [run_scenario]. *)
Definition with_scenario_name (scenario : gmap string value) : gmap string value :=
  match scenario !! "scenario_name" with
  | Some _ => scenario
  | None => <["scenario_name" := VStr DEFAULT_SCENARIO_NAME]> scenario
  end.

(** What a call of the model does in the end: either it builds the [AIM]
    object for a mapping without tuples and runs Fall3d with it, or it
    hands a scenario whose wind profile is a directory over to
    [run_multiple_windfields]. *)
Inductive run : Type :=
  | Fall3d (params : gmap string value) (dircomment : value)
  | HazardMapping (scenario : gmap string value) (windfield_directory : string)
                  (dircomment : value).

(** The runs started so far, and how the call ended. *)
Definition outcome : Type := list run * (exn + unit).

Section Expander.

(** [str(t)] of a tuple [t]: its text depends on the [repr] of the items
    and is left open. *)
Variable tuple_str : list value → string.

(** The order in which [for name in params] visits the keys of a
    dictionary: some enumeration of its keys. *)
Variable keys_order : gmap string value → list string.

(** [os.path.isdir] on the file system of the run. *)
Variable isdir : string → bool.

(** ['%s' % v]. *)
Definition py_str (v : value) : string :=
  match v with
  | VStr s => s
  | VInt z => fmt_int z
  | VTuple items => tuple_str items
  end.

(** The first key, in iteration order, whose value is a tuple. *)
Fixpoint first_tuple (params : gmap string value) (names : list string)
    : option (string * list value) :=
  match names with
  | [] => None
  | name :: others =>
      match params !! name with
      | Some (VTuple p) => Some (name, p)
      | _ => first_tuple params others
      end
  end.

(** [if dircomment is None: dircomment = params['eruption_comment']]. *)
Definition resolve_comment (params : gmap string value) (dircomment : option value)
    : exn + value :=
  match dircomment with
  | Some c => inr c
  | None => match params !! "eruption_comment" with
            | Some c => inr c
            | None => inl KeyError
            end
  end.

(** [dircomment + '_%s_%s' % (name, value)]. *)
Definition add_suffix (dircomment : value) (name : string) (v : value) : exn + value :=
  match dircomment with
  | VStr s => inr (VStr (s +:+ "_" +:+ name +:+ "_" +:+ py_str v))
  | _ => inl TypeError
  end.

(** [run_scenario] on a dictionary.  [rec] is [_run_scenario]; the
    dictionary comes back because the function may add the default
    scenario name to the caller's object.  [None] as outcome: the
    recursion of the model ran out of fuel. *)
Definition run_scenario
    (rec : gmap string value → option value → option outcome)
    (scenario : gmap string value) (dircomment : option value)
    : gmap string value * option outcome :=
  let scenario := with_scenario_name scenario in
  let params := get_scenario_parameters scenario in
  match resolve_comment params dircomment with
  | inl e => (scenario, Some ([], inl e))
  | inr dircomment =>
      match params !! "wind_profile" with
      | None => (scenario, Some ([], inl KeyError))
      | Some (VStr wind_profile) =>
          if isdir wind_profile
          then (scenario,
                Some ([HazardMapping scenario wind_profile dircomment], inr tt))
          else (scenario, rec scenario (Some dircomment))
      | Some _ => (scenario, Some ([], inl TypeError))
      end
  end.

(** [for value in p: params_unpacked[name] = value; run_scenario(...)]. *)
Fixpoint sweep
    (rec : gmap string value → option value → option outcome)
    (name : string) (dircomment : value) (p : list value)
    (params_unpacked : gmap string value) : option outcome :=
  match p with
  | [] => Some ([], inr tt)
  | v :: others =>
      let params_unpacked := <[name := v]> params_unpacked in
      match add_suffix dircomment name v with
      | inl e => Some ([], inl e)
      | inr comment =>
          match run_scenario rec params_unpacked (Some comment) with
          | (_, None) => None
          | (_, Some (runs, inl e)) => Some (runs, inl e)
          | (params_unpacked, Some (runs, inr _)) =>
              match sweep rec name dircomment others params_unpacked with
              | None => None
              | Some (runs', r) => Some (runs ++ runs', r)
              end
          end
      end
  end.

Fixpoint _run_scenario (fuel : nat) (scenario : gmap string value)
    (dircomment : option value) : option outcome :=
  match fuel with
  | O => None
  | S fuel' =>
      let params := get_scenario_parameters scenario in
      match resolve_comment params dircomment with
      | inl e => Some ([], inl e)
      | inr dircomment =>
          match first_tuple params (keys_order params) with
          | Some (name, p) =>
              let params_unpacked := params in
              sweep (_run_scenario fuel') name dircomment p params_unpacked
          | None => Some ([Fall3d params dircomment], inr tt)
          end
      end
  end.

End Expander.

(** *** What the specification says about a sweep *)

(** The number of values a parameter contributes to the sweep. *)
Definition sweep_size (v : value) : nat :=
  match v with VTuple items => length items | _ => 1 end.

(** The product of the lengths of the tuple-valued parameters. *)
Definition expected_runs (params : gmap string value) : nat :=
  map_fold (λ _ v acc, sweep_size v * acc)%nat 1%nat params.

(** The number of tuple-valued parameters. *)
Definition tuple_count (params : gmap string value) : nat :=
  map_fold (λ _ v acc, (if is_tuple v then 1 else 0) + acc)%nat 0%nat params.

Definition tuple_bit (v : value) : nat := if is_tuple v then 1 else 0.

(** The comment of the run in which [name] is pinned to [v]. *)
Definition suffixed (tuple_str : list value → string) (c name : string) (v : value)
    : value :=
  VStr (c +:+ "_" +:+ name +:+ "_" +:+ py_str tuple_str v).

(** A sweep of scalars: no tuple inside a tuple. *)
Definition flat_value (v : value) : Prop :=
  match v with
  | VTuple items => Forall (λ item, is_tuple item = false) items
  | _ => True
  end.

Definition flat (params : gmap string value) : Prop :=
  map_Forall (λ _ v, flat_value v) params.

(** The scenario names one wind-profile file. *)
Definition single_wind_profile (isdir : string → bool)
    (params : gmap string value) : Prop :=
  ∃ w, params !! "wind_profile" = Some (VStr w) ∧ isdir w = false.

(** The mapping a terminal run receives when [name] is pinned to [v]. *)
Definition pinned (params : gmap string value) (name : string) (v : value)
    : gmap string value :=
  with_scenario_name (<[name := v]> params).

(** A terminal run all of whose parameters are scalars. *)
Definition scalar_run (r : run) : Prop :=
  match r with
  | Fall3d params _ => ∀ k v, params !! k = Some v → is_tuple v = false
  | HazardMapping _ _ _ => False
  end.

Definition run_comment (r : run) : value :=
  match r with
  | Fall3d _ c => c
  | HazardMapping _ _ c => c
  end.

(** The keys of a dictionary in the order of its list of bindings. *)
Definition map_order (params : gmap string value) : list string :=
  (map_to_list params).*1.

(** *** Sample scenarios *)

(** Two sweeps, of two and of three values. *)
Definition sample_sweep : gmap string value :=
  {[ "wind_profile" := VStr "w/p00.profile";
     "eruption_comment" := VStr "test";
     "eruption_column_height" := VTuple [VInt 5000; VInt 8000];
     "vent_name" := VTuple [VStr "a"; VStr "b"; VStr "c"] ]}.

(** One sweep in which the same value occurs twice. *)
Definition sample_repeated : gmap string value :=
  {[ "wind_profile" := VStr "w/p00.profile";
     "eruption_comment" := VStr "test";
     "eruption_column_height" := VTuple [VInt 5000; VInt 5000] ]}.

(** The scenario [sample_sweep] with one more sweep, over no value. *)
Definition sample_empty : gmap string value :=
  <["fl_values" := VTuple []]> sample_sweep.

(** A rendering of tuples and a file system without directories, for the
    examples. *)
Definition sample_tuple_str (items : list value) : string := "()".
Definition no_directory (path : string) : bool := false.

(** ** The scheduler: [run_multiple_windfields]

    A process is a tree of the effects it performs.  The collective and
    point-to-point operations of pypar, the shell commands and the calls of
    the collaborators are events; a receive waits for a payload. *)

Inductive event : Type :=
  | ESleep (seconds : nat)
  | ESend (payload : string) (destination : nat)
  | EBarrier
  | EFinalize
  | EMakedir (path : string)
  | EStartLogging (filename : string)
  | ERunScenario (i : nat) (windfield dircomment : string)
  | EShell (command : string)
  | EDone (p count_local : nat)
  | EOutputs (hazard_output_folder : string)
  | EReport (count_all : nat).

Inductive proc (A : Type) : Type :=
  | Ret (a : A)
  | Raise (e : exn)
  | Emit (ev : event) (k : proc A)
  | Receive (source : nat) (k : string → proc A).

Arguments Ret {A} a.
Arguments Raise {A} e.
Arguments Emit {A} ev k.
Arguments Receive {A} source k.

Fixpoint proc_bind {A B} (m : proc A) (f : A → proc B) : proc B :=
  match m with
  | Ret a => f a
  | Raise e => Raise e
  | Emit ev k => Emit ev (proc_bind k f)
  | Receive source k => Receive source (λ payload, proc_bind (k payload) f)
  end.

(** The attributes of the object [_run_scenario] returns that the
    scheduler reads. *)
Record aim_result : Type := {
  scenario_name : string;
  output_dir : string;
  projection_file : string
}.

(** The argument [scenario] of [run_multiple_windfields]: the path of a
    scenario script, or the dictionary of parameters that [run_scenario]
    passes on when it was given one. *)
Inductive scenario_arg : Type :=
  | Script (path : string)
  | Dictionary (params : gmap string value).

(** [pypar] is the imported module: [Some (size, rank)] when the import
    succeeded, [None] when it failed and the local name is left unbound. *)
Definition pypar_size (pypar : option (nat * nat)) : nat :=
  match pypar with Some (P, _) => P | None => 1 end.

Definition pypar_rank (pypar : option (nat * nat)) : nat :=
  match pypar with Some (_, p) => p | None => 0 end.

(** An operation [pypar.f(...)]: evaluating the unbound local raises. *)
Definition pypar_call {A} (pypar : option (nat * nat)) (op : proc A) : proc A :=
  match pypar with
  | Some _ => op
  | None => Raise UnboundLocalError
  end.

(** [for i in range(P): pypar.send((hazard_output_folder), i)]. *)
Fixpoint send_all {A} (pypar : option (nat * nat)) (payload : string)
    (destinations : list nat) (k : proc A) : proc A :=
  match destinations with
  | [] => k
  | i :: others =>
      pypar_call pypar (Emit (ESend payload i) (send_all pypar payload others k))
  end.

(** Lines 634-653: rank 0 creates the log directory and sends the name of
    the hazard output folder; the others receive it.  The result is the
    pair [(hazard_output_folder, logdir)] the rank continues with.
    [os.path.join(None, 'logs')] raises [AttributeError]. *)
Definition handshake (pypar : option (nat * nat))
    (hazard_output_folder : option string) : proc (string * string) :=
  let P := pypar_size pypar in
  let p := pypar_rank pypar in
  if (p =? 0)%nat then
    match hazard_output_folder with
    | None => Raise AttributeError
    | Some folder =>
        let logdir := path_join folder "logs" in
        Emit (EMakedir logdir)
          (send_all pypar folder (seq 0 P) (Ret (folder, logdir)))
    end
  else
    pypar_call pypar
      (Receive 0 (λ folder, Ret (folder, path_join folder "logs"))).

(** [if i%P == p]; the size [P] of a group is at least 1. *)
Definition mine (P p i : nat) : bool := (i mod P =? p)%nat.

Definition fmt_nat (n : nat) : string := fmt_int (Z.of_nat n).

Section Scheduler.

(** The outcome of deriving the parameters of unit [i] from its wind field
    and of [_run_scenario] on them: an exception, [None] (the scenario had
    sweeps) or the object of the finished run. *)
Variable engine : nat → string → string → exn + option aim_result.

(** The work on one assigned wind field, lines 690-736, followed by the
    rest of the loop [k].  The test [hazard_output_folder is None] of
    line 706 cannot succeed: on rank 0 a folder [None] has raised in
    [os.path.join] before the loop, and the other ranks hold the string
    they received. *)
Definition process_unit {A} (p i : nat) (file windfield_directory
    hazard_output_folder dircomment : string) (k : proc A) : proc A :=
  let windfield := windfield_directory +:+ "/" +:+ file in
  let windname := fst (splitext file) in
  let comment := dircomment +:+ "_run" +:+ fmt_nat i +:+ "_proc" +:+ fmt_nat p in
  Emit (ERunScenario i windfield comment)
    match engine i windfield comment with
    | inl e => Raise e
    | inr aim =>
        Emit (EMakedir hazard_output_folder)
          (Emit (EShell ("chmod -R g+w " +:+ hazard_output_folder))
             match aim with
             | None => Raise AttributeError
             | Some aim =>
                 let result_file := scenario_name aim +:+ ".res.nc" in
                 let newname :=
                   scenario_name aim +:+ "." +:+ windname +:+ ".res.nc" in
                 Emit (EShell ("cp " +:+ output_dir aim +:+ "/" +:+ result_file
                                 +:+ " " +:+ hazard_output_folder +:+ "/" +:+ newname))
                   ((if (i =? 0)%nat
                     then Emit (EShell ("cp " +:+ projection_file aim +:+ " "
                                          +:+ hazard_output_folder
                                          +:+ "/HazardMaps.res.prj"))
                     else λ k, k)
                      (Emit (EShell ("/bin/rm -rf " +:+ output_dir aim)) k))
             end)
    end.

(** The loop over [enumerate(os.listdir(windfield_directory))], from index
    [i] on.  [dircomment] is resolved at the first assigned wind field. *)
Fixpoint process_units (P p : nat) (windfield_directory hazard_output_folder : string)
    (dircomment eruption_comment : option string)
    (files : list string) (i count_local count_all : nat) : proc (nat * nat) :=
  match files with
  | [] => Ret (count_local, count_all)
  | file :: others =>
      let count_all := S count_all in
      if mine P p i then
        if negb (endswith file ".profile") then
          process_units P p windfield_directory hazard_output_folder
            dircomment eruption_comment others (S i) count_local count_all
        else
          let count_local := S count_local in
          match (match dircomment with
                 | Some c => Some c
                 | None => eruption_comment
                 end) with
          | None => Raise KeyError
          | Some c =>
              process_unit p i file windfield_directory hazard_output_folder c
                (process_units P p windfield_directory hazard_output_folder
                   (Some c) eruption_comment others (S i) count_local count_all)
          end
      else
        process_units P p windfield_directory hazard_output_folder
          dircomment eruption_comment others (S i) count_local count_all
  end.

(** [basename, _ = os.path.splitext(scenario)], line 677.  The call is
    not guarded: for a dictionary, [splitext] looks up [scenario.rfind]
    and raises [AttributeError]. *)
Definition scenario_basename (scenario : scenario_arg) : exn + string :=
  match scenario with
  | Script path => inr (fst (splitext path))
  | Dictionary _ => inl AttributeError
  end.

(** [run_multiple_windfields] for one process.  [listing] is what
    [os.listdir(windfield_directory)] returns to it and [eruption_comment]
    the entry of that name in the parameters that
    [get_scenario_parameters(scenario)] returns in line 665, a call taken
    to succeed.  The name computed in lines 656-659
    ([os.path.splitext(scenario)[0]], or ['run'] when that raises) is not
    used afterwards. *)
Definition run_multiple_windfields (pypar : option (nat * nat))
    (scenario : scenario_arg)
    (windfield_directory : string) (hazard_output_folder : option string)
    (dircomment eruption_comment : option string) (listing : list string)
    : proc unit :=
  let P := pypar_size pypar in
  let p := pypar_rank pypar in
  (match pypar with
   | Some _ => λ k, Emit (ESleep 1) (Emit EBarrier k)
   | None => λ k, k
   end)
    (proc_bind (handshake pypar hazard_output_folder)
       (λ '(hazard_output_folder, logdir),
          let name := match scenario with
                      | Script path => fst (splitext path)
                      | Dictionary _ => "run"
                      end in
          pypar_call pypar
            (Emit EBarrier
               (Emit (ESleep (2 * p))
                  (Emit (EStartLogging
                           (path_join logdir ("P" +:+ fmt_nat p +:+ ".log")))
                     match scenario_basename scenario with
                     | inl e => Raise e
                     | inr basename =>
                         proc_bind
                           (process_units P p windfield_directory
                              hazard_output_folder dircomment eruption_comment
                              listing 0 0 0)
                           (λ '(count_local, count_all),
                              Emit (EDone p count_local)
                                (Emit (EOutputs hazard_output_folder)
                                   (pypar_call pypar
                                      (Emit EBarrier
                                         ((if (p =? 0)%nat
                                           then Emit (EReport count_all)
                                           else λ k, k)
                                            (pypar_call pypar
                                               (Emit EFinalize (Ret tt))))))))
                     end))))).

End Scheduler.

(** *** One process on its own *)

Inductive status (A : Type) : Type :=
  | Returned (a : A)
  | Raised (e : exn)
  | Waiting.

Arguments Returned {A} a.
Arguments Raised {A} e.
Arguments Waiting {A}.

(** The events of a process, how it ends and what is left of [inbox],
    when its receives are served from [inbox] in order; [Waiting]: it is
    blocked in a receive.  Barriers are taken to be passed. *)
Fixpoint local_run {A} (m : proc A) (inbox : list string)
    : list event * status A * list string :=
  match m with
  | Ret a => ([], Returned a, inbox)
  | Raise e => ([], Raised e, inbox)
  | Emit ev k =>
      let '(events, s, rest) := local_run k inbox in (ev :: events, s, rest)
  | Receive _ k =>
      match inbox with
      | [] => ([], Waiting, [])
      | payload :: inbox' => local_run (k payload) inbox'
      end
  end.

(** The indices of the wind fields a process ran a scenario for. *)
Definition scenario_indices (events : list event) : list nat :=
  omap (λ ev, match ev with ERunScenario i _ _ => Some i | _ => None end) events.

(** The indices the cyclic distribution gives to rank [p] among [N]
    entries. *)
Definition assigned (P p N : nat) : list nat :=
  filter (λ i, mine P p i = true) (seq 0 N).

(** [enumerate(files)] counting from [start]. *)
Definition enumerate_from {A} (start : nat) (files : list A) : list (nat * A) :=
  zip (seq start (length files)) files.

(** The indices rank [p] processes: assigned to it and naming a
    [.profile] file. *)
Definition processed_from (P p start : nat) (files : list string) : list nat :=
  (filter (λ unit, mine P p unit.1 && endswith unit.2 ".profile" = true)
          (enumerate_from start files)).*1.

Definition processed (P p : nat) (listing : list string) : list nat :=
  processed_from P p 0 listing.

(** The events of rank [p] of a group of [P] ranks that run
    [run_multiple_windfields] on the same arguments, rank [r] being called
    with the folder [folders r] and rank 0 sending [folder]. *)
Definition rank_events (engine : nat → string → string → exn + option aim_result)
    (P p : nat) (scenario : scenario_arg) (windfield_directory : string)
    (folders : nat → option string) (folder : string)
    (dircomment eruption_comment : option string) (listing : list string)
    : list event :=
  (local_run (run_multiple_windfields engine (Some (P, p)) scenario
                windfield_directory (folders p) dircomment eruption_comment listing)
             (if (p =? 0)%nat then [] else [folder])).1.1.

(** The indices of the wind fields rank [p] ran a scenario for. *)
Definition rank_indices (engine : nat → string → string → exn + option aim_result)
    (P p : nat) (scenario : scenario_arg) (windfield_directory : string)
    (folders : nat → option string) (folder : string)
    (dircomment eruption_comment : option string) (listing : list string)
    : list nat :=
  scenario_indices (rank_events engine P p scenario windfield_directory folders
                      folder dircomment eruption_comment listing).

(** The destinations of the messages a process sent, in order. *)
Definition send_destinations (events : list event) : list nat :=
  omap (λ ev, match ev with ESend _ i => Some i | _ => None end) events.

(** *** A group of processes

    The processes of a group run interleaved.  A send is buffered: it
    completes at once and the message waits in the mailbox until the
    destination receives it.  A receive from [source] takes the oldest
    message of [source] for the receiving rank and blocks while there is
    none.  A barrier is passed by all ranks together. *)

Record message : Type := {
  msg_source : nat;
  msg_destination : nat;
  msg_payload : string
}.

Record group (A : Type) : Type := {
  ranks : list (proc A);
  mailbox : list message;
  sent : list message
}.

Arguments ranks {A} g.
Arguments mailbox {A} g.
Arguments sent {A} g.

Definition local_event (ev : event) : Prop :=
  match ev with
  | ESend _ _ | EBarrier => False
  | _ => True
  end.

Definition at_barrier {A} (m : proc A) : Prop := ∃ k, m = Emit EBarrier k.

Definition pass_barrier {A} (m : proc A) : proc A :=
  match m with
  | Emit EBarrier k => k
  | _ => m
  end.

Inductive step {A : Type} : group A → group A → Prop :=
  | step_local g r ev k :
      ranks g !! r = Some (Emit ev k) →
      local_event ev →
      step g {| ranks := <[r := k]> (ranks g);
                mailbox := mailbox g;
                sent := sent g |}
  | step_send g r payload i k :
      ranks g !! r = Some (Emit (ESend payload i) k) →
      step g {| ranks := <[r := k]> (ranks g);
                mailbox := mailbox g
                  ++ [{| msg_source := r; msg_destination := i;
                         msg_payload := payload |}];
                sent := sent g
                  ++ [{| msg_source := r; msg_destination := i;
                         msg_payload := payload |}] |}
  | step_receive g r source k before payload after :
      ranks g !! r = Some (Receive source k) →
      mailbox g = before
        ++ {| msg_source := source; msg_destination := r;
              msg_payload := payload |} :: after →
      (∀ m, m ∈ before → ¬ (msg_source m = source ∧ msg_destination m = r)) →
      step g {| ranks := <[r := k payload]> (ranks g);
                mailbox := before ++ after;
                sent := sent g |}
  | step_barrier g :
      Forall at_barrier (ranks g) →
      step g {| ranks := pass_barrier <$> ranks g;
                mailbox := mailbox g;
                sent := sent g |}.

(** Every rank has returned. *)
Definition finished {A} (g : group A) : Prop :=
  Forall (λ m, ∃ a, m = Ret a) (ranks g).

(** The group of [P] ranks at the handshake; rank [r] was called with the
    folder [folders r]. *)
Definition handshake_group (P : nat) (folders : nat → option string)
    : group (string * string) :=
  {| ranks := (λ r, handshake (Some (P, r)) (folders r)) <$> seq 0 P;
     mailbox := [];
     sent := [] |}.

(** The message by which rank 0 sends [folder] to rank [i]. *)
Definition folder_message (folder : string) (i : nat) : message :=
  {| msg_source := 0; msg_destination := i; msg_payload := folder |}.

(** The events of the work on one wind field after its scenario has run:
    directory creation and shell commands. *)
Definition housekeeping (ev : event) : Prop :=
  match ev with
  | EMakedir _ | EShell _ => True
  | _ => False
  end.

(** The events of the loop over the wind fields. *)
Definition loop_event (ev : event) : Prop :=
  match ev with
  | ERunScenario _ _ _ | EMakedir _ | EShell _ => True
  | _ => False
  end.

(** The comment the loop uses: the argument, else the scenario's. *)
Definition loop_comment (dircomment eruption_comment : option string) : option string :=
  match dircomment with
  | Some c => Some c
  | None => eruption_comment
  end.

(** The counts [run_multiple_windfields] reports. *)
Definition reports (events : list event) : list nat :=
  omap (λ ev, match ev with EReport n => Some n | _ => None end) events.

(** *** A sample engine and a sample listing *)

(** Every run succeeds and leaves its result in a scratch directory of
    its own. *)
Definition sample_engine (i : nat) (windfield comment : string)
    : exn + option aim_result :=
  inr (Some {| scenario_name := "merapi";
               output_dir := "/scratch/merapi_" +:+ fmt_nat i;
               projection_file := "/scratch/merapi_" +:+ fmt_nat i
                                    +:+ "/merapi.prj" |}).

Definition sample_listing : list string :=
  ["README"; "p00.profile"; "p06.profile"; "p12.profile"].

(** A directory of three wind fields. *)
Definition sample_profiles : list string :=
  ["p00.profile"; "p06.profile"; "p12.profile"].

(** *** The states of the ranks during the handshake *)

(** A follower blocked in [pypar.receive(0)]. *)
Definition waiting : proc (string * string) :=
  Receive 0 (λ folder, Ret (folder, path_join folder "logs")).

(** A rank that holds the folder [f0] of rank 0 and its log directory. *)
Definition informed (f0 : string) : proc (string * string) :=
  Ret (f0, path_join f0 "logs").

(** Rank 0 of [P] before its send to rank [j]. *)
Definition leader_sending (P : nat) (f0 : string) (j : nat) : proc (string * string) :=
  send_all (Some (P, 0%nat)) f0 (seq j (P - j)) (informed f0).

(** Rank 0 before it creates the log directory. *)
Definition leader_start (P : nat) (f0 : string) : proc (string * string) :=
  Emit (EMakedir (path_join f0 "logs")) (leader_sending P f0 0).

(** What holds in every configuration the group can reach: rank 0 is
    before its send to rank [j], the messages sent so far are those to the
    ranks below [j], every message carries the folder of rank 0, the
    message of rank 0 to itself stays in the mailbox, and a follower
    either still waits (its message being in the mailbox once sent) or
    holds the folder of rank 0. *)
Record handshake_inv (P : nat) (f0 : string) (j : nat)
    (g : group (string * string)) : Prop := {
  inv_length : length (ranks g) = P;
  inv_bound : (j ≤ P)%nat;
  inv_leader :
    (ranks g !! 0%nat = Some (leader_start P f0) ∧ j = 0%nat)
    ∨ ranks g !! 0%nat = Some (leader_sending P f0 j);
  inv_sent : sent g = folder_message f0 <$> seq 0 j;
  inv_followers :
    ∀ q, (0 < q < P)%nat →
      (ranks g !! q = Some waiting
       ∧ ((q < j)%nat → folder_message f0 q ∈ mailbox g))
      ∨ (ranks g !! q = Some (informed f0) ∧ (q < j)%nat);
  inv_mailbox :
    ∀ m, m ∈ mailbox g → ∃ i, (i < j)%nat ∧ m = folder_message f0 i;
  inv_self : (0 < j)%nat → folder_message f0 0 ∈ mailbox g
}.

(** The group when rank 0 has sent to the ranks below [j] and no follower
    has received yet. *)
Definition group_sending (P : nat) (f0 : string) (j : nat) : group (string * string) :=
  {| ranks := leader_sending P f0 j :: replicate (P - 1) waiting;
     mailbox := folder_message f0 <$> seq 0 j;
     sent := folder_message f0 <$> seq 0 j |}.

(** The group when rank 0 has sent everything and the followers
    [1 .. n] have received. *)
Definition group_receiving (P : nat) (f0 : string) (n : nat) : group (string * string) :=
  {| ranks := informed f0
                :: (replicate n (informed f0) ++ replicate (P - 1 - n) waiting);
     mailbox := folder_message f0 0
                  :: (folder_message f0 <$> seq (S n) (P - 1 - n));
     sent := folder_message f0 <$> seq 0 P |}.

(** ** Further definitions for the properties of the whole module *)

(** *** Files an operation may change *)

(** An operation that changes no file but [out], and does not remove
    [out]. *)
Definition writes_only {A} (out : string) (m : io A) : Prop :=
  ∀ fs : gmap string string,
    (∀ g, g ≠ out → fst (m fs) !! g = fs !! g)
    ∧ (is_Some (fs !! out) → is_Some (fst (m fs) !! out)).

(** The header of a first file can be read: it has four lines, the third
    is two integers and the fourth is an integer. *)
Definition header_parses (lines : list string) : bool :=
  match lines with
  | _ :: _ :: l2 :: l3 :: _ =>
      match parse_time_range l2, int l3 with
      | inr _, Some _ => true
      | _, _ => false
      end
  | _ => false
  end.

(** A file of two lines: too short for a header. *)
Definition profile_short : string :=
  line "439423 9167213" +:+ line "20090913".

(** *** Reading back what ['%i'] writes *)

(** The number a string of decimal digits denotes, read from the left
    with [acc] the value of the digits already seen. *)
Fixpoint uint_val (acc : Z) (d : Decimal.uint) : Z :=
  match d with
  | Decimal.Nil => acc
  | Decimal.D0 l => uint_val (acc * 10 + 0) l
  | Decimal.D1 l => uint_val (acc * 10 + 1) l
  | Decimal.D2 l => uint_val (acc * 10 + 2) l
  | Decimal.D3 l => uint_val (acc * 10 + 3) l
  | Decimal.D4 l => uint_val (acc * 10 + 4) l
  | Decimal.D5 l => uint_val (acc * 10 + 5) l
  | Decimal.D6 l => uint_val (acc * 10 + 6) l
  | Decimal.D7 l => uint_val (acc * 10 + 7) l
  | Decimal.D8 l => uint_val (acc * 10 + 8) l
  | Decimal.D9 l => uint_val (acc * 10 + 9) l
  end.

(** No white space in a string. *)
Fixpoint no_space (s : string) : bool :=
  match s with
  | String c s' => negb (Ascii.is_space c) && no_space s'
  | EmptyString => true
  end.

(** *** The trace of one rank of [run_multiple_windfields] *)

(** What a rank does before the loop over the wind fields, when the
    handshake gives it [folder]. *)
Definition prologue (P p : nat) (folder : string) : list event :=
  ESleep 1 :: EBarrier
    :: (if (p =? 0)%nat
        then EMakedir (path_join folder "logs") :: (ESend folder <$> seq 0 P)
        else [])
    ++ [EBarrier; ESleep (2 * p);
        EStartLogging (path_join (path_join folder "logs")
                         ("P" +:+ fmt_nat p +:+ ".log"))].

(** What it does after the loop. *)
Definition epilogue (p count_local count_all : nat) (folder : string) : list event :=
  [EDone p count_local; EOutputs folder; EBarrier]
    ++ (if (p =? 0)%nat then [EReport count_all] else [])
    ++ [EFinalize].

(** The shell command that copies a projection file to
    [HazardMaps.res.prj] in the hazard output folder. *)
Definition prj_copy (ev : event) : bool :=
  match ev with
  | EShell command =>
      String.prefix "cp " command && endswith command "/HazardMaps.res.prj"
  | _ => false
  end.

(** ** Joining the wind profiles of a directory: [join_wind_profiles] *)

(** [s[-a:-b]] for [a > b > 0]: the characters from the [a]-th last up to,
    but without, the [b]-th last; positions before the start of a short
    string are cut off. *)
Definition slice_from_end (a b : nat) (s : string) : string :=
  let start := (String.length s - a)%nat in
  let stop := (String.length s - b)%nat in
  substring start (stop - start) s.

(** ['%s-%s-%sT%s%s%s' % ('2010', month, date, hour, '00', '00')] with the
    month, day and hour cut from the end of the name. *)
Definition timestring (basename : string) : string :=
  let hour := last_chars 2 basename in
  let date := slice_from_end 4 2 basename in
  let month := slice_from_end 6 4 basename in
  "2010" +:+ "-" +:+ month +:+ "-" +:+ date +:+ "T" +:+ hour +:+ "00" +:+ "00".

Section JoinWindProfiles.

(** [int(time.mktime(time.strptime(timestring, '%Y-%m-%dT%H%M%S')))]:
    the seconds since the epoch, in local time, of the time a string
    denotes.  [None]: [strptime] rejects the string with [ValueError]. *)
Variable epoch_seconds : string → option Z.

(** The loop over [os.listdir(windfield_directory)]: the dictionary
    [wind_data_files] and the list [seconds] after the entries of
    [listing]. *)
Fixpoint collect_profiles (listing : list string)
    (wind_data_files : gmap Z string) (seconds : list Z)
    : exn + (gmap Z string * list Z) :=
  match listing with
  | [] => inr (wind_data_files, seconds)
  | x :: others =>
      if endswith x "profile" then
        let '(basename, _) := splitext x in
        match epoch_seconds (timestring basename) with
        | None => inl ValueError
        | Some s =>
            collect_profiles others (<[s := x]> wind_data_files) (seconds ++ [s])
        end
      else collect_profiles others wind_data_files seconds
  end.

(** [join_wind_profiles]; [listing] is what
    [os.listdir(windfield_directory)] returns.  The message the function
    prints is not represented. *)
Definition join_wind_profiles (windfield_directory : string)
    (listing : list string) : io unit :=
  match collect_profiles listing ∅ [] with
  | inl e => raise e
  | inr (wind_data_files, seconds) =>
      let seconds := merge_sort Z.le seconds in
      match mapM (λ s, wind_data_files !! s) seconds with
      | None => raise KeyError
      | Some wind_data_files =>
          let wind_data_files := path_join windfield_directory <$> wind_data_files in
          match head wind_data_files, last wind_data_files with
          | Some first, Some final =>
              let outfilename := windfield_directory in
              let base := fst (splitext first) in
              let outfilename := outfilename +:+ ("_" +:+ last_chars 6 base +:+ "-") in
              let base := fst (splitext final) in
              let outfilename := outfilename +:+ (last_chars 6 base +:+ ".profile") in
              join_sorted_windprofiles wind_data_files outfilename
          | _, _ => raise IndexError
          end
      end
  end.

(** *** What the listing determines *)

(** The entries [join_wind_profiles] looks at. *)
Definition profiles (listing : list string) : list string :=
  filter (λ x, endswith x "profile" = true) listing.

(** The time stamp of an entry. *)
Definition profile_stamp (x : string) : option Z :=
  epoch_seconds (timestring (fst (splitext x))).

(** The last of the entries that carry the time stamp [s]. *)
Definition latest (entries : list string) (s : Z) : option string :=
  last (filter (λ x, profile_stamp x = Some s) entries).

(** The entries handed to the stitcher when the entries of the listing
    have the time stamps [seconds]: for each stamp, in ascending order, the
    last entry that carries it. *)
Definition chosen_files (listing : list string) (seconds : list Z) : list string :=
  (λ s, default EmptyString (latest (profiles listing) s))
    <$> merge_sort Z.le seconds.

(** The name of the joined file for a first and a last source. *)
Definition joined_name (windfield_directory first final : string) : string :=
  windfield_directory
    +:+ ("_" +:+ last_chars 6 (fst (splitext (path_join windfield_directory first)))
           +:+ "-")
    +:+ (last_chars 6 (fst (splitext (path_join windfield_directory final)))
           +:+ ".profile").

End JoinWindProfiles.

(** A sample clock: the hour of day 1, read from the two digits before
    [0000]; every other text is rejected. *)
Definition sample_epoch_seconds (timestring : string) : option Z :=
  if String.prefix "2010-09-13T" timestring
  then int (substring 11 2 timestring) ≫= λ h, Some (h * 3600)%Z
  else None.

(** A listing out of time order, with an entry that is no wind profile. *)
Definition sample_ncep_listing : list string :=
  ["ncep1_2009091312.profile"; "nc2prof.inp"; "ncep1_2009091300.profile";
   "ncep1_2009091306.profile"].

(** Two entries for the same month, day and hour of different years. *)
Definition sample_two_years : list string :=
  ["ncep1_2008091306.profile"; "ncep1_2009091300.profile";
   "ncep1_2009091306.profile"].

(** ** The name of a scenario given as a script: [run_scenario] *)

(** ['/' * len(head) == head]. *)
Fixpoint all_slashes (s : string) : bool :=
  match s with
  | String c s' => Ascii.eqb c "/" && all_slashes s'
  | EmptyString => true
  end.

(** [head.rstrip('/')]. *)
Fixpoint rstrip_slashes (s : string) : string :=
  match s with
  | String c s' =>
      match rstrip_slashes s' with
      | EmptyString => if Ascii.eqb c "/" then EmptyString else String c EmptyString
      | r => String c r
      end
  | EmptyString => EmptyString
  end.

(** [os.path.split] on a POSIX system. *)
Definition path_split (p : string) : string * string :=
  let i := Z.to_nat (rfind p "/"%char + 1) in
  let head := substring 0 i p in
  let tail := substring i (String.length p - i) p in
  (if negb (String.eqb head EmptyString) && negb (all_slashes head)
   then rstrip_slashes head else head,
   tail).

(** Lines 128-130 of [run_scenario], for a scenario given as the path of
    a script: [os.path.splitext(os.path.split(scenario)[-1])[0]]. *)
Definition scenario_name_of_file (scenario : string) : string :=
  let x := snd (path_split scenario) in
  fst (splitext x).

(** The character [c] does not occur in a string. *)
Fixpoint no_char (c : ascii) (s : string) : bool :=
  match s with
  | String x s' => negb (Ascii.eqb x c) && no_char c s'
  | EmptyString => true
  end.

(** * Properties *)

(** ** Strings and lines *)

Lemma app_cons_s c s t : String c s +:+ t = String c (s +:+ t).
Proof. reflexivity. Qed.

Lemma app_nil_s t : EmptyString +:+ t = t.
Proof. reflexivity. Qed.

Lemma app_nil_r_s s : s +:+ EmptyString = s.
Proof. induction s as [|c s IH]; [done|]. by rewrite app_cons_s, IH. Qed.

Lemma app_assoc_s s t u : (s +:+ t) +:+ u = s +:+ t +:+ u.
Proof. induction s as [|c s IH]; [done|]. by rewrite !app_cons_s, IH. Qed.

Lemma length_app_s s t :
  String.length (s +:+ t) = (String.length s + String.length t)%nat.
Proof. induction s as [|c s IH]; [done|]. rewrite app_cons_s. simpl. by rewrite IH. Qed.

Lemma join_lines_cons l ls : join_lines (l :: ls) = l +:+ join_lines ls.
Proof. reflexivity. Qed.

Lemma join_lines_app ls1 ls2 :
  join_lines (ls1 ++ ls2) = join_lines ls1 +:+ join_lines ls2.
Proof.
  induction ls1 as [|l ls1 IH]; [done|].
  simpl app. by rewrite !join_lines_cons, IH, app_assoc_s.
Qed.

(** *** [readlines] and [join_lines] are inverse on well-formed lines *)

Lemma join_readlines content : join_lines (readlines content) = content.
Proof.
  induction content as [|c rest IH]; [done|].
  simpl. destruct (Ascii.eqb c NL).
  - by rewrite join_lines_cons, IH.
  - destruct (readlines rest) as [|l ls].
    + by rewrite <- IH.
    + by rewrite <- IH.
Qed.

Lemma readlines_terminated l s :
  terminated l = true → readlines (l +:+ s) = l :: readlines s.
Proof.
  induction l as [|c l IH]; [done|].
  simpl terminated. rewrite app_cons_s. simpl readlines.
  destruct (Ascii.eqb c NL) eqn:Hc.
  - destruct l; [|done]. done.
  - intros Hl. by rewrite (IH Hl).
Qed.

Lemma readlines_unterminated l :
  unterminated l = true → readlines l = [l].
Proof.
  induction l as [|c l IH]; [done|].
  intros [Hc Hl]%andb_prop. apply negb_true_iff in Hc.
  simpl readlines. rewrite Hc.
  destruct l as [|d l]; [done|].
  by rewrite (IH Hl).
Qed.

Lemma readlines_join ls : lines_ok ls = true → readlines (join_lines ls) = ls.
Proof.
  induction ls as [|l ls IH]; [done|].
  rewrite join_lines_cons. destruct ls as [|l' ls].
  - simpl lines_ok. unfold join_lines. simpl foldr. rewrite app_nil_r_s.
    intros [Hl|Hl]%orb_prop.
    + rewrite <- (app_nil_r_s l) at 1. by rewrite readlines_terminated.
    + by apply readlines_unterminated.
  - intros [Hl Hls]%andb_prop.
    rewrite readlines_terminated by done. by rewrite IH.
Qed.

Lemma terminated_cons c l :
  Ascii.eqb c NL = false → terminated (String c l) = terminated l.
Proof. intros Hc. simpl. by rewrite Hc. Qed.

Lemma lines_ok_readlines content : lines_ok (readlines content) = true.
Proof.
  induction content as [|c rest IH]; [done|].
  simpl readlines. destruct (Ascii.eqb c NL) eqn:Hc.
  - destruct (readlines rest) as [|l ls] eqn:Hr.
    + simpl. by rewrite Hc.
    + change (lines_ok (String c EmptyString :: l :: ls))
        with (terminated (String c EmptyString) && lines_ok (l :: ls)).
      rewrite IH. simpl. by rewrite Hc.
  - destruct (readlines rest) as [|l ls] eqn:Hr.
    + simpl. rewrite Hc. done.
    + destruct ls as [|l' ls].
      * change (lines_ok [l]) with (terminated l || unterminated l) in IH.
        change (lines_ok [String c l])
          with (terminated (String c l) || unterminated (String c l)).
        rewrite terminated_cons by done.
        apply orb_prop in IH as [Hl|Hl]; [by rewrite Hl|].
        unfold unterminated. simpl no_nl. rewrite Hc. simpl.
        destruct l as [|d l]; [done|].
        change (no_nl (String d l) = true) in Hl. rewrite Hl. apply orb_true_r.
      * change (lines_ok (String c l :: l' :: ls))
          with (terminated (String c l) && lines_ok (l' :: ls)).
        change (lines_ok (l :: l' :: ls))
          with (terminated l && lines_ok (l' :: ls)) in IH.
        apply andb_prop in IH as [Hl Hls].
        by rewrite terminated_cons, Hl, Hls.
Qed.

Lemma lines_ok_insert ls i x :
  lines_ok ls = true → terminated x = true → lines_ok (<[i:=x]> ls) = true.
Proof.
  revert i. induction ls as [|l ls IH]; intros i Hls Hx; [done|].
  destruct i as [|i].
  - simpl. destruct ls as [|l' ls]; [by rewrite Hx|].
    change (lines_ok (l :: l' :: ls)) with (terminated l && lines_ok (l' :: ls)) in Hls.
    apply andb_prop in Hls as [_ Hls]. by rewrite Hx, Hls.
  - destruct ls as [|l' ls]; [done|].
    change (lines_ok (l :: l' :: ls)) with (terminated l && lines_ok (l' :: ls)) in Hls.
    apply andb_prop in Hls as [Hl Hls].
    specialize (IH i Hls Hx).
    change (<[S i:=x]> (l :: l' :: ls)) with (l :: <[i:=x]> (l' :: ls)).
    destruct (<[i:=x]> (l' :: ls)) as [|y ys] eqn:Hins.
    + destruct i; done.
    + change (lines_ok (l :: y :: ys)) with (terminated l && lines_ok (y :: ys)).
      by rewrite Hl, IH.
Qed.

Lemma no_nl_app s t : no_nl (s +:+ t) = no_nl s && no_nl t.
Proof.
  induction s as [|c s IH]; [done|].
  rewrite app_cons_s. simpl. by rewrite IH, andb_assoc.
Qed.

Lemma terminated_body body :
  no_nl body = true → terminated (body +:+ String NL EmptyString) = true.
Proof.
  induction body as [|c s IH]; [done|].
  rewrite app_cons_s. simpl.
  intros [Hc Hs]%andb_prop. apply negb_true_iff in Hc. rewrite Hc. auto.
Qed.

Lemma no_nl_string_of_uint d : no_nl (NilEmpty.string_of_uint d) = true.
Proof. induction d as [|d IH|d IH|d IH|d IH|d IH|d IH|d IH|d IH|d IH|d IH]; [done|..]; exact IH. Qed.

Lemma no_nl_string_of_uint0 d : no_nl (NilZero.string_of_uint d) = true.
Proof. destruct d; [done|..]; apply no_nl_string_of_uint. Qed.

Lemma no_nl_fmt_int z : no_nl (fmt_int z) = true.
Proof.
  unfold fmt_int. destruct (Z.to_int z) as [d|d]; [apply no_nl_string_of_uint0|].
  unfold NilZero.string_of_int. simpl no_nl. apply no_nl_string_of_uint0.
Qed.

Lemma terminated_timeblock_line a b : terminated (timeblock_line a b) = true.
Proof.
  unfold timeblock_line.
  rewrite <- !app_assoc_s. apply terminated_body.
  by rewrite !no_nl_app, !no_nl_fmt_int.
Qed.

Lemma terminated_vent_line {V} (py_str : V → string) e n :
  no_nl (py_str e) = true → no_nl (py_str n) = true →
  terminated (vent_line py_str e n) = true.
Proof.
  intros He Hn. unfold vent_line.
  rewrite <- !app_assoc_s. apply terminated_body.
  by rewrite !no_nl_app, He, Hn.
Qed.

(** *** Writing a file line by line *)

Lemma for_each_write f lines (fs : gmap string string) c :
  fs !! f = Some c →
  for_each lines (write f) fs = (<[f := c +:+ join_lines lines]> fs, inr tt).
Proof.
  revert fs c. induction lines as [|l ls IH]; intros fs c Hc.
  - simpl. unfold ret, join_lines. simpl. rewrite app_nil_r_s.
    by rewrite insert_id.
  - simpl for_each. unfold bind at 1. unfold write at 1. rewrite Hc. simpl default.
    rewrite (IH _ (c +:+ l)) by apply lookup_insert_eq.
    by rewrite insert_insert_eq, join_lines_cons, app_assoc_s.
Qed.

Lemma rewrite_file f lines (fs : gmap string string) :
  (open_w f ;;; for_each lines (write f)) fs = (<[f := join_lines lines]> fs, inr tt).
Proof.
  unfold bind, open_w.
  rewrite (for_each_write f lines _ EmptyString) by apply lookup_insert_eq.
  by rewrite insert_insert_eq.
Qed.

(** *** [rfind], [substring] and [splitext] on a concatenation *)

Lemma rfind_from_app c s t i found :
  rfind_from c (s +:+ t) i found
  = rfind_from c t (i + Z.of_nat (String.length s)) (rfind_from c s i found).
Proof.
  revert i found. induction s as [|x s IH]; intros i found.
  - rewrite app_nil_s. simpl. by rewrite Z.add_0_r.
  - rewrite app_cons_s. simpl rfind_from. rewrite IH.
    f_equal. simpl String.length. lia.
Qed.

Lemma rfind_from_bound c s i found :
  (found < i → found ≤ rfind_from c s i found < i + Z.of_nat (String.length s))%Z.
Proof.
  revert i found. induction s as [|x s IH]; intros i found Hlt.
  - simpl. lia.
  - simpl rfind_from. simpl String.length.
    destruct (Ascii.eqb x c).
    + specialize (IH (i + 1)%Z i). lia.
    + specialize (IH (i + 1)%Z found). lia.
Qed.

Lemma substring_app_l s t k :
  substring 0 (String.length s + k) (s +:+ t) = s +:+ substring 0 k t.
Proof.
  induction s as [|x s IH]; [done|].
  rewrite !app_cons_s. simpl. by rewrite IH.
Qed.

Lemma substring_app_skip s t k m :
  substring (String.length s + k) m (s +:+ t) = substring k m t.
Proof. induction s as [|x s IH]; [done|]. rewrite app_cons_s. simpl. apply IH. Qed.

Lemma get_is_Some p k : (k < String.length p)%nat → is_Some (String.get k p).
Proof.
  revert k. induction p as [|x p IH]; intros k Hk; simpl in Hk; [lia|].
  destruct k as [|k]; simpl; [eauto|]. apply IH. lia.
Qed.

Lemma skip_leading_dots_found p a n j c :
  (a ≤ j < a + n)%nat →
  String.get j p = Some c → c ≠ "."%char →
  (∀ k, (a ≤ k < j)%nat → is_Some (String.get k p)) →
  skip_leading_dots p a n = true.
Proof.
  revert a. induction n as [|n IH]; intros a Hj Hget Hc Hrange; [lia|].
  simpl. destruct (decide (a = j)) as [->|Hne].
  - rewrite Hget. apply Ascii.eqb_neq in Hc. by rewrite Hc.
  - destruct (Hrange a) as [x Hx]; [lia|]. rewrite Hx.
    destruct (Ascii.eqb x "."); [|done].
    apply IH; [lia|done|done|]. intros k Hk. apply Hrange. lia.
Qed.

Lemma splitext_hour_profile prefix :
  splitext (prefix +:+ "06.profile") = (prefix +:+ "06", ".profile").
Proof.
  unfold splitext, rfind. rewrite !rfind_from_app.
  set (L := String.length prefix).
  set (sep := rfind_from "/" prefix 0 (-1)).
  set (dot := rfind_from "." prefix 0 (-1)).
  assert (-1 ≤ sep < Z.of_nat L)%Z as Hsep
    by (pose proof (rfind_from_bound "/" prefix 0 (-1)); unfold sep, L; lia).
  cbn [rfind_from Ascii.eqb Bool.eqb]. simpl (if false then _ else _).
  simpl (if true then _ else _).
  replace (0 + Z.of_nat L + 1 + 1)%Z with (Z.of_nat (L + 2)) by lia.
  assert ((sep <? Z.of_nat (L + 2))%Z = true) as -> by (apply Z.ltb_lt; lia).
  rewrite (skip_leading_dots_found _ _ _ L "0"%char).
  - simpl andb. cbv iota. rewrite Nat2Z.id.
    rewrite length_app_s. fold L. f_equal.
    + unfold L. rewrite (substring_app_l prefix "06.profile" 2). done.
    + replace (L + String.length "06.profile" - (L + 2))%nat with 8%nat
        by (simpl; lia).
      unfold L. rewrite (substring_app_skip prefix "06.profile" 2 8). done.
  - lia.
  - unfold L. change (String.length prefix) with (0 + String.length prefix)%nat.
    by rewrite <- (append_correct2 prefix "06.profile" 0).
  - done.
  - intros k Hk. apply get_is_Some. rewrite length_app_s. fold L. lia.
Qed.

Lemma last_chars_hour prefix : last_chars 2 (prefix +:+ "06") = "06".
Proof.
  unfold last_chars. rewrite length_app_s.
  replace (String.length prefix + String.length "06" - 2)%nat
    with (String.length prefix + 0)%nat by (simpl; lia).
  by rewrite substring_app_skip.
Qed.

(** ** The patcher *)

(** C9: on a wind-profile file (one that has a first line),
    [set_vent_location_in_windfield] succeeds, the new first line is
    ["<easting> <northing>\n"] and every byte after the old first line is
    kept: the file read back has the same lines at every later position.
    No other file is touched. *)
Theorem set_vent_location_changes_only_line_1
    {V} (py_str : V → string) (filename : string)
    (vent_location_easting vent_location_northing : V)
    (fs : gmap string string) (content first : string) (rest : list string) :
  fs !! filename = Some content →
  readlines content = first :: rest →
  no_nl (py_str vent_location_easting) = true →
  no_nl (py_str vent_location_northing) = true →
  ∃ content',
    set_vent_location_in_windfield py_str filename
      vent_location_easting vent_location_northing fs
      = (<[filename := content']> fs, inr tt)
    ∧ content = first +:+ join_lines rest
    ∧ content' = (py_str vent_location_easting +:+ " "
                   +:+ py_str vent_location_northing +:+ String NL EmptyString)
                 +:+ join_lines rest
    ∧ readlines content'
      = (py_str vent_location_easting +:+ " "
          +:+ py_str vent_location_northing +:+ String NL EmptyString) :: rest
    ∧ (∀ i, (1 ≤ i)%nat → readlines content' !! i = readlines content !! i)
    ∧ (∀ other, other ≠ filename →
         (<[filename := content']> fs) !! other = fs !! other).
Proof.
  intros Hfile Hlines He Hn.
  exists (join_lines (vent_line py_str vent_location_easting vent_location_northing :: rest)).
  pose proof (lines_ok_readlines content) as Hok. rewrite Hlines in Hok.
  pose proof (lines_ok_insert (first :: rest) 0 _ Hok
                (terminated_vent_line py_str _ _ He Hn)) as Hok'.
  simpl in Hok'.
  assert (readlines
            (join_lines (vent_line py_str vent_location_easting vent_location_northing :: rest))
          = vent_line py_str vent_location_easting vent_location_northing :: rest)
    as Hread by (by apply readlines_join).
  split; [|split; [|split; [|split; [|split]]]].
  - unfold set_vent_location_in_windfield.
    unfold bind at 1. unfold open_readlines. rewrite Hfile, Hlines.
    unfold bind at 1. unfold lift, setitem. simpl.
    exact (rewrite_file filename
             (vent_line py_str vent_location_easting vent_location_northing :: rest) fs).
  - rewrite <- (join_readlines content) at 1. by rewrite Hlines.
  - done.
  - exact Hread.
  - intros i Hi. rewrite Hread, Hlines. destruct i; [lia|done].
  - intros other Hne. by rewrite lookup_insert_ne.
Qed.

Lemma set_vent_location_changes_only_line_1_witness :
  ∃ content',
    set_vent_location_in_windfield fmt_int "w/p18.profile" 439400%Z 9167200%Z
      sample_fs
    = (<["w/p18.profile" := content']> sample_fs, inr tt)
    ∧ readlines content'
      = [line "439400 9167200"; line "20090913"; line "64800 86400"; line "1";
         line "1000 9.0 5.0"].
Proof.
  destruct (set_vent_location_changes_only_line_1 fmt_int "w/p18.profile"
              439400%Z 9167200%Z sample_fs profile_18
              (line "439423 9167213")
              [line "20090913"; line "64800 86400"; line "1"; line "1000 9.0 5.0"])
    as (content' & Hrun & _ & _ & Hread & _).
  - reflexivity.
  - reflexivity.
  - reflexivity.
  - reflexivity.
  - exists content'. split; [exact Hrun|exact Hread].
Defined.

(** C8: on a file that has a third line, [set_timeblocks_in_windfield]
    reads the hour [h] from the last two characters of the name without its
    extension and replaces line 3 by ["<h*3600> <(h+6)*3600>\n"], every
    other line being kept; it raises exactly when those characters are not
    an integer, and then leaves the file system alone.  For a name ending
    in [06.profile] line 3 becomes ["21600 43200\n"]. *)
Theorem set_timeblocks_from_filename_hour
    (filename : string) (fs : gmap string string) (content : string) :
  fs !! filename = Some content →
  (2 < length (readlines content))%nat →
  (** the hour is read and line 3 replaced *)
  (∀ h, int (last_chars 2 (fst (splitext filename))) = Some h →
     ∃ content',
       set_timeblocks_in_windfield filename fs = (<[filename := content']> fs, inr tt)
       ∧ readlines content'
         = <[2 := fmt_int (h * 3600) +:+ " " +:+ fmt_int ((h + 6) * 3600)
                    +:+ String NL EmptyString]> (readlines content))
  (** failure exactly on a bad hour *)
  ∧ ((∃ e, snd (set_timeblocks_in_windfield filename fs) = inl e)
     ↔ int (last_chars 2 (fst (splitext filename))) = None)
  ∧ (int (last_chars 2 (fst (splitext filename))) = None →
     set_timeblocks_in_windfield filename fs = (fs, inl ValueError))
  (** the documented example *)
  ∧ (∀ prefix, filename = prefix +:+ "06.profile" →
     ∃ content',
       set_timeblocks_in_windfield filename fs = (<[filename := content']> fs, inr tt)
       ∧ readlines content' !! 2 = Some ("21600 43200" +:+ String NL EmptyString)).
Proof.
  intros Hfile Hlen.
  assert (∀ h, int (last_chars 2 (fst (splitext filename))) = Some h →
     ∃ content',
       set_timeblocks_in_windfield filename fs = (<[filename := content']> fs, inr tt)
       ∧ readlines content'
         = <[2 := timeblock_line (h * 3600) ((h + 6) * 3600)]> (readlines content))
    as Hok.
  { intros h Hh. unfold set_timeblocks_in_windfield.
    destruct (splitext filename) as [basename ext]. simpl in Hh. rewrite Hh.
    exists (join_lines (<[2 := timeblock_line (h * 3600) ((h + 6) * 3600)]>
                          (readlines content))).
    split.
    - unfold bind at 1. unfold open_readlines. rewrite Hfile.
      unfold bind at 1. unfold lift, setitem.
      apply Nat.ltb_lt in Hlen. rewrite Hlen.
      apply rewrite_file.
    - apply readlines_join, lines_ok_insert.
      + apply lines_ok_readlines.
      + apply terminated_timeblock_line. }
  split; [exact Hok|]. split; [|split].
  - split.
    + intros [e He].
      destruct (int (last_chars 2 (fst (splitext filename)))) as [h|] eqn:Hh; [|done].
      destruct (Hok h eq_refl) as (c' & Hrun & _). by rewrite Hrun in He.
    + intros Hnone. exists ValueError. unfold set_timeblocks_in_windfield.
      destruct (splitext filename) as [basename ext]. simpl in Hnone.
      by rewrite Hnone.
  - intros Hnone. unfold set_timeblocks_in_windfield.
    destruct (splitext filename) as [basename ext]. simpl in Hnone.
    by rewrite Hnone.
  - intros prefix ->.
    destruct (Hok 6%Z) as (c' & Hrun & Hread).
    { rewrite splitext_hour_profile. simpl fst. by rewrite last_chars_hour. }
    exists c'. split; [done|]. rewrite Hread.
    by apply list_lookup_insert_eq.
Qed.

Lemma set_timeblocks_from_filename_hour_witness :
  ∃ content',
    set_timeblocks_in_windfield "w/p06.profile" sample_fs
    = (<["w/p06.profile" := content']> sample_fs, inr tt)
    ∧ readlines content' !! 2%nat = Some (line "21600 43200").
Proof.
  refine (proj2 (proj2 (proj2
    (set_timeblocks_from_filename_hour "w/p06.profile" sample_fs profile_06
       _ _))) "w/p" _).
  - reflexivity.
  - vm_compute. lia.
  - reflexivity.
Defined.

(** ** The stitcher *)

Lemma write_spec f s (fs : gmap string string) c :
  fs !! f = Some c → write f s fs = (<[f := c +:+ s]> fs, inr tt).
Proof. intros Hc. unfold write. by rewrite Hc. Qed.

(** A block after the first: only the data lines of the file are used. *)
Lemma join_block_later out st f (fs : gmap string string) content c :
  f ≠ out → fs !! f = Some content → fs !! out = Some c →
  join_block out (Some st) f fs
  = if layers_match (num_layers st) (readlines content)
    then (<[out := c +:+ block_text (seconds_start st, seconds_end st)
                          (num_layers st) (drop 4 (readlines content))]> fs,
          inr (Some (next_state st)))
    else (<[out := c +:+ timeblock_line (seconds_start st) (seconds_end st)
                     +:+ count_line (num_layers st)]> fs,
          inl AssertionError).
Proof.
  intros Hne Hf Hout. unfold join_block.
  unfold bind at 1. unfold open_readlines. rewrite Hf.
  unfold bind at 1. unfold ret at 1.
  unfold bind at 1. rewrite (write_spec out _ fs c Hout).
  unfold bind at 1. rewrite (write_spec out _ _ _ (lookup_insert_eq _ _ _)).
  rewrite insert_insert_eq.
  unfold bind at 1. unfold layers_match.
  destruct (Z.of_nat (length (drop 4 (readlines content))) =? num_layers st)%Z.
  - unfold ret at 1. unfold bind at 1.
    rewrite (for_each_write out _ _ _ (lookup_insert_eq _ _ _)).
    rewrite insert_insert_eq. unfold ret, block_text, next_state. simpl.
    by rewrite !app_assoc_s.
  - unfold raise. by rewrite !app_assoc_s.
Qed.

Lemma block_range_shift first k :
  block_range first (S k) = block_range (snd first, snd first + 21600)%Z k.
Proof.
  induction k as [|k IH]; [done|].
  change (block_range first (S (S k)))
    with (snd (block_range first (S k)), snd (block_range first (S k)) + 21600)%Z.
  by rewrite IH.
Qed.

Lemma data_lines_insert_ne out c (fs : gmap string string) f :
  f ≠ out → data_lines (<[out := c]> fs) f = data_lines fs f.
Proof. intros Hne. unfold data_lines. by rewrite lookup_insert_ne. Qed.

Lemma join_loop_later_ok out st files (fs : gmap string string) c :
  out ∉ files → fs !! out = Some c →
  Forall (readable_with fs (num_layers st)) files →
  join_loop out (Some st) files fs
  = (<[out := c +:+ join_lines
                 (imap (λ k file,
                          block_text (block_range (seconds_start st, seconds_end st) k)
                                     (num_layers st) (data_lines fs file)) files)]> fs,
     inr (Some (Nat.iter (length files) next_state st))).
Proof.
  revert st fs c. induction files as [|f files IH]; intros st fs c Hout Hc Hall.
  - simpl. unfold ret, join_lines. simpl. by rewrite app_nil_r_s, insert_id.
  - apply not_elem_of_cons in Hout as [Hne Hout].
    apply Forall_cons in Hall as [(content & Hf & Hm) Hall].
    simpl join_loop. unfold bind at 1.
    rewrite (join_block_later out st f fs content c) by done.
    rewrite Hm.
    erewrite (IH (next_state st)); [| done | apply lookup_insert_eq |].
    + rewrite insert_insert_eq. f_equal.
      * f_equal. rewrite app_assoc_s. f_equal.
        rewrite imap_cons, join_lines_cons. f_equal.
        { unfold data_lines. by rewrite Hf. }
        f_equal. apply imap_ext. intros k file Hk. simpl.
        rewrite data_lines_insert_ne.
        2:{ intros ->. apply Hout. by eapply list_elem_of_lookup_2. }
        f_equal. symmetry.
        exact (block_range_shift (seconds_start st, seconds_end st) k).
      * simpl length. by rewrite Nat.iter_succ_r.
    + apply Forall_forall. intros file Hin.
      rewrite Forall_forall in Hall. destruct (Hall file Hin) as (content' & Hf' & Hm').
      exists content'. split; [|done].
      rewrite lookup_insert_ne; [done|]. intros ->. done.
Qed.

Lemma join_loop_later_fail out st files (fs : gmap string string) c :
  out ∉ files → fs !! out = Some c →
  Forall (λ f, is_Some (fs !! f)) files →
  Exists (λ f, ∃ content, fs !! f = Some content
                 ∧ layers_match (num_layers st) (readlines content) = false) files →
  snd (join_loop out (Some st) files fs) = inl AssertionError.
Proof.
  revert st fs c. induction files as [|f files IH]; intros st fs c Hout Hc Hall Hex.
  - by apply Exists_nil in Hex.
  - apply not_elem_of_cons in Hout as [Hne Hout].
    apply Forall_cons in Hall as [[content Hf] Hall].
    simpl join_loop. unfold bind at 1.
    rewrite (join_block_later out st f fs content c) by done.
    destruct (layers_match (num_layers st) (readlines content)) eqn:Hm; [|done].
    apply Exists_cons in Hex as [(content' & Hf' & Hm')|Hex]; [congruence|].
    eapply (IH (next_state st)); [done|apply lookup_insert_eq| |].
    + apply Forall_forall. intros file Hin. rewrite Forall_forall in Hall.
      rewrite lookup_insert_ne; [by apply Hall|]. by intros ->.
    + apply Exists_exists. apply Exists_exists in Hex as (file & Hin & content' & Hf' & Hm').
      exists file. split; [done|]. exists content'. split; [|done].
      rewrite lookup_insert_ne; [done|]. by intros ->.
Qed.

(** The first block: the header of the first file is read and its vent
    location and date are written before the block. *)
Lemma join_block_first out f (fs : gmap string string) content c
    vent_loc date l2 l3 range n :
  f ≠ out → fs !! f = Some content → fs !! out = Some c →
  readlines content !! 0%nat = Some vent_loc →
  readlines content !! 1%nat = Some date →
  readlines content !! 2%nat = Some l2 →
  parse_time_range l2 = inr range →
  readlines content !! 3%nat = Some l3 →
  int l3 = Some n →
  join_block out None f fs
  = if layers_match n (readlines content)
    then (<[out := c +:+ vent_loc +:+ date
                     +:+ block_text range n (drop 4 (readlines content))]> fs,
          inr (Some (next_state {| seconds_start := fst range;
                                   seconds_end := snd range;
                                   num_layers := n |})))
    else (<[out := c +:+ vent_loc +:+ date
                     +:+ timeblock_line (fst range) (snd range)
                     +:+ count_line n]> fs,
          inl AssertionError).
Proof.
  intros Hne Hf Hout H0 H1 H2 Hrange H3 Hn. unfold join_block.
  unfold bind at 1. unfold open_readlines. rewrite Hf.
  unfold bind at 1.
  unfold bind at 1. unfold lift at 1. unfold getitem at 1. rewrite H0.
  unfold bind at 1. unfold lift at 1. unfold getitem at 1. rewrite H1.
  unfold bind at 1. unfold lift at 1. unfold getitem at 1. rewrite H2.
  unfold bind at 1. unfold lift at 1. rewrite Hrange.
  unfold bind at 1. unfold lift at 1. unfold getitem at 1. rewrite H3.
  unfold bind at 1. unfold lift at 1. unfold parse_int. rewrite Hn.
  unfold bind at 1. rewrite (write_spec out _ fs c Hout).
  unfold bind at 1. rewrite (write_spec out _ _ _ (lookup_insert_eq _ _ _)).
  rewrite insert_insert_eq. unfold ret at 1.
  unfold bind at 1. rewrite (write_spec out _ _ _ (lookup_insert_eq _ _ _)).
  rewrite insert_insert_eq. cbn [seconds_start seconds_end num_layers].
  unfold bind at 1. rewrite (write_spec out _ _ _ (lookup_insert_eq _ _ _)).
  rewrite insert_insert_eq.
  unfold bind at 1. unfold layers_match.
  destruct (Z.of_nat (length (drop 4 (readlines content))) =? n)%Z.
  - unfold ret at 1. unfold bind at 1.
    rewrite (for_each_write out _ _ _ (lookup_insert_eq _ _ _)).
    rewrite insert_insert_eq. unfold ret, block_text, next_state. simpl.
    by rewrite !app_assoc_s.
  - unfold raise. by rewrite !app_assoc_s.
Qed.

Lemma well_layered_readable fs n file :
  well_layered fs n file → readable_with fs n file.
Proof.
  intros [[content Hf] Hlen]. exists content. split; [done|].
  unfold layers_match. unfold data_lines in Hlen. rewrite Hf in Hlen.
  simpl in Hlen. by apply Z.eqb_eq.
Qed.

Lemma well_layered_insert_ne out c (fs : gmap string string) n file :
  file ≠ out → well_layered fs n file → well_layered (<[out := c]> fs) n file.
Proof.
  intros Hne [Hf Hlen]. split.
  - by rewrite lookup_insert_ne.
  - by rewrite data_lines_insert_ne.
Qed.

Lemma first_lines_exist {A} (l : list A) x :
  l !! 3%nat = Some x → ∃ a b, l !! 0%nat = Some a ∧ l !! 1%nat = Some b.
Proof. destruct l as [|a [|b l]]; [done|done|]. eauto. Qed.

Lemma join_sorted_windprofiles_ok
    (outfilename : string) (fs : gmap string string)
    (first_file : string) (others : list string) (content : string)
    (vent_loc date l2 l3 : string) (first_range : Z * Z) (n : Z) :
  outfilename ∉ first_file :: others →
  fs !! first_file = Some content →
  readlines content !! 0%nat = Some vent_loc →
  readlines content !! 1%nat = Some date →
  readlines content !! 2%nat = Some l2 →
  parse_time_range l2 = inr first_range →
  readlines content !! 3%nat = Some l3 →
  int l3 = Some n →
  Forall (well_layered fs n) (first_file :: others) →
  join_sorted_windprofiles (first_file :: others) outfilename fs
  = (<[outfilename := stitched fs vent_loc date first_range n (first_file :: others)]> fs,
     inr tt).
Proof.
  intros Hout Hf H0 H1 H2 Hrange H3 Hn Hall.
  apply not_elem_of_cons in Hout as [Hne Hout].
  apply Forall_cons in Hall as [Hfirst Hall].
  unfold join_sorted_windprofiles. unfold bind at 1. unfold open_w.
  unfold bind at 1. simpl join_loop. unfold bind at 1.
  rewrite (join_block_first outfilename first_file _ content EmptyString
             vent_loc date l2 l3 first_range n);
    [| done | by rewrite lookup_insert_ne | apply lookup_insert_eq | done..].
  destruct (well_layered_readable _ _ _ Hfirst) as (content' & Hf' & Hm).
  assert (content' = content) as -> by congruence. rewrite Hm.
  rewrite insert_insert_eq.
  erewrite join_loop_later_ok; [| done | apply lookup_insert_eq |].
  - rewrite insert_insert_eq. unfold ret. f_equal. f_equal.
    unfold stitched. rewrite app_nil_s, !app_assoc_s. do 2 f_equal.
    rewrite imap_cons, join_lines_cons. f_equal.
    { unfold data_lines. by rewrite Hf. }
    f_equal. apply imap_ext. intros k file Hk.
    cbn [seconds_start seconds_end num_layers next_state].
    rewrite data_lines_insert_ne.
    2:{ intros ->. apply Hout. by eapply list_elem_of_lookup_2. }
    unfold compose. by rewrite (block_range_shift first_range k).
  - apply Forall_forall. intros file Hin. rewrite Forall_forall in Hall.
    apply well_layered_readable.
    cbn [seconds_start seconds_end num_layers next_state].
    apply well_layered_insert_ne; [by intros ->|]. by apply Hall.
Qed.

Lemma stitched_ext (fs fs' : gmap string string) vent_loc date first n files :
  (∀ f, f ∈ files → data_lines fs' f = data_lines fs f) →
  stitched fs' vent_loc date first n files = stitched fs vent_loc date first n files.
Proof.
  intros Hext. unfold stitched. do 3 f_equal.
  apply imap_ext. intros k file Hk. simpl. f_equal.
  apply Hext. by eapply list_elem_of_lookup_2.
Qed.




Lemma layers_match_false (fs : gmap string string) n f content :
  fs !! f = Some content →
  Z.of_nat (length (data_lines fs f)) ≠ n →
  layers_match n (readlines content) = false.
Proof.
  intros Hf Hlen. unfold layers_match. apply Z.eqb_neq.
  unfold data_lines in Hlen. by rewrite Hf in Hlen.
Qed.

Lemma join_sorted_windprofiles_fail
    (outfilename : string) (fs : gmap string string)
    (first_file : string) (others : list string) (content : string)
    (l2 l3 : string) (first_range : Z * Z) (n : Z) :
  outfilename ∉ first_file :: others →
  fs !! first_file = Some content →
  readlines content !! 2%nat = Some l2 →
  parse_time_range l2 = inr first_range →
  readlines content !! 3%nat = Some l3 →
  int l3 = Some n →
  Forall (λ f, is_Some (fs !! f)) (first_file :: others) →
  Exists (λ f, Z.of_nat (length (data_lines fs f)) ≠ n) (first_file :: others) →
  snd (join_sorted_windprofiles (first_file :: others) outfilename fs)
  = inl AssertionError.
Proof.
  intros Hout Hf H2 Hrange H3 Hn Hall Hex.
  destruct (first_lines_exist _ _ H3) as (vent_loc & date & H0 & H1).
  apply not_elem_of_cons in Hout as [Hne Hout].
  apply Forall_cons in Hall as [_ Hall].
  unfold join_sorted_windprofiles. unfold bind at 1. unfold open_w.
  unfold bind at 1. simpl join_loop. unfold bind at 1.
  rewrite (join_block_first outfilename first_file _ content EmptyString
             vent_loc date l2 l3 first_range n);
    [| done | by rewrite lookup_insert_ne | apply lookup_insert_eq | done..].
  destruct (layers_match n (readlines content)) eqn:Hm; [|done].
  apply Exists_cons in Hex as [Hfirst|Hex].
  { by rewrite (layers_match_false fs n first_file content) in Hm. }
  rewrite insert_insert_eq.
  match goal with
  | |- context [join_loop ?o (Some ?st) ?l ?fs1] =>
      pose proof (join_loop_later_fail o st l fs1 _ Hout (lookup_insert_eq _ _ _)) as Hfail;
      destruct (join_loop o (Some st) l fs1) as [fs2 r]
  end.
  simpl in Hfail. rewrite Hfail; [done| |].
  - apply Forall_forall. intros file Hin. rewrite Forall_forall in Hall.
    rewrite lookup_insert_ne; [by apply Hall|]. by intros ->.
  - apply Exists_exists. apply Exists_exists in Hex as (file & Hin & Hlen).
    exists file. split; [done|]. rewrite Forall_forall in Hall.
    destruct (Hall file Hin) as [content' Hf'].
    exists content'. split.
    + rewrite lookup_insert_ne; [done|]. by intros ->.
    + by apply (layers_match_false fs _ file).
Qed.

(** C5, as stated, fails: the second file declares three layers on its
    own line 4 and has two data lines, yet stitching it after a file with
    two layers raises nothing. *)
Lemma join_own_layer_count_not_checked :
  ¬ (declared_layer_count sample_fs "w/p06.profile"
       ≠ Some (Z.of_nat (length (data_lines sample_fs "w/p06.profile"))) →
     ∃ e, snd (join_sorted_windprofiles ["w/p00.profile"; "w/p06.profile"]
                 "w/joined.profile" sample_fs) = inl e).
Proof.
  intros Hclaim. destruct Hclaim as [e He].
  - vm_compute. discriminate.
  - vm_compute in He. discriminate He.
Qed.

(** C5, amended: the layer count declared by the FIRST file is the one
    every file is checked against.  With readable files and a first header
    that parses, the stitcher raises [AssertionError] exactly when some
    file (first or later) has a number of data lines different from that
    count, and completes exactly when every file has that many; the first
    file's own declaration is thereby checked against its own data. *)
Theorem join_layer_count_checked_against_first_file
    (wind_data_files : list string) (outfilename : string)
    (fs : gmap string string)
    (first_file : string) (others : list string) (content l2 l3 : string)
    (first_range : Z * Z) (n : Z) :
  wind_data_files = first_file :: others →
  outfilename ∉ wind_data_files →
  fs !! first_file = Some content →
  readlines content !! 2%nat = Some l2 →
  parse_time_range l2 = inr first_range →
  readlines content !! 3%nat = Some l3 →
  int l3 = Some n →
  Forall (λ f, is_Some (fs !! f)) wind_data_files →
  declared_layer_count fs first_file = Some n
  ∧ (snd (join_sorted_windprofiles wind_data_files outfilename fs) = inl AssertionError
     ↔ Exists (λ f, Z.of_nat (length (data_lines fs f)) ≠ n) wind_data_files)
  ∧ (snd (join_sorted_windprofiles wind_data_files outfilename fs) = inr tt
     ↔ Forall (λ f, Z.of_nat (length (data_lines fs f)) = n) wind_data_files).
Proof.
  intros -> Hout Hf H2 Hrange H3 Hn Hall.
  destruct (first_lines_exist _ _ H3) as (vent_loc & date & H0 & H1).
  assert (Forall (λ f, Z.of_nat (length (data_lines fs f)) = n) (first_file :: others) →
          snd (join_sorted_windprofiles (first_file :: others) outfilename fs) = inr tt)
    as Hok.
  { intros Hlen.
    rewrite (join_sorted_windprofiles_ok outfilename fs first_file others content
               vent_loc date l2 l3 first_range n); try done.
    apply Forall_forall. intros f Hin. rewrite Forall_forall in Hall, Hlen.
    split; [by apply Hall|by apply Hlen]. }
  pose proof (join_sorted_windprofiles_fail outfilename fs first_file others content
                l2 l3 first_range n Hout Hf H2 Hrange H3 Hn Hall) as Hfail.
  assert (Forall (λ f, Z.of_nat (length (data_lines fs f)) = n) (first_file :: others)
          ∨ Exists (λ f, Z.of_nat (length (data_lines fs f)) ≠ n) (first_file :: others))
    as Hdec.
  { destruct (Forall_Exists_dec (λ f, Z.of_nat (length (data_lines fs f)) = n)
                (λ f, Z.of_nat (length (data_lines fs f)) ≠ n)
                (λ f, Z.eq_dec (Z.of_nat (length (data_lines fs f))) n)
                (first_file :: others)); auto. }
  split; [|split].
  - unfold declared_layer_count. rewrite Hf. simpl default. rewrite H3. exact Hn.
  - split; [|exact Hfail].
    intros Hres. destruct Hdec as [Hlen|Hex]; [|done].
    rewrite (Hok Hlen) in Hres. discriminate Hres.
  - split; [|exact Hok].
    intros Hres. destruct Hdec as [Hlen|Hex]; [done|].
    rewrite (Hfail Hex) in Hres. discriminate Hres.
Qed.

Lemma join_layer_count_checked_against_first_file_witness :
  snd (join_sorted_windprofiles ["w/p00.profile"; "w/p12.profile"]
         "w/joined.profile" sample_fs) = inl AssertionError.
Proof.
  apply (join_layer_count_checked_against_first_file
           ["w/p00.profile"; "w/p12.profile"] "w/joined.profile" sample_fs
           "w/p00.profile" ["w/p12.profile"] profile_00
           (line "0 21600") (line "2") (0, 21600)%Z 2%Z).
  - reflexivity.
  - intros Hin. repeat (apply elem_of_cons in Hin as [Hin|Hin]; [discriminate Hin|]).
    by apply elem_of_nil in Hin.
  - reflexivity.
  - reflexivity.
  - reflexivity.
  - reflexivity.
  - reflexivity.
  - repeat constructor; eexists; reflexivity.
  - apply Exists_cons_tl, Exists_cons_hd. vm_compute. discriminate.
Defined.

(** ** The sweep expander *)

(** *** Counting over a dictionary *)

Lemma tuple_count_delete (d : gmap string value) k v :
  d !! k = Some v → tuple_count d = (tuple_bit v + tuple_count (delete k d))%nat.
Proof.
  intros Hk. unfold tuple_count.
  rewrite (map_fold_delete_L _ _ k v d); [done| |done].
  intros. unfold tuple_bit. lia.
Qed.

Lemma expected_runs_delete (d : gmap string value) k v :
  d !! k = Some v → expected_runs d = (sweep_size v * expected_runs (delete k d))%nat.
Proof.
  intros Hk. unfold expected_runs.
  rewrite (map_fold_delete_L _ _ k v d); [done| |done].
  intros. lia.
Qed.

Lemma tuple_count_insert (d : gmap string value) k v :
  tuple_count (<[k:=v]> d) = (tuple_bit v + tuple_count (delete k d))%nat.
Proof.
  rewrite (tuple_count_delete (<[k:=v]> d) k v) by apply lookup_insert_eq.
  by rewrite delete_insert_eq.
Qed.

Lemma expected_runs_insert (d : gmap string value) k v :
  expected_runs (<[k:=v]> d) = (sweep_size v * expected_runs (delete k d))%nat.
Proof.
  rewrite (expected_runs_delete (<[k:=v]> d) k v) by apply lookup_insert_eq.
  by rewrite delete_insert_eq.
Qed.

Lemma tuple_count_zero (d : gmap string value) k v :
  tuple_count d = 0%nat → d !! k = Some v → is_tuple v = false.
Proof.
  intros Hz Hk. rewrite (tuple_count_delete d k v Hk) in Hz.
  unfold tuple_bit in Hz. destruct (is_tuple v); [lia|done].
Qed.

Lemma no_tuple_counts (d : gmap string value) :
  (∀ k v, d !! k = Some v → is_tuple v = false) →
  tuple_count d = 0%nat ∧ expected_runs d = 1%nat.
Proof.
  induction d as [|k v d Hk _ IH] using map_first_key_ind.
  - intros _. split; reflexivity.
  - intros Hall.
    assert (is_tuple v = false) as Hv by (apply (Hall k); apply lookup_insert_eq).
    destruct IH as [IHt IHe].
    { intros k' v' Hk'. apply (Hall k'). rewrite lookup_insert_ne; [done|].
      intros ->. congruence. }
    rewrite tuple_count_insert, expected_runs_insert.
    rewrite delete_id by done. rewrite IHt, IHe.
    unfold tuple_bit. rewrite Hv. destruct v; [done|done|discriminate].
Qed.

(** *** The default scenario name *)

Lemma with_scenario_name_cases (d : gmap string value) :
  (is_Some (d !! "scenario_name") ∧ with_scenario_name d = d)
  ∨ (d !! "scenario_name" = None
     ∧ with_scenario_name d = <["scenario_name" := VStr DEFAULT_SCENARIO_NAME]> d).
Proof.
  unfold with_scenario_name. destruct (d !! "scenario_name") eqn:Hd; [left|right]; eauto.
Qed.

Lemma with_scenario_name_lookup_ne (d : gmap string value) k :
  k ≠ "scenario_name" → with_scenario_name d !! k = d !! k.
Proof.
  intros Hk. destruct (with_scenario_name_cases d) as [[_ ->]|[_ ->]]; [done|].
  by rewrite lookup_insert_ne.
Qed.

Lemma with_scenario_name_counts (d : gmap string value) :
  tuple_count (with_scenario_name d) = tuple_count d
  ∧ expected_runs (with_scenario_name d) = expected_runs d.
Proof.
  destruct (with_scenario_name_cases d) as [[_ ->]|[Hd ->]]; [done|].
  rewrite tuple_count_insert, expected_runs_insert, delete_id by done.
  simpl. split; lia.
Qed.

Lemma with_scenario_name_flat (d : gmap string value) :
  flat d → flat (with_scenario_name d).
Proof.
  intros Hd. destruct (with_scenario_name_cases d) as [[_ ->]|[_ ->]]; [done|].
  apply map_Forall_insert_2; done.
Qed.

Lemma with_scenario_name_scalars (d : gmap string value) :
  (∀ k v, d !! k = Some v → is_tuple v = false) →
  ∀ k v, with_scenario_name d !! k = Some v → is_tuple v = false.
Proof.
  intros Hd k v. destruct (with_scenario_name_cases d) as [[_ ->]|[_ ->]]; [apply Hd|].
  destruct (decide (k = "scenario_name")) as [->|Hne].
  - rewrite lookup_insert_eq. by intros [= <-].
  - rewrite lookup_insert_ne by done. apply Hd.
Qed.

(** Pinning the swept parameter again forgets the previous pinning: the
    dictionary that is updated in place along the loop always yields the
    mapping obtained from the original one. *)
Lemma with_scenario_name_insert (d : gmap string value) name v v' :
  with_scenario_name (<[name:=v']> (with_scenario_name (<[name:=v]> d)))
  = with_scenario_name (<[name:=v']> d).
Proof.
  destruct (with_scenario_name_cases (<[name:=v]> d)) as [[Hs ->]|[Hn ->]].
  - by rewrite insert_insert_eq.
  - assert (name ≠ "scenario_name") as Hne.
    { intros ->. by rewrite lookup_insert_eq in Hn. }
    rewrite lookup_insert_ne in Hn by done.
    rewrite insert_insert_ne by done. rewrite insert_insert_eq.
    unfold with_scenario_name at 1. rewrite lookup_insert_eq.
    unfold with_scenario_name. rewrite lookup_insert_ne by done.
    by rewrite Hn.
Qed.

(** *** Pinning a swept parameter *)

Lemma pinned_counts (isdir : string → bool) (d : gmap string value) name p v :
  d !! name = Some (VTuple p) → is_tuple v = false →
  flat d → single_wind_profile isdir d →
  S (tuple_count (pinned d name v)) = tuple_count d
  ∧ expected_runs (pinned d name v) = expected_runs (delete name d)
  ∧ flat (pinned d name v)
  ∧ single_wind_profile isdir (pinned d name v).
Proof.
  intros Hname Hv Hflat (w & Hw & Hdir). unfold pinned.
  destruct (with_scenario_name_counts (<[name:=v]> d)) as [-> ->].
  rewrite tuple_count_insert, expected_runs_insert.
  rewrite (tuple_count_delete d name _ Hname).
  unfold tuple_bit. rewrite Hv. simpl.
  split; [done|]. split.
  { destruct v; [simpl; lia|simpl; lia|discriminate]. }
  split.
  - apply with_scenario_name_flat, map_Forall_insert_2; [|done].
    destruct v; [done|done|discriminate].
  - exists w. split; [|done].
    rewrite with_scenario_name_lookup_ne by done.
    rewrite lookup_insert_ne; [done|]. intros ->. congruence.
Qed.

Lemma Forall_exists_Forall2 {A B} (Q : A → B → Prop) (l : list A) :
  Forall (λ x, ∃ y, Q x y) l → ∃ k, Forall2 Q l k.
Proof.
  induction 1 as [|x l [y Hy] _ [k Hk]].
  - exists []. constructor.
  - exists (y :: k). by constructor.
Qed.

Lemma length_concat_const {A} (rs : list (list A)) n :
  Forall (λ r, length r = n) rs → length (concat rs) = (length rs * n)%nat.
Proof.
  induction 1 as [|r rs Hr _ IH]; [done|].
  simpl. rewrite length_app, IH, Hr. lia.
Qed.

Section ExpanderProofs.

Variable tuple_str : list value → string.
Variable keys_order : gmap string value → list string.
Variable isdir : string → bool.

Hypothesis keys_order_spec :
  ∀ (d : gmap string value) k, k ∈ keys_order d ↔ is_Some (d !! k).

Lemma first_tuple_Some (d : gmap string value) names name p :
  first_tuple d names = Some (name, p) → d !! name = Some (VTuple p).
Proof.
  induction names as [|k names IH]; [done|]. simpl.
  destruct (d !! k) as [[s|z|items]|] eqn:Hk; try exact IH.
  by intros [= <- <-].
Qed.

Lemma first_tuple_None (d : gmap string value) names :
  first_tuple d names = None →
  ∀ k v, k ∈ names → d !! k = Some v → is_tuple v = false.
Proof.
  induction names as [|k0 names IH]; intros Hnone k v Hin Hk.
  - by apply elem_of_nil in Hin.
  - simpl in Hnone. apply elem_of_cons in Hin as [->|Hin].
    + rewrite Hk in Hnone. by destruct v.
    + destruct (d !! k0) as [[s|z|items]|]; try discriminate; by eapply IH.
Qed.

Lemma first_tuple_no_tuple (d : gmap string value) :
  first_tuple d (keys_order d) = None →
  ∀ k v, d !! k = Some v → is_tuple v = false.
Proof.
  intros Hnone k v Hk. eapply first_tuple_None; [done| |done].
  apply keys_order_spec. eauto.
Qed.

Lemma first_tuple_of_zero (d : gmap string value) :
  tuple_count d = 0%nat → first_tuple d (keys_order d) = None.
Proof.
  intros Hz. destruct (first_tuple d (keys_order d)) as [[name p]|] eqn:Hf; [|done].
  apply first_tuple_Some in Hf.
  by pose proof (tuple_count_zero d name _ Hz Hf).
Qed.

Lemma run_scenario_single rec (d : gmap string value) c :
  single_wind_profile isdir (with_scenario_name d) →
  run_scenario isdir rec d (Some c)
  = (with_scenario_name d, rec (with_scenario_name d) (Some c)).
Proof.
  intros (w & Hw & Hdir). unfold run_scenario, get_scenario_parameters.
  simpl. by rewrite Hw, Hdir.
Qed.

Lemma sweep_runs rec (d : gmap string value) name c :
  single_wind_profile isdir d → name ≠ "wind_profile" →
  ∀ p rs pu,
    (∀ v, with_scenario_name (<[name:=v]> pu) = pinned d name v) →
    Forall2 (λ v runs, rec (pinned d name v) (Some (suffixed tuple_str c name v))
                       = Some (runs, inr tt)) p rs →
    sweep tuple_str isdir rec name (VStr c) p pu = Some (concat rs, inr tt).
Proof.
  intros (w & Hw & Hdir) Hname p rs pu Hpu Hall. revert pu Hpu.
  induction Hall as [|v runs p rs Hv _ IH]; intros pu Hpu; [done|].
  simpl sweep.
  rewrite run_scenario_single.
  2:{ rewrite Hpu. exists w. split; [|done]. unfold pinned.
      rewrite with_scenario_name_lookup_ne by done.
      by rewrite lookup_insert_ne. }
  rewrite Hpu. fold (suffixed tuple_str c name v). rewrite Hv.
  rewrite IH; [done|].
  intros v'. unfold pinned. apply with_scenario_name_insert.
Qed.

Lemma run_scenario_flat fuel :
  ∀ (d : gmap string value) c,
    (tuple_count d < fuel)%nat → flat d → single_wind_profile isdir d →
    ∃ runs,
      _run_scenario tuple_str keys_order isdir fuel d (Some (VStr c))
      = Some (runs, inr tt)
      ∧ length runs = expected_runs d
      ∧ Forall scalar_run runs.
Proof.
  induction fuel as [|fuel IH]; intros d c Hfuel Hflat Hwind; [lia|].
  simpl. unfold get_scenario_parameters.
  destruct (first_tuple d (keys_order d)) as [[name p]|] eqn:Hfirst.
  - pose proof (first_tuple_Some _ _ _ _ Hfirst) as Hname.
    assert (name ≠ "wind_profile") as Hne.
    { intros ->. destruct Hwind as (w & Hw & _). congruence. }
    assert (Forall (λ v, is_tuple v = false) p) as Hscalars
      by exact (Hflat name _ Hname).
    assert (Forall (λ v, ∃ runs,
              _run_scenario tuple_str keys_order isdir fuel (pinned d name v)
                (Some (suffixed tuple_str c name v)) = Some (runs, inr tt)
              ∧ length runs = expected_runs (delete name d)
              ∧ Forall scalar_run runs) p) as Hruns.
    { eapply Forall_impl; [exact Hscalars|]. intros v Hv. simpl.
      destruct (pinned_counts isdir d name p v Hname Hv Hflat Hwind)
        as (Ht & He & Hf & Hw).
      rewrite <- He. apply IH; [lia|done|done]. }
    apply Forall_exists_Forall2 in Hruns as [rs Hrs].
    exists (concat rs). split; [|split].
    + apply (sweep_runs _ d name c Hwind Hne p rs d); [done|].
      eapply Forall2_impl; [exact Hrs|]. by intros v runs (? & _).
    + rewrite (expected_runs_delete d name _ Hname). simpl sweep_size.
      rewrite (Forall2_length _ _ _ Hrs).
      apply length_concat_const.
      clear -Hrs. induction Hrs as [|v runs q rs (_ & Hlen & _) Hrs IHrs];
        constructor; done.
    + apply Forall_concat.
      clear -Hrs. induction Hrs as [|v runs q rs (_ & _ & Hsc) Hrs IHrs];
        constructor; done.
  - exists [Fall3d d (VStr c)].
    pose proof (first_tuple_no_tuple d Hfirst) as Hnone.
    destruct (no_tuple_counts d Hnone) as [_ He].
    split; [done|]. split; [by rewrite He|].
    constructor; [exact Hnone|constructor].
Qed.

(** *** More fuel does not change a result *)

Lemma run_scenario_mono
    (rec rec' : gmap string value → option value → option outcome) :
  (∀ d c r, rec d c = Some r → rec' d c = Some r) →
  ∀ d c d' r,
    run_scenario isdir rec d c = (d', Some r) →
    run_scenario isdir rec' d c = (d', Some r).
Proof.
  intros Hrec d c d' r. unfold run_scenario.
  destruct (resolve_comment _ c) as [e|c']; [done|].
  destruct (get_scenario_parameters (with_scenario_name d) !! "wind_profile")
    as [[w|z|items]|]; try done.
  destruct (isdir w); [done|].
  intros [= <- Hr]. by rewrite (Hrec _ _ _ Hr).
Qed.

Lemma sweep_mono
    (rec rec' : gmap string value → option value → option outcome) :
  (∀ d c r, rec d c = Some r → rec' d c = Some r) →
  ∀ p name dircomment pu r,
    sweep tuple_str isdir rec name dircomment p pu = Some r →
    sweep tuple_str isdir rec' name dircomment p pu = Some r.
Proof.
  intros Hrec p name dircomment. induction p as [|v p IH]; intros pu r; [done|].
  simpl. destruct (add_suffix tuple_str dircomment name v) as [e|comment]; [done|].
  destruct (run_scenario isdir rec (<[name:=v]> pu) (Some comment))
    as [pu' [[runs [e|[]]]|]] eqn:Hrun; [| |done].
  - rewrite (run_scenario_mono rec rec' Hrec _ _ _ _ Hrun). done.
  - rewrite (run_scenario_mono rec rec' Hrec _ _ _ _ Hrun).
    destruct (sweep tuple_str isdir rec name dircomment p pu')
      as [[runs' r']|] eqn:Hsweep; [|done].
    by rewrite (IH _ _ Hsweep).
Qed.

Lemma _run_scenario_mono fuel :
  ∀ fuel' d c r,
    (fuel ≤ fuel')%nat →
    _run_scenario tuple_str keys_order isdir fuel d c = Some r →
    _run_scenario tuple_str keys_order isdir fuel' d c = Some r.
Proof.
  induction fuel as [|fuel IH]; intros fuel' d c r Hle; [done|].
  destruct fuel' as [|fuel']; [lia|].
  simpl. destruct (resolve_comment (get_scenario_parameters d) c) as [e|c']; [done|].
  destruct (first_tuple _ _) as [[name p]|]; [|done].
  apply sweep_mono. intros d' c'' r'. apply IH. lia.
Qed.

Lemma run_scenario_no_tuple (d : gmap string value) fuel comment :
  tuple_count d = 0%nat →
  _run_scenario tuple_str keys_order isdir (S fuel) d (Some comment)
  = Some ([Fall3d d comment], inr tt).
Proof.
  intros Hz. simpl. unfold get_scenario_parameters.
  by rewrite (first_tuple_of_zero d Hz).
Qed.

Lemma first_tuple_unique (d : gmap string value) name p :
  d !! name = Some (VTuple p) → tuple_count d = 1%nat →
  first_tuple d (keys_order d) = Some (name, p).
Proof.
  intros Hname Hone.
  destruct (first_tuple d (keys_order d)) as [[name' p']|] eqn:Hfirst.
  - apply first_tuple_Some in Hfirst.
    destruct (decide (name' = name)) as [->|Hne]; [congruence|].
    rewrite (tuple_count_delete d name _ Hname) in Hone.
    assert (delete name d !! name' = Some (VTuple p')) as Hdel
      by (by rewrite lookup_delete_ne).
    rewrite (tuple_count_delete _ name' _ Hdel) in Hone.
    simpl in Hone. lia.
  - by pose proof (first_tuple_no_tuple d Hfirst name _ Hname).
Qed.

Lemma run_scenario_single_sweep (d : gmap string value) name p c :
  d !! name = Some (VTuple p) → tuple_count d = 1%nat →
  flat d → single_wind_profile isdir d →
  _run_scenario tuple_str keys_order isdir 2 d (Some (VStr c))
  = Some ((λ v, Fall3d (pinned d name v) (suffixed tuple_str c name v)) <$> p, inr tt).
Proof.
  intros Hname Hone Hflat Hwind.
  assert (name ≠ "wind_profile") as Hne.
  { intros ->. destruct Hwind as (w & Hw & _). congruence. }
  change (_run_scenario tuple_str keys_order isdir 2 d (Some (VStr c)))
    with (match first_tuple d (keys_order d) with
          | Some (name, p) =>
              sweep tuple_str isdir (_run_scenario tuple_str keys_order isdir 1)
                name (VStr c) p d
          | None => Some ([Fall3d d (VStr c)], inr tt)
          end).
  rewrite (first_tuple_unique d name p Hname Hone).
  rewrite (sweep_runs _ d name c Hwind Hne p
             ((λ v, [Fall3d (pinned d name v) (suffixed tuple_str c name v)]) <$> p) d).
  - f_equal. f_equal. clear. induction p as [|v p IH]; [done|].
    csimpl. by f_equal.
  - done.
  - assert (Forall (λ v, is_tuple v = false) p) as Hscalars
      by exact (Hflat name _ Hname).
    apply Forall2_fmap_r, Forall_Forall2_diag.
    eapply Forall_impl; [exact Hscalars|]. intros v Hv.
    apply (run_scenario_no_tuple (pinned d name v) 0 (suffixed tuple_str c name v)).
    destruct (pinned_counts isdir d name p v Hname Hv Hflat Hwind) as (Ht & _).
    lia.
Qed.

Global Instance suffixed_inj c name :
  Inj (=) (=) (λ s, VStr (c +:+ "_" +:+ name +:+ "_" +:+ s)).
Proof.
  intros s1 s2 [= Heq].
  by repeat apply String.app_inj in Heq.
Qed.

(** C6, amended: a scenario without tuple-valued parameters yields
    exactly one run, with the mapping it was given.  For a scenario whose
    sweeps are tuples of scalars and which names a single wind-profile
    file, the expansion completes and the number of runs is the product of
    the lengths of the tuple-valued parameters, each run having scalar
    parameters only.  With one tuple-valued parameter [name] of length [n]
    there are [n] runs; the i-th has [name] pinned to the i-th value and
    the comment extended by [_<name>_<value>]; these comments are pairwise
    distinct exactly when the texts of the values are. *)
Theorem run_scenario_sweep_runs (params : gmap string value) (c : string) :
  (tuple_count params = 0%nat →
   ∀ fuel comment,
     _run_scenario tuple_str keys_order isdir (S fuel) params (Some comment)
     = Some ([Fall3d params comment], inr tt))
  ∧ (flat params → single_wind_profile isdir params →
     ∃ runs,
       (∀ fuel, (tuple_count params < fuel)%nat →
          _run_scenario tuple_str keys_order isdir fuel params (Some (VStr c))
          = Some (runs, inr tt))
       ∧ length runs = expected_runs params
       ∧ Forall scalar_run runs
       ∧ ∀ name p,
           params !! name = Some (VTuple p) → tuple_count params = 1%nat →
           length runs = length p
           ∧ runs = (λ v, Fall3d (pinned params name v)
                            (VStr (c +:+ "_" +:+ name +:+ "_" +:+ py_str tuple_str v)))
                    <$> p
           ∧ (NoDup (run_comment <$> runs) ↔ NoDup (py_str tuple_str <$> p))).
Proof.
  split.
  - intros Hz fuel comment. by apply run_scenario_no_tuple.
  - intros Hflat Hwind.
    destruct (run_scenario_flat (S (tuple_count params)) params c) as (runs & Hrun & Hlen & Hsc);
      [lia|done|done|].
    exists runs. split.
    { intros fuel Hfuel. eapply _run_scenario_mono; [|exact Hrun]. lia. }
    split; [done|]. split; [done|].
    intros name p Hname Hone.
    pose proof (run_scenario_single_sweep params name p c Hname Hone Hflat Hwind) as Hsingle.
    rewrite Hone in Hrun. rewrite Hrun in Hsingle.
    injection Hsingle as ->.
    split; [by rewrite length_fmap|]. split; [done|].
    rewrite <- list_fmap_compose.
    change (run_comment ∘ (λ v, Fall3d (pinned params name v) (suffixed tuple_str c name v)))
      with ((λ s, VStr (c +:+ "_" +:+ name +:+ "_" +:+ s)) ∘ py_str tuple_str).
    rewrite list_fmap_compose.
    split.
    + apply NoDup_fmap_1.
    + apply NoDup_fmap_2, _.
Qed.

(** C7: a sweep over the empty tuple starts no run and raises nothing.
    When the first tuple-valued parameter met is empty the call returns at
    once with no run; and a scenario of scalar sweeps naming a single
    wind-profile file yields no run at all as soon as one of its
    parameters is the empty tuple. *)
Theorem empty_sweep_yields_no_run (params : gmap string value) (name : string) :
  (first_tuple params (keys_order params) = Some (name, []) →
   ∀ fuel dircomment comment,
     resolve_comment params dircomment = inr comment →
     _run_scenario tuple_str keys_order isdir (S fuel) params dircomment
     = Some ([], inr tt))
  ∧ (params !! name = Some (VTuple []) →
     flat params → single_wind_profile isdir params →
     ∀ c fuel,
       (tuple_count params < fuel)%nat →
       _run_scenario tuple_str keys_order isdir fuel params (Some (VStr c))
       = Some ([], inr tt)).
Proof.
  split.
  - intros Hfirst fuel dircomment comment Hc. simpl.
    unfold get_scenario_parameters. by rewrite Hc, Hfirst.
  - intros Hname Hflat Hwind c fuel Hfuel.
    destruct (run_scenario_flat fuel params c) as (runs & Hrun & Hlen & _);
      [lia|done|done|].
    rewrite (expected_runs_delete params name _ Hname) in Hlen. simpl in Hlen.
    apply nil_length_inv in Hlen. by rewrite Hrun, Hlen.
Qed.

End ExpanderProofs.

Lemma map_order_spec (d : gmap string value) k :
  k ∈ map_order d ↔ is_Some (d !! k).
Proof.
  unfold map_order. rewrite list_elem_of_fmap. split.
  - intros ([k' v] & -> & Hin). apply elem_of_map_to_list in Hin. eauto.
  - intros [v Hv]. exists (k, v). split; [done|]. by apply elem_of_map_to_list.
Qed.

Lemma flat_sample_sweep : flat sample_sweep.
Proof.
  unfold flat, sample_sweep.
  repeat (apply map_Forall_insert_2; [simpl; repeat constructor|]).
  apply map_Forall_empty.
Qed.

Lemma single_wind_profile_sample (d : gmap string value) :
  d !! "wind_profile" = Some (VStr "w/p00.profile") →
  single_wind_profile no_directory d.
Proof. intros Hd. by exists "w/p00.profile". Qed.

(** C6, as stated, fails: the sweep [(5000, 5000)] has length two and
    both of its runs get the same value and the same comment. *)
Lemma sweep_repeated_value_same_comment :
  ¬ (∃ runs,
       _run_scenario sample_tuple_str map_order no_directory 2 sample_repeated
         (Some (VStr "run")) = Some (runs, inr tt)
       ∧ length runs = 2%nat
       ∧ NoDup (run_comment <$> runs)).
Proof.
  intros (runs & Hrun & _ & Hnodup).
  vm_compute in Hrun. injection Hrun as <-.
  apply NoDup_cons in Hnodup as [Hnot _]. apply Hnot. left.
Qed.

Lemma run_scenario_sweep_runs_witness :
  ∃ runs,
    _run_scenario sample_tuple_str map_order no_directory 3 sample_sweep
      (Some (VStr "run")) = Some (runs, inr tt)
    ∧ length runs = 6%nat.
Proof.
  destruct (proj2 (run_scenario_sweep_runs sample_tuple_str map_order no_directory
                     map_order_spec sample_sweep "run"))
    as (runs & Hrun & Hlen & _).
  - exact flat_sample_sweep.
  - apply single_wind_profile_sample. reflexivity.
  - exists runs. split; [apply Hrun; vm_compute; lia|exact Hlen].
Defined.

Lemma empty_sweep_yields_no_run_witness :
  _run_scenario sample_tuple_str map_order no_directory 4 sample_empty
    (Some (VStr "run")) = Some ([], inr tt).
Proof.
  apply (proj2 (empty_sweep_yields_no_run sample_tuple_str map_order no_directory
                  map_order_spec sample_empty "fl_values")).
  - reflexivity.
  - unfold sample_empty. apply map_Forall_insert_2; [constructor|].
    exact flat_sample_sweep.
  - apply single_wind_profile_sample. reflexivity.
  - vm_compute. lia.
Defined.

(** ** The scheduler *)

(** *** The cyclic distribution *)

Lemma mine_spec P p i : mine P p i = true ↔ p = (i mod P)%nat.
Proof. unfold mine. rewrite Nat.eqb_eq. split; intros; by subst. Qed.

Lemma elem_of_assigned P p N i :
  i ∈ assigned P p N ↔ (i < N)%nat ∧ p = (i mod P)%nat.
Proof.
  unfold assigned. rewrite list_elem_of_filter, elem_of_seq, mine_spec. lia.
Qed.

Lemma elem_of_concat {A} (x : A) (ls : list (list A)) :
  x ∈ concat ls ↔ ∃ l, l ∈ ls ∧ x ∈ l.
Proof.
  induction ls as [|l ls IH]; simpl.
  - split; [by intros ?%elem_of_nil|]. by intros (l & ?%elem_of_nil & _).
  - rewrite elem_of_app, IH. split.
    + intros [Hx|(l' & Hl' & Hx)].
      * exists l. split; [left|done].
      * exists l'. split; [by right|done].
    + intros (l' & [->|Hl']%elem_of_cons & Hx); [by left|].
      right. eauto.
Qed.

Lemma NoDup_assigned_classes P N ps :
  NoDup ps → NoDup (concat ((λ p, assigned P p N) <$> ps)).
Proof.
  induction 1 as [|p ps Hp _ IH]; [constructor|].
  csimpl. apply NoDup_app. split; [|split; [|done]].
  - apply NoDup_filter, NoDup_seq.
  - intros i [_ Hi]%elem_of_assigned (l & Hl & Hil)%elem_of_concat.
    apply list_elem_of_fmap in Hl as (p' & -> & Hp').
    apply elem_of_assigned in Hil as [_ Hi']. congruence.
Qed.

(** *** One process on its own *)

Lemma local_run_bind {A B} (m : proc A) (f : A → proc B) inbox :
  local_run (proc_bind m f) inbox
  = let '(ev1, s1, rest1) := local_run m inbox in
    match s1 with
    | Returned a =>
        let '(ev2, s2, rest2) := local_run (f a) rest1 in (ev1 ++ ev2, s2, rest2)
    | Raised e => (ev1, Raised e, rest1)
    | Waiting => (ev1, Waiting, rest1)
    end.
Proof.
  revert inbox. induction m as [a|e|ev k IH|source k IH]; intros inbox; simpl.
  - by destruct (local_run (f a) inbox) as [[ev2 s2] rest2].
  - done.
  - rewrite IH. destruct (local_run k inbox) as [[ev1 s1] rest1].
    destruct s1 as [a| |]; [|done..].
    by destruct (local_run (f a) rest1) as [[ev2 s2] rest2].
  - destruct inbox as [|payload inbox]; [done|]. apply IH.
Qed.

Lemma local_run_send_all {A} P p payload destinations (k : proc A) inbox :
  local_run (send_all (Some (P, p)) payload destinations k) inbox
  = let '(events, s, rest) := local_run k inbox in
    ((ESend payload <$> destinations) ++ events, s, rest).
Proof.
  induction destinations as [|i destinations IH]; simpl.
  - by destruct (local_run k inbox) as [[events s] rest].
  - rewrite IH. by destruct (local_run k inbox) as [[events s] rest].
Qed.

Lemma processed_from_cons P p i file others :
  processed_from P p i (file :: others)
  = (if mine P p i && endswith file ".profile" then [i] else [])
      ++ processed_from P p (S i) others.
Proof.
  unfold processed_from, enumerate_from. simpl length. simpl seq. simpl zip.
  rewrite filter_cons. simpl. case_decide as Hb.
  - by rewrite Hb.
  - apply not_true_is_false in Hb. by rewrite Hb.
Qed.

Section SchedulerProofs.

Variable engine : nat → string → string → exn + option aim_result.

(** Every scenario runs to the end and returns its object. *)
Hypothesis engine_ok : ∀ i windfield comment,
  ∃ aim, engine i windfield comment = inr (Some aim).

Lemma process_unit_run {A} p i file windfield_directory folder c (k : proc A) inbox :
  ∃ pre,
    Forall housekeeping pre
    ∧ local_run (process_unit engine p i file windfield_directory folder c k) inbox
      = (let '(events, s, rest) := local_run k inbox in
         (ERunScenario i (windfield_directory +:+ "/" +:+ file)
            (c +:+ "_run" +:+ fmt_nat i +:+ "_proc" +:+ fmt_nat p)
            :: pre ++ events, s, rest)).
Proof.
  unfold process_unit.
  destruct (engine_ok i (windfield_directory +:+ "/" +:+ file)
              (c +:+ "_run" +:+ fmt_nat i +:+ "_proc" +:+ fmt_nat p)) as [aim ->].
  set (windname := fst (splitext file)).
  set (copy := EShell ("cp " +:+ output_dir aim +:+ "/"
                         +:+ (scenario_name aim +:+ ".res.nc") +:+ " " +:+ folder
                         +:+ "/" +:+ (scenario_name aim +:+ "." +:+ windname
                                        +:+ ".res.nc"))).
  set (clean := EShell ("/bin/rm -rf " +:+ output_dir aim)).
  destruct (decide (i = 0%nat)) as [->|Hi].
  - exists [EMakedir folder; EShell ("chmod -R g+w " +:+ folder); copy;
            EShell ("cp " +:+ projection_file aim +:+ " " +:+ folder
                      +:+ "/HazardMaps.res.prj"); clean].
    split; [repeat constructor|].
    simpl. by destruct (local_run k inbox) as [[events s] rest].
  - exists [EMakedir folder; EShell ("chmod -R g+w " +:+ folder); copy; clean].
    split; [repeat constructor|].
    apply Nat.eqb_neq in Hi. simpl. rewrite Hi.
    simpl. by destruct (local_run k inbox) as [[events s] rest].
Qed.

Lemma scenario_indices_app l1 l2 :
  scenario_indices (l1 ++ l2) = scenario_indices l1 ++ scenario_indices l2.
Proof. apply omap_app. Qed.

Lemma scenario_indices_housekeeping pre :
  Forall housekeeping pre → scenario_indices pre = [].
Proof.
  induction 1 as [|ev pre Hev _ IH]; [done|].
  change (ev :: pre) with ([ev] ++ pre).
  rewrite scenario_indices_app, IH. by destruct ev.
Qed.

Lemma process_units_run P p windfield_directory folder :
  ∀ files dircomment eruption_comment i count_local count_all inbox,
    is_Some (loop_comment dircomment eruption_comment) →
    ∃ events,
      local_run (process_units engine P p windfield_directory folder
                   dircomment eruption_comment files i count_local count_all) inbox
      = (events,
         Returned ((count_local + length (processed_from P p i files))%nat,
                   (count_all + length files)%nat),
         inbox)
      ∧ scenario_indices events = processed_from P p i files
      ∧ Forall loop_event events.
Proof.
  induction files as [|file others IH];
    intros dircomment eruption_comment i count_local count_all inbox Hc.
  - exists []. change (processed_from P p i []) with (@nil nat). simpl.
    split; [|done]. by rewrite !Nat.add_0_r.
  - rewrite processed_from_cons. simpl process_units.
    destruct (mine P p i) eqn:Hmine; simpl andb.
    + destruct (endswith file ".profile") eqn:Hprofile; simpl negb; cbv iota.
      * destruct Hc as [c Hc]. fold (loop_comment dircomment eruption_comment).
        rewrite Hc.
        destruct (IH (Some c) eruption_comment (S i) (S count_local) (S count_all)
                     inbox) as (events & Hrun & Hidx & Hloop); [by eexists|].
        destruct (process_unit_run p i file windfield_directory folder c
                    (process_units engine P p windfield_directory folder (Some c)
                       eruption_comment others (S i) (S count_local) (S count_all))
                    inbox) as (pre & Hpre & Hunit).
        rewrite Hrun in Hunit.
        eexists. split; [|split].
        -- rewrite Hunit. do 2 f_equal. simpl. by rewrite <- !plus_n_Sm.
        -- change (scenario_indices (?ev :: ?l)) with (i :: scenario_indices l).
           rewrite scenario_indices_app, scenario_indices_housekeeping by done.
           simpl. by rewrite Hidx.
        -- constructor; [done|]. apply Forall_app. split; [|done].
           eapply Forall_impl; [exact Hpre|]. by intros [].
      * destruct (IH dircomment eruption_comment (S i) count_local (S count_all)
                     inbox Hc) as (events & Hrun & Hidx & Hloop).
        exists events. split; [|done]. rewrite Hrun. do 2 f_equal. simpl. by rewrite <- !plus_n_Sm.
    + destruct (IH dircomment eruption_comment (S i) count_local (S count_all)
                   inbox Hc) as (events & Hrun & Hidx & Hloop).
      exists events. split; [|done]. rewrite Hrun. do 2 f_equal. simpl. by rewrite <- !plus_n_Sm.
Qed.

Lemma local_run_handshake_leader P folder inbox :
  local_run (handshake (Some (P, 0%nat)) (Some folder)) inbox
  = (EMakedir (path_join folder "logs") :: (ESend folder <$> seq 0 P),
     Returned (folder, path_join folder "logs"), inbox).
Proof.
  unfold handshake. simpl pypar_rank. simpl pypar_size. simpl.
  rewrite local_run_send_all. simpl. by rewrite app_nil_r.
Qed.

Lemma local_run_handshake_follower P p arg folder inbox :
  p ≠ 0%nat →
  local_run (handshake (Some (P, p)) arg) (folder :: inbox)
  = ([], Returned (folder, path_join folder "logs"), inbox).
Proof.
  intros Hp. unfold handshake. simpl pypar_rank.
  apply Nat.eqb_neq in Hp. by rewrite Hp.
Qed.

Lemma scenario_indices_sends folder destinations :
  scenario_indices (ESend folder <$> destinations) = [].
Proof. induction destinations as [|i l IH]; [done|]. exact IH. Qed.

Lemma reports_app l1 l2 : reports (l1 ++ l2) = reports l1 ++ reports l2.
Proof. apply omap_app. Qed.

Lemma reports_sends folder destinations :
  reports (ESend folder <$> destinations) = [].
Proof. induction destinations as [|i l IH]; [done|]. exact IH. Qed.

Lemma reports_loop events : Forall loop_event events → reports events = [].
Proof.
  induction 1 as [|ev events Hev _ IH]; [done|].
  change (ev :: events) with ([ev] ++ events).
  rewrite reports_app, IH. by destruct ev.
Qed.

(** The run of one rank of a group, when the initial handshake delivers
    [folder]. *)
Lemma run_multiple_windfields_local P p path windfield_directory hazard_output_folder
    folder dircomment eruption_comment listing :
  (p = 0%nat → hazard_output_folder = Some folder) →
  is_Some (loop_comment dircomment eruption_comment) →
  ∃ events,
    local_run (run_multiple_windfields engine (Some (P, p)) (Script path)
                 windfield_directory
                 hazard_output_folder dircomment eruption_comment listing)
      (if (p =? 0)%nat then [] else [folder])
    = (events, Returned tt, [])
    ∧ scenario_indices events = processed P p listing
    ∧ reports events = (if (p =? 0)%nat then [length listing] else [])
    ∧ EDone p (length (processed P p listing)) ∈ events
    ∧ EOutputs folder ∈ events.
Proof.
  intros Hfolder Hcomment.
  destruct (process_units_run P p windfield_directory folder listing dircomment
              eruption_comment 0 0 0 []) as (loop & Hloop & Hidx & Hev); [done|].
  unfold run_multiple_windfields. simpl pypar_size. simpl pypar_rank.
  destruct (decide (p = 0%nat)) as [->|Hp].
  - rewrite (Hfolder eq_refl). simpl Nat.eqb. cbv iota.
    cbn [local_run]. rewrite local_run_bind, local_run_handshake_leader.
    cbn [pypar_call local_run scenario_basename]. rewrite local_run_bind, Hloop.
    simpl. eexists. split; [reflexivity|].
    split; [|split; [|split]].
    + change (scenario_indices (?a :: ?b :: ?c :: ?l)) with (scenario_indices l).
      rewrite !scenario_indices_app, scenario_indices_sends. simpl.
      change (scenario_indices (?a :: ?b :: ?c :: ?l)) with (scenario_indices l).
      rewrite scenario_indices_app, Hidx. simpl. by rewrite app_nil_r.
    + change (reports (?a :: ?b :: ?c :: ?l)) with (reports l).
      rewrite !reports_app, reports_sends. simpl.
      change (reports (?a :: ?b :: ?c :: ?l)) with (reports l).
      rewrite reports_app, reports_loop by done. simpl.
      done.
    + do 3 (apply elem_of_cons; right). apply elem_of_app. right.
      do 3 (apply elem_of_cons; right). apply elem_of_app. right.
      apply elem_of_cons; by left.
    + do 3 (apply elem_of_cons; right). apply elem_of_app. right.
      do 3 (apply elem_of_cons; right). apply elem_of_app. right.
      apply elem_of_cons; right. apply elem_of_cons; by left.
  - pose proof Hp as Hp'. apply Nat.eqb_neq in Hp'. rewrite Hp'.
    cbn [local_run]. rewrite local_run_bind.
    rewrite local_run_handshake_follower by done.
    cbn [pypar_call local_run scenario_basename]. rewrite local_run_bind, Hloop.
    simpl. rewrite Hp'. simpl. eexists. split; [reflexivity|].
    split; [|split; [|split]].
    + change (scenario_indices (?a :: ?b :: ?c :: ?d :: ?e :: ?l))
        with (scenario_indices l).
      rewrite scenario_indices_app, Hidx. simpl. by rewrite app_nil_r.
    + change (reports (?a :: ?b :: ?c :: ?d :: ?e :: ?l)) with (reports l).
      rewrite reports_app, reports_loop by done. done.
    + do 5 (apply elem_of_cons; right). apply elem_of_app. right.
      apply elem_of_cons; by left.
    + do 5 (apply elem_of_cons; right). apply elem_of_app. right.
      apply elem_of_cons; right. apply elem_of_cons; by left.
Qed.

Lemma elem_of_processed_from P p start files i :
  i ∈ processed_from P p start files
  ↔ ∃ file, (start ≤ i)%nat ∧ files !! (i - start)%nat = Some file
            ∧ mine P p i = true ∧ endswith file ".profile" = true.
Proof.
  revert start. induction files as [|file others IH]; intros start.
  - change (processed_from P p start []) with (@nil nat). split.
    + by intros ?%elem_of_nil.
    + by intros (file & _ & ? & _).
  - rewrite processed_from_cons, elem_of_app, IH. split.
    + intros [Hi|(f & Hle & Hf & Hm & He)].
      * destruct (mine P p start && endswith file ".profile") eqn:Hb;
          [|by apply elem_of_nil in Hi].
        apply list_elem_of_singleton in Hi as ->.
        apply andb_prop in Hb as [Hm He].
        exists file. rewrite Nat.sub_diag. done.
      * exists f. split; [lia|]. split; [|done].
        replace (i - start)%nat with (S (i - S start)) by lia. done.
    + intros (f & Hle & Hf & Hm & He).
      destruct (decide (i = start)) as [->|Hne].
      * left. rewrite Nat.sub_diag in Hf. injection Hf as ->.
        rewrite Hm, He. simpl. by apply list_elem_of_singleton.
      * right. exists f. split; [lia|]. split; [|done].
        replace (i - start)%nat with (S (i - S start)) in Hf by lia. done.
Qed.

(** A dictionary as scenario: the unguarded [os.path.splitext(scenario)]
    of line 677 raises on every rank, once logging has started and before
    the loop over the wind fields. *)
Lemma run_multiple_windfields_dictionary P p params windfield_directory
    hazard_output_folder folder dircomment eruption_comment listing :
  (p = 0%nat → hazard_output_folder = Some folder) →
  ∃ events,
    local_run (run_multiple_windfields engine (Some (P, p)) (Dictionary params)
                 windfield_directory
                 hazard_output_folder dircomment eruption_comment listing)
      (if (p =? 0)%nat then [] else [folder])
    = (events, Raised AttributeError, [])
    ∧ scenario_indices events = []
    ∧ reports events = [].
Proof.
  intros Hfolder.
  unfold run_multiple_windfields. simpl pypar_size. simpl pypar_rank.
  destruct (decide (p = 0%nat)) as [->|Hp].
  - rewrite (Hfolder eq_refl). simpl Nat.eqb. cbv iota.
    cbn [local_run]. rewrite local_run_bind, local_run_handshake_leader.
    cbn [pypar_call local_run scenario_basename].
    eexists. split; [reflexivity|]. split.
    + change (scenario_indices (ESleep 1 :: EBarrier :: ?l)) with (scenario_indices l).
      rewrite scenario_indices_app.
      change (scenario_indices (EMakedir ?x :: ?l)) with (scenario_indices l).
      by rewrite scenario_indices_sends.
    + change (reports (ESleep 1 :: EBarrier :: ?l)) with (reports l).
      rewrite reports_app.
      change (reports (EMakedir ?x :: ?l)) with (reports l).
      by rewrite reports_sends.
  - pose proof Hp as Hp'. apply Nat.eqb_neq in Hp'. rewrite Hp'.
    cbn [local_run]. rewrite local_run_bind.
    rewrite local_run_handshake_follower by done.
    cbn [pypar_call local_run scenario_basename].
    eexists. split; [reflexivity|]. done.
Qed.

(** C10: for a scenario given as a script, a rank of a group whose
    scenarios all succeed runs to the end; rank 0 reports the length of
    the whole directory listing; the wind fields a rank works on are the
    entries that end in [.profile] at the positions [i] of the whole
    listing with [i mod P = p], so that an entry without the suffix uses up
    an index: in the listing [README, a.profile] the profile has index 1
    and goes to rank 1 of 2.  (For a scenario given as a dictionary no
    rank gets as far as the loop: line 677 raises [AttributeError], and
    nothing is counted or reported.) *)
Theorem count_all_counts_every_entry P p path windfield_directory
    hazard_output_folder folder dircomment eruption_comment listing :
  (p = 0%nat → hazard_output_folder = Some folder) →
  is_Some (loop_comment dircomment eruption_comment) →
  ∃ events,
    local_run (run_multiple_windfields engine (Some (P, p)) (Script path)
                 windfield_directory
                 hazard_output_folder dircomment eruption_comment listing)
      (if (p =? 0)%nat then [] else [folder])
    = (events, Returned tt, [])
    ∧ reports events = (if (p =? 0)%nat then [length listing] else [])
    ∧ scenario_indices events = processed P p listing
    ∧ (∀ i, i ∈ processed P p listing
            ↔ ∃ file, listing !! i = Some file
                      ∧ (i mod P = p)%nat
                      ∧ endswith file ".profile" = true)
    ∧ processed 2 0 ["README"; "a.profile"] = []
    ∧ processed 2 1 ["README"; "a.profile"] = [1%nat]
    ∧ (∀ params, ∃ events',
         local_run (run_multiple_windfields engine (Some (P, p)) (Dictionary params)
                      windfield_directory
                      hazard_output_folder dircomment eruption_comment listing)
           (if (p =? 0)%nat then [] else [folder])
         = (events', Raised AttributeError, [])
         ∧ scenario_indices events' = []
         ∧ reports events' = []).
Proof.
  intros Hfolder Hcomment.
  destruct (run_multiple_windfields_local P p path windfield_directory
              hazard_output_folder folder dircomment eruption_comment listing
              Hfolder Hcomment) as (events & Hrun & Hidx & Hrep & _).
  exists events. split; [done|]. split; [done|]. split; [done|].
  split; [|split; [done|split; [done|]]].
  - intros i. unfold processed. rewrite elem_of_processed_from.
    rewrite Nat.sub_0_r. split.
    + intros (file & _ & Hf & Hm & He). exists file.
      apply mine_spec in Hm. done.
    + intros (file & Hf & Hm & He). exists file.
      split; [lia|]. split; [done|]. split; [|done]. by apply mine_spec.
  - intros params.
    by apply (run_multiple_windfields_dictionary P p params windfield_directory
                hazard_output_folder folder dircomment eruption_comment listing).
Qed.

Lemma processed_from_all_profiles P p start files :
  Forall (λ file, endswith file ".profile" = true) files →
  processed_from P p start files
  = filter (λ i, mine P p i = true) (seq start (length files)).
Proof.
  intros Hall. revert start.
  induction Hall as [|file others Hfile _ IH]; intros start; [done|].
  rewrite processed_from_cons, Hfile, andb_true_r, IH.
  simpl length. simpl seq. rewrite filter_cons.
  destruct (mine P p start); by case_decide.
Qed.

(** The trace of a rank for a scenario given as a script: the rank runs
    to the end and has run the scenarios of [processed]. *)
Lemma rank_indices_processed P p path windfield_directory folders folder
    dircomment eruption_comment listing :
  folders 0%nat = Some folder →
  is_Some (loop_comment dircomment eruption_comment) →
  local_run (run_multiple_windfields engine (Some (P, p)) (Script path)
               windfield_directory (folders p) dircomment eruption_comment listing)
    (if (p =? 0)%nat then [] else [folder])
  = (rank_events engine P p (Script path) windfield_directory folders folder
       dircomment eruption_comment listing, Returned tt, [])
  ∧ rank_indices engine P p (Script path) windfield_directory folders folder
      dircomment eruption_comment listing
    = processed P p listing.
Proof.
  intros Hfolder Hcomment.
  destruct (run_multiple_windfields_local P p path windfield_directory
              (folders p) folder dircomment eruption_comment listing)
    as (events & Hrun & Hidx & _); [by intros ->|done|].
  unfold rank_indices, rank_events. rewrite Hrun. done.
Qed.

(** C1: in a group of [P >= 1] ranks that run [run_multiple_windfields]
    for a scenario script on the same listing of [N] wind fields (entries
    ending in [.profile]), with scenarios that succeed, every rank runs to
    the end, and the scenarios rank [p] has run in its trace are those of
    the indices [i < N] with [i mod P = p]: index [i] is worked on by rank
    [i mod P] and by no other, and the indices of ranks [0 .. P-1] taken
    together are the indices [0 .. N-1], each exactly once.  With [N = 3]
    and [P = 2] rank 0 runs the indices 0 and 2 and rank 1 the index 1. *)
Theorem cyclic_distribution_partitions (P : nat) (path windfield_directory : string)
    (folders : nat → option string) (folder : string)
    (dircomment eruption_comment : option string) (listing : list string) :
  (1 ≤ P)%nat →
  folders 0%nat = Some folder →
  is_Some (loop_comment dircomment eruption_comment) →
  Forall (λ file, endswith file ".profile" = true) listing →
  (∀ i p, mine P p i = true ↔ p = (i mod P)%nat)
  ∧ (∀ p,
       local_run (run_multiple_windfields engine (Some (P, p)) (Script path)
                    windfield_directory (folders p) dircomment eruption_comment
                    listing)
         (if (p =? 0)%nat then [] else [folder])
       = (rank_events engine P p (Script path) windfield_directory folders folder
            dircomment eruption_comment listing, Returned tt, []))
  ∧ (∀ p i,
       i ∈ rank_indices engine P p (Script path) windfield_directory folders folder
             dircomment eruption_comment listing
       ↔ (i < length listing)%nat ∧ p = (i mod P)%nat)
  ∧ (∀ i, (i < length listing)%nat →
       (i mod P < P)%nat
       ∧ i ∈ rank_indices engine P (i mod P) (Script path) windfield_directory
               folders folder dircomment eruption_comment listing
       ∧ ∀ p, i ∈ rank_indices engine P p (Script path) windfield_directory
                    folders folder dircomment eruption_comment listing →
              p = (i mod P)%nat)
  ∧ concat ((λ p, rank_indices engine P p (Script path) windfield_directory
                    folders folder dircomment eruption_comment listing)
              <$> seq 0 P)
    ≡ₚ seq 0 (length listing)
  ∧ (P = 2%nat → length listing = 3%nat →
     rank_indices engine P 0 (Script path) windfield_directory folders folder
       dircomment eruption_comment listing = [0; 2]%nat
     ∧ rank_indices engine P 1 (Script path) windfield_directory folders folder
         dircomment eruption_comment listing = [1]%nat).
Proof.
  intros HP Hfolder Hcomment Hall.
  assert (∀ p, rank_indices engine P p (Script path) windfield_directory folders
                 folder dircomment eruption_comment listing
               = assigned P p (length listing)) as Hidx.
  { intros p.
    rewrite (proj2 (rank_indices_processed P p path windfield_directory folders
                      folder dircomment eruption_comment listing Hfolder Hcomment)).
    unfold processed. by rewrite processed_from_all_profiles. }
  split; [intros i p; apply mine_spec|].
  split; [intros p; by apply rank_indices_processed|].
  split; [intros p i; rewrite Hidx; apply elem_of_assigned|].
  split; [|split].
  - intros i Hi. split; [apply Nat.mod_upper_bound; lia|]. split.
    + rewrite Hidx. by apply elem_of_assigned.
    + intros p. rewrite Hidx. by intros [_ Hp]%elem_of_assigned.
  - assert ((λ p, rank_indices engine P p (Script path) windfield_directory folders
                    folder dircomment eruption_comment listing) <$> seq 0 P
            = (λ p, assigned P p (length listing)) <$> seq 0 P) as ->.
    { apply list_fmap_ext. intros _ p _. apply Hidx. }
    apply NoDup_Permutation.
    + apply NoDup_assigned_classes, NoDup_seq.
    + apply NoDup_seq.
    + intros i. rewrite elem_of_concat, elem_of_seq. split.
      * intros (l & Hl & Hil). apply list_elem_of_fmap in Hl as (p & -> & _).
        apply elem_of_assigned in Hil. lia.
      * intros Hi. exists (assigned P (i mod P) (length listing)). split.
        -- apply list_elem_of_fmap. exists (i mod P)%nat. split; [done|].
           apply elem_of_seq. pose proof (Nat.mod_upper_bound i P). lia.
        -- apply elem_of_assigned. lia.
  - intros -> Hlen. rewrite !Hidx, Hlen. done.
Qed.

End SchedulerProofs.

Lemma sample_engine_ok i windfield comment :
  ∃ aim, sample_engine i windfield comment = inr (Some aim).
Proof. eexists. reflexivity. Qed.

Lemma cyclic_distribution_partitions_witness :
  concat ((λ p, rank_indices sample_engine 2 p (Script "merapi.py") "w"
                  (λ _, Some "out") "out" None (Some "test") sample_profiles)
            <$> seq 0 2)
    ≡ₚ seq 0 3
  ∧ rank_indices sample_engine 2 0 (Script "merapi.py") "w" (λ _, Some "out") "out"
      None (Some "test") sample_profiles = [0; 2]%nat
  ∧ rank_indices sample_engine 2 1 (Script "merapi.py") "w" (λ _, Some "out") "out"
      None (Some "test") sample_profiles = [1]%nat.
Proof.
  destruct (cyclic_distribution_partitions sample_engine sample_engine_ok 2
              "merapi.py" "w" (λ _, Some "out") "out" None (Some "test")
              sample_profiles)
    as (_ & _ & _ & _ & Hperm & Hexample).
  - lia.
  - reflexivity.
  - by eexists.
  - by repeat constructor.
  - split; [exact Hperm|]. by apply Hexample.
Defined.

Lemma count_all_counts_every_entry_witness :
  ∃ events,
    local_run (run_multiple_windfields sample_engine (Some (2, 0)%nat)
                 (Script "merapi.py") "w"
                 (Some "out") None (Some "test") sample_listing) []
    = (events, Returned tt, [])
    ∧ reports events = [4%nat]
    ∧ scenario_indices events = [2%nat].
Proof.
  destruct (count_all_counts_every_entry sample_engine sample_engine_ok
              2 0 "merapi.py" "w" (Some "out") "out" None (Some "test")
              sample_listing)
    as (events & Hrun & Hrep & Hidx & _).
  - reflexivity.
  - by eexists.
  - exists events. split; [exact Hrun|]. split; [exact Hrep|exact Hidx].
Defined.

(** C2: what the code does without pypar.  The fallback sets [P = 1] and
    [p = 0] and the process then takes the branch of rank 0, where
    [pypar.send] evaluates the unbound local [pypar]: the call raises
    before any wind field is touched, whatever the listing.  (With no
    output folder it raises even earlier, joining the log path.) *)
Theorem sequential_mode_raises
    (engine : nat → string → string → exn + option aim_result)
    (scenario : scenario_arg)
    (windfield_directory : string) (hazard_output_folder : option string)
    (dircomment eruption_comment : option string)
    (listing inbox : list string) :
  ∃ events e,
    local_run (run_multiple_windfields engine None scenario windfield_directory
                 hazard_output_folder dircomment eruption_comment listing) inbox
    = (events, Raised e, inbox)
    ∧ scenario_indices events = []
    ∧ reports events = []
    ∧ (∀ folder, hazard_output_folder = Some folder →
         events = [EMakedir (path_join folder "logs")]
         ∧ e = UnboundLocalError).
Proof.
  destruct hazard_output_folder as [folder|].
  - exists [EMakedir (path_join folder "logs")], UnboundLocalError.
    split; [done|]. split; [done|]. split; [done|].
    by intros ? [= <-].
  - exists [], AttributeError. split; [done|]. split; [done|]. split; [done|].
    by intros ? [=].
Qed.

(** *** The handshake of a group *)

Lemma leader_sending_lt P f0 j :
  (j < P)%nat →
  leader_sending P f0 j = Emit (ESend f0 j) (leader_sending P f0 (S j)).
Proof.
  intros Hj. unfold leader_sending.
  replace (P - j)%nat with (S (P - S j)) by lia. done.
Qed.

Lemma leader_sending_end P f0 : leader_sending P f0 P = informed f0.
Proof. unfold leader_sending. by rewrite Nat.sub_diag. Qed.

Lemma handshake_leader P f0 :
  handshake (Some (P, 0%nat)) (Some f0) = leader_start P f0.
Proof.
  unfold handshake, leader_start, leader_sending. simpl. by rewrite Nat.sub_0_r.
Qed.

Lemma handshake_follower P q arg :
  q ≠ 0%nat → handshake (Some (P, q)) arg = waiting.
Proof.
  intros Hq. unfold handshake. simpl. apply Nat.eqb_neq in Hq. by rewrite Hq.
Qed.

Lemma handshake_group_ranks P folders f0 :
  (1 ≤ P)%nat → folders 0%nat = Some f0 →
  ranks (handshake_group P folders) = leader_start P f0 :: replicate (P - 1) waiting.
Proof.
  intros HP H0. unfold handshake_group. simpl.
  destruct P as [|P]; [lia|]. simpl. rewrite H0, handshake_leader. f_equal.
  rewrite Nat.sub_0_r.
  apply list_eq. intros i. rewrite list_lookup_fmap.
  destruct (decide (i < P)%nat) as [Hi|Hi].
  - rewrite lookup_seq_lt by done. simpl.
    rewrite handshake_follower by lia.
    symmetry. by apply lookup_replicate_2.
  - rewrite lookup_seq_ge by lia. simpl.
    symmetry. apply lookup_replicate_None. lia.
Qed.

Lemma handshake_inv_init P folders f0 :
  (1 ≤ P)%nat → folders 0%nat = Some f0 →
  handshake_inv P f0 0 (handshake_group P folders).
Proof.
  intros HP H0.
  pose proof (handshake_group_ranks P folders f0 HP H0) as Hranks.
  split.
  - rewrite Hranks. simpl. rewrite length_replicate. lia.
  - lia.
  - left. by rewrite Hranks.
  - done.
  - intros q Hq. left. split; [|lia]. rewrite Hranks.
    destruct q as [|q]; [lia|]. simpl. apply lookup_replicate_2. lia.
  - intros m Hm. by apply elem_of_nil in Hm.
  - lia.
Qed.

Lemma leader_state P f0 j (g : group (string * string)) m :
  handshake_inv P f0 j g → ranks g !! 0%nat = Some m →
  (m = leader_start P f0 ∧ j = 0%nat)
  ∨ ((j < P)%nat ∧ m = Emit (ESend f0 j) (leader_sending P f0 (S j)))
  ∨ (j = P ∧ m = informed f0).
Proof.
  intros Hinv Hm. destruct (inv_leader _ _ _ _ Hinv) as [[H0 Hj]|H0].
  - left. split; [congruence|done].
  - right. rewrite H0 in Hm. injection Hm as <-.
    pose proof (inv_bound _ _ _ _ Hinv).
    destruct (decide (j = P)) as [->|Hne].
    + right. split; [done|]. apply leader_sending_end.
    + left. split; [lia|]. apply leader_sending_lt. lia.
Qed.

Lemma follower_state P f0 j (g : group (string * string)) r m :
  handshake_inv P f0 j g → ranks g !! r = Some m → r ≠ 0%nat →
  (0 < r < P)%nat ∧ (m = waiting ∨ m = informed f0).
Proof.
  intros Hinv Hm Hr.
  assert (r < P)%nat as Hlt.
  { rewrite <- (inv_length _ _ _ _ Hinv). by eapply lookup_lt_Some. }
  split; [lia|].
  destruct (inv_followers _ _ _ _ Hinv r) as [[Hw _]|[Hi _]]; [lia| |].
  - left. congruence.
  - right. congruence.
Qed.

Lemma handshake_inv_step P f0 j (g g' : group (string * string)) :
  (1 ≤ P)%nat → handshake_inv P f0 j g → step g g' →
  ∃ j', handshake_inv P f0 j' g'.
Proof.
  intros HP Hinv Hstep.
  pose proof (inv_length _ _ _ _ Hinv) as Hlen.
  destruct Hstep as [g r ev k Hr Hev|g r payload i k Hr
                    |g r source k before payload after Hr Hbox Hfirst|g Hall].
  - (* a local event: the leader creates the log directory *)
    destruct (decide (r = 0%nat)) as [->|Hne].
    + destruct (leader_state _ _ _ _ _ Hinv Hr) as [[Hm ->]|[[_ Hm]|[_ Hm]]];
        [|injection Hm as -> ->; destruct Hev|discriminate Hm].
      unfold leader_start in Hm. injection Hm as -> ->.
      exists 0%nat. split; cbn [ranks mailbox sent].
      * by rewrite length_insert.
      * lia.
      * right. apply list_lookup_insert_eq. lia.
      * exact (inv_sent _ _ _ _ Hinv).
      * intros q Hq. rewrite list_lookup_insert_ne by lia.
        exact (inv_followers _ _ _ _ Hinv q Hq).
      * exact (inv_mailbox _ _ _ _ Hinv).
      * lia.
    + destruct (follower_state _ _ _ _ _ _ Hinv Hr Hne) as [_ [Hm|Hm]];
        discriminate Hm.
  - (* the leader sends to rank [j] *)
    destruct (decide (r = 0%nat)) as [->|Hne].
    + destruct (leader_state _ _ _ _ _ Hinv Hr) as [[Hm _]|[[Hj Hm]|[_ Hm]]];
        [discriminate Hm| |discriminate Hm].
      injection Hm as -> -> ->.
      exists (S j). split; cbn [ranks mailbox sent].
      * by rewrite length_insert.
      * lia.
      * right. apply list_lookup_insert_eq. lia.
      * rewrite (inv_sent _ _ _ _ Hinv), seq_S, fmap_app. done.
      * intros q Hq. rewrite list_lookup_insert_ne by lia.
        destruct (inv_followers _ _ _ _ Hinv q Hq) as [[Hw Hmsg]|[Hi Hlt]].
        -- left. split; [done|]. intros Hqj. apply elem_of_app.
           destruct (decide (q = j)) as [->|Hqne].
           ++ right. by apply list_elem_of_singleton.
           ++ left. apply Hmsg. lia.
        -- right. split; [done|lia].
      * intros m [Hm|Hm]%elem_of_app.
        -- destruct (inv_mailbox _ _ _ _ Hinv m Hm) as (i & Hi & ->).
           exists i. split; [lia|done].
        -- apply list_elem_of_singleton in Hm as ->. exists j. split; [lia|done].
      * intros _. apply elem_of_app.
        destruct (decide (j = 0%nat)) as [->|Hj0].
        -- right. by apply list_elem_of_singleton.
        -- left. apply (inv_self _ _ _ _ Hinv). lia.
    + destruct (follower_state _ _ _ _ _ _ Hinv Hr Hne) as [_ [Hm|Hm]];
        discriminate Hm.
  - (* a follower receives its message *)
    destruct (decide (r = 0%nat)) as [->|Hne].
    + destruct (leader_state _ _ _ _ _ Hinv Hr) as [[Hm _]|[[_ Hm]|[_ Hm]]];
        discriminate Hm.
    + destruct (follower_state _ _ _ _ _ _ Hinv Hr Hne) as [Hrange [Hm|Hm]];
        [|discriminate Hm].
      unfold waiting in Hm. injection Hm as Hsource Hk. subst source k.
      destruct (inv_mailbox _ _ _ _ Hinv
                  {| msg_source := 0; msg_destination := r; msg_payload := payload |})
        as (i & Hi & Heq).
      { rewrite Hbox. apply elem_of_app. right. by left. }
      injection Heq as <- <-.
      assert (∀ m, m ∈ mailbox g → msg_destination m ≠ r → m ∈ before ++ after)
        as Hkeep.
      { intros m Hm Hdst. rewrite Hbox in Hm.
        apply elem_of_app in Hm as [Hm|Hm]; apply elem_of_app; [by left|].
        apply elem_of_cons in Hm as [->|Hm]; [done|by right]. }
      exists j. split; cbn [ranks mailbox sent].
      * by rewrite length_insert.
      * exact (inv_bound _ _ _ _ Hinv).
      * rewrite list_lookup_insert_ne by done.
        exact (inv_leader _ _ _ _ Hinv).
      * exact (inv_sent _ _ _ _ Hinv).
      * intros q Hq. destruct (decide (q = r)) as [->|Hqr].
        -- right. split; [|done]. apply list_lookup_insert_eq. lia.
        -- rewrite list_lookup_insert_ne by done.
           destruct (inv_followers _ _ _ _ Hinv q Hq) as [[Hw Hmsg]|[Hin Hlt]].
           ++ left. split; [done|]. intros Hqj. apply Hkeep; [by apply Hmsg|done].
           ++ right. done.
      * intros m Hm. apply (inv_mailbox _ _ _ _ Hinv). rewrite Hbox.
        apply elem_of_app in Hm as [Hm|Hm]; apply elem_of_app; [by left|].
        right. by right.
      * intros Hj. apply Hkeep; [by apply (inv_self _ _ _ _ Hinv)|].
        simpl. lia.
  - (* no barrier during the handshake *)
    destruct (ranks g) as [|m rest] eqn:Hranks; [simpl in Hlen; lia|].
    apply Forall_cons in Hall as [[k Hk] _].
    assert (ranks g !! 0%nat = Some m) as H0 by (by rewrite Hranks).
    destruct (leader_state _ _ _ _ _ Hinv H0) as [[Hm _]|[[_ Hm]|[_ Hm]]];
      rewrite Hk in Hm; discriminate Hm.
Qed.

Lemma handshake_inv_reachable P folders f0 (g : group (string * string)) :
  (1 ≤ P)%nat → folders 0%nat = Some f0 →
  rtc step (handshake_group P folders) g →
  ∃ j, handshake_inv P f0 j g.
Proof.
  intros HP H0 Hreach.
  revert g Hreach.
  apply (rtc_ind_r (R := step) (λ g, ∃ j, handshake_inv P f0 j g)
           (handshake_group P folders)).
  - exists 0%nat. by apply handshake_inv_init.
  - intros g1 g2 _ Hstep [j Hinv]. by eapply handshake_inv_step.
Qed.

(** *** A complete run of the handshake *)

Lemma run_sends P folders f0 j :
  (1 ≤ P)%nat → folders 0%nat = Some f0 → (j ≤ P)%nat →
  rtc step (handshake_group P folders) (group_sending P f0 j).
Proof.
  intros HP H0. induction j as [|j IH]; intros Hj.
  - apply rtc_once.
    pose proof (step_local (handshake_group P folders) 0
                  (EMakedir (path_join f0 "logs")) (leader_sending P f0 0)) as Hstep.
    rewrite (handshake_group_ranks P folders f0 HP H0) in Hstep.
    apply Hstep; done.
  - eapply rtc_r; [apply IH; lia|].
    pose proof (step_send (group_sending P f0 j) 0 f0 j (leader_sending P f0 (S j)))
      as Hstep.
    unfold group_sending at 2 3 4 in Hstep. cbn [ranks mailbox sent] in Hstep.
    unfold group_sending at 2. rewrite seq_S, fmap_app.
    apply Hstep. simpl. f_equal. apply leader_sending_lt. lia.
Qed.

Lemma group_sending_all P f0 :
  (1 ≤ P)%nat → group_sending P f0 P = group_receiving P f0 0.
Proof.
  intros HP. unfold group_sending, group_receiving.
  rewrite leader_sending_end, Nat.sub_0_r. simpl replicate. simpl app.
  f_equal. destruct P as [|P]; [lia|]. simpl. by rewrite Nat.sub_0_r.
Qed.

Lemma run_receives P f0 n :
  (n ≤ P - 1)%nat →
  rtc step (group_receiving P f0 0) (group_receiving P f0 n).
Proof.
  induction n as [|n IH]; intros Hn; [done|].
  eapply rtc_r; [apply IH; lia|].
  pose proof (step_receive (group_receiving P f0 n) (S n) 0
                (λ folder, Ret (folder, path_join folder "logs"))
                [folder_message f0 0] f0
                (folder_message f0 <$> seq (S (S n)) (P - 1 - S n))) as Hstep.
  unfold group_receiving at 3 4 in Hstep. cbn [ranks mailbox sent] in Hstep.
  assert ((<[S n := informed f0]>
             (informed f0 :: replicate n (informed f0) ++ replicate (P - 1 - n) waiting))
          = informed f0 :: replicate (S n) (informed f0)
                             ++ replicate (P - 1 - S n) waiting) as Hranks.
  { simpl. f_equal. replace (P - 1 - n)%nat with (S (P - 1 - S n)) by lia.
    simpl replicate.
    rewrite (insert_app_r_alt (replicate n (informed f0)) _ n) by (rewrite length_replicate; lia).
    rewrite length_replicate, Nat.sub_diag. simpl.
    change (informed f0 :: replicate n (informed f0) ++ ?l)
      with (replicate (S n) (informed f0) ++ l).
    rewrite replicate_S_end, <- app_assoc. done. }
  unfold informed at 1 in Hranks. rewrite Hranks in Hstep. clear Hranks.
  unfold group_receiving at 2. apply Hstep.
  - simpl. rewrite lookup_app_r by (rewrite length_replicate; lia).
    rewrite length_replicate, Nat.sub_diag.
    replace (P - 1 - n)%nat with (S (P - 1 - S n)) by lia. done.
  - unfold group_receiving. simpl.
    replace (P - 1 - n)%nat with (S (P - 1 - S n)) by lia. done.
  - intros m Hm%list_elem_of_singleton [_ Hdst]. subst m. discriminate Hdst.
Qed.

Lemma run_complete P folders f0 :
  (1 ≤ P)%nat → folders 0%nat = Some f0 →
  rtc step (handshake_group P folders) (group_receiving P f0 (P - 1)).
Proof.
  intros HP H0. etrans; [apply (run_sends P folders f0 P HP H0); lia|].
  rewrite group_sending_all by done. by apply run_receives.
Qed.

(** In a group of two, rank 0 sends to rank 0 and to rank 1. *)
Lemma leader_destinations_of_two :
  send_destinations (local_run (handshake (Some (2, 0)%nat) (Some "out")) []).1.1
  = [0; 1]%nat.
Proof. reflexivity. Qed.

(** C3: what the handshake does in a group of [P >= 1] ranks whose rank 0
    was called with the folder [f0], whatever the interleaving.  The
    messages sent are those of rank 0 to the ranks [0, 1, ..] in this
    order, each carrying [f0]: rank 0 is among the destinations.  A
    follower is blocked in its receive from rank 0 until it holds [f0] (and
    the log directory under it), which happens only after rank 0 has sent
    to it.  When all ranks have returned, rank 0 has sent to every rank
    from [0] to [P-1], every rank holds [f0], and the message of rank 0 to
    itself is still in the mailbox: no rank receives it.  Such a complete
    run exists. *)
Theorem handshake_distributes_folder (P : nat) (folders : nat → option string)
    (f0 : string) (g : group (string * string)) :
  (1 ≤ P)%nat →
  folders 0%nat = Some f0 →
  rtc step (handshake_group P folders) g →
  (∃ j, (j ≤ P)%nat ∧ sent g = folder_message f0 <$> seq 0 j)
  ∧ (∀ q, (0 < q < P)%nat →
       ranks g !! q
       = Some (Receive 0 (λ folder, Ret (folder, path_join folder "logs")))
       ∨ (ranks g !! q = Some (Ret (f0, path_join f0 "logs"))
          ∧ folder_message f0 q ∈ sent g))
  ∧ (finished g →
       sent g = folder_message f0 <$> seq 0 P
       ∧ folder_message f0 0 ∈ mailbox g
       ∧ ∀ q, (q < P)%nat → ranks g !! q = Some (Ret (f0, path_join f0 "logs")))
  ∧ (∃ g', rtc step (handshake_group P folders) g'
           ∧ finished g'
           ∧ mailbox g' = [folder_message f0 0]).
Proof.
  intros HP H0 Hreach.
  destruct (handshake_inv_reachable P folders f0 g HP H0 Hreach) as [j Hinv].
  split; [|split; [|split]].
  - exists j. split; [exact (inv_bound _ _ _ _ Hinv)|exact (inv_sent _ _ _ _ Hinv)].
  - intros q Hq.
    destruct (inv_followers _ _ _ _ Hinv q Hq) as [[Hw _]|[Hi Hlt]]; [by left|].
    right. split; [done|]. rewrite (inv_sent _ _ _ _ Hinv).
    apply list_elem_of_fmap. exists q. split; [done|]. apply elem_of_seq. lia.
  - intros Hfin.
    assert (j = P) as ->.
    { destruct (ranks g) as [|m rest] eqn:Hranks.
      { pose proof (inv_length _ _ _ _ Hinv) as Hlen. rewrite Hranks in Hlen.
        simpl in Hlen. lia. }
      assert (ranks g !! 0%nat = Some m) as Hm by (by rewrite Hranks).
      unfold finished in Hfin. rewrite Hranks in Hfin.
      apply Forall_cons in Hfin as [[a Ha] _].
      destruct (leader_state _ _ _ _ _ Hinv Hm) as [[Hl _]|[[_ Hl]|[Hj _]]];
        [rewrite Ha in Hl; discriminate Hl..|done]. }
    split; [exact (inv_sent _ _ _ _ Hinv)|]. split.
    + apply (inv_self _ _ _ _ Hinv). lia.
    + intros q Hq. destruct (decide (q = 0%nat)) as [->|Hne].
      * destruct (inv_leader _ _ _ _ Hinv) as [[_ Hj]|Hl]; [lia|].
        by rewrite leader_sending_end in Hl.
      * destruct (inv_followers _ _ _ _ Hinv q) as [[Hw _]|[Hi _]]; [lia| |done].
        unfold finished in Hfin. rewrite Forall_lookup in Hfin.
        destruct (Hfin q _ Hw) as [a Ha]. discriminate Ha.
  - exists (group_receiving P f0 (P - 1)). split; [by apply run_complete|].
    split.
    + unfold finished, group_receiving. cbn [ranks].
      rewrite Nat.sub_diag. simpl replicate. rewrite app_nil_r.
      constructor; [by eexists|].
      apply Forall_replicate. by eexists.
    + unfold group_receiving. cbn [mailbox]. by rewrite Nat.sub_diag.
Qed.

Lemma handshake_distributes_folder_witness :
  ∃ g', rtc step (handshake_group 3 (λ r, Some ("out_" +:+ fmt_nat r))) g'
        ∧ finished g'
        ∧ mailbox g' = [folder_message "out_0" 0].
Proof.
  refine (proj2 (proj2 (proj2
    (handshake_distributes_folder 3 (λ r, Some ("out_" +:+ fmt_nat r)) "out_0"
       (handshake_group 3 (λ r, Some ("out_" +:+ fmt_nat r))) _ _ _)))).
  - lia.
  - reflexivity.
  - reflexivity.
Defined.

(** * Further properties of the module *)

(** ** The patcher: failures and repeated patches *)

Lemma readlines_nil content : readlines content = [] → content = EmptyString.
Proof.
  destruct content as [|c rest]; [done|]. simpl.
  destruct (Ascii.eqb c NL); [done|]. by destruct (readlines rest).
Qed.

(** The outcome of rewriting the lines of a file after an assignment to
    line [i]. *)
Lemma patch_line_run filename i x (fs : gmap string string) :
  (lines <- open_readlines filename ;;
   lines <- lift (setitem lines i x) ;;
   open_w filename ;;;
   for_each lines (write filename)) fs
  = match fs !! filename with
    | None => (fs, inl IOError)
    | Some content =>
        if (i <? length (readlines content))%nat
        then (<[filename := join_lines (<[i := x]> (readlines content))]> fs, inr tt)
        else (fs, inl IndexError)
    end.
Proof.
  unfold bind at 1. unfold open_readlines.
  destruct (fs !! filename) as [content|]; [|done].
  unfold bind at 1. unfold lift, setitem.
  destruct (i <? length (readlines content))%nat; [|done].
  apply rewrite_file.
Qed.

Lemma set_vent_location_run {V} (py_str : V → string) filename e n
    (fs : gmap string string) :
  set_vent_location_in_windfield py_str filename e n fs
  = match fs !! filename with
    | None => (fs, inl IOError)
    | Some content =>
        if (0 <? length (readlines content))%nat
        then (<[filename := join_lines (<[0%nat := vent_line py_str e n]>
                                          (readlines content))]> fs, inr tt)
        else (fs, inl IndexError)
    end.
Proof. apply patch_line_run. Qed.

Lemma set_timeblocks_run filename (fs : gmap string string) :
  set_timeblocks_in_windfield filename fs
  = match int (last_chars 2 (fst (splitext filename))) with
    | None => (fs, inl ValueError)
    | Some h =>
        match fs !! filename with
        | None => (fs, inl IOError)
        | Some content =>
            if (2 <? length (readlines content))%nat
            then (<[filename :=
                      join_lines (<[2%nat := timeblock_line (h * 3600) ((h + 6) * 3600)]>
                                    (readlines content))]> fs, inr tt)
            else (fs, inl IndexError)
        end
    end.
Proof.
  unfold set_timeblocks_in_windfield.
  destruct (splitext filename) as [basename ext]. simpl fst.
  destruct (int (last_chars 2 basename)) as [h|]; [|done].
  apply patch_line_run.
Qed.

Lemma readlines_patched i x content :
  terminated x = true →
  readlines (join_lines (<[i := x]> (readlines content))) = <[i := x]> (readlines content).
Proof.
  intros Hx. apply readlines_join, lines_ok_insert; [apply lines_ok_readlines|done].
Qed.

(** X1: [set_vent_location_in_windfield] fails in two cases only: the
    file is missing ([IOError]) or it is empty, so that there is no line 1
    to assign to ([IndexError]).  In both the file system is as before:
    the file is opened for writing only once the new line is in place. *)
Theorem set_vent_location_failure
    {V} (py_str : V → string) (filename : string)
    (vent_location_easting vent_location_northing : V)
    (fs : gmap string string) :
  (fs !! filename = None →
     set_vent_location_in_windfield py_str filename
       vent_location_easting vent_location_northing fs = (fs, inl IOError))
  ∧ (fs !! filename = Some EmptyString →
     set_vent_location_in_windfield py_str filename
       vent_location_easting vent_location_northing fs = (fs, inl IndexError))
  ∧ (∀ e, snd (set_vent_location_in_windfield py_str filename
                 vent_location_easting vent_location_northing fs) = inl e →
       fst (set_vent_location_in_windfield py_str filename
              vent_location_easting vent_location_northing fs) = fs
       ∧ ((e = IOError ∧ fs !! filename = None)
          ∨ (e = IndexError ∧ fs !! filename = Some EmptyString))).
Proof.
  rewrite set_vent_location_run. split; [|split].
  - by intros ->.
  - by intros ->.
  - intros e. destruct (fs !! filename) as [content|] eqn:Hf.
    + destruct (readlines content) as [|l ls] eqn:Hl; simpl; [|done].
      intros [= <-]. split; [done|]. right. split; [done|].
      by rewrite (readlines_nil content Hl).
    + simpl. intros [= <-]. auto.
Qed.

(** X2: the failures of [set_timeblocks_in_windfield] in the order the
    code meets them.  The hour is taken from the name before the file is
    opened, so a name without an hour raises [ValueError] whether or not
    the file exists; then a missing file raises [IOError]; then a file of
    fewer than three lines raises [IndexError] at the assignment to
    [lines[2]].  The file is reopened for writing after all three, so a
    failed call changes nothing. *)
Theorem set_timeblocks_failure_order (filename : string) (fs : gmap string string) :
  (int (last_chars 2 (fst (splitext filename))) = None →
     set_timeblocks_in_windfield filename fs = (fs, inl ValueError))
  ∧ (is_Some (int (last_chars 2 (fst (splitext filename)))) →
     fs !! filename = None →
     set_timeblocks_in_windfield filename fs = (fs, inl IOError))
  ∧ (∀ content,
       is_Some (int (last_chars 2 (fst (splitext filename)))) →
       fs !! filename = Some content →
       (length (readlines content) ≤ 2)%nat →
       set_timeblocks_in_windfield filename fs = (fs, inl IndexError))
  ∧ (∀ content,
       is_Some (int (last_chars 2 (fst (splitext filename)))) →
       fs !! filename = Some content →
       (2 < length (readlines content))%nat →
       snd (set_timeblocks_in_windfield filename fs) = inr tt)
  ∧ (∀ e, snd (set_timeblocks_in_windfield filename fs) = inl e →
          fst (set_timeblocks_in_windfield filename fs) = fs).
Proof.
  rewrite set_timeblocks_run.
  destruct (int (last_chars 2 (fst (splitext filename)))) as [h|].
  - split; [done|]. split; [by intros _ ->|]. split; [|split].
    + intros content _ -> Hlen. apply Nat.ltb_ge in Hlen. by rewrite Hlen.
    + intros content _ -> Hlen. apply Nat.ltb_lt in Hlen. by rewrite Hlen.
    + intros e. destruct (fs !! filename) as [content|]; [|done].
      by destruct (2 <? length (readlines content))%nat.
  - split; [done|]. split; [by intros [? [=]]|].
    split; [by intros ? [? [=]]|]. split; [by intros ? [? [=]]|]. done.
Qed.

(** X3: patching the vent location twice leaves what the second patch
    alone would leave, provided the first pair of coordinates renders
    without a line break; this holds for a missing or empty file as well,
    where both sides fail alike. *)
Theorem set_vent_location_last_wins
    {V} (py_str : V → string) (filename : string) (e1 n1 e2 n2 : V)
    (fs : gmap string string) :
  no_nl (py_str e1) = true →
  no_nl (py_str n1) = true →
  (set_vent_location_in_windfield py_str filename e1 n1 ;;;
   set_vent_location_in_windfield py_str filename e2 n2) fs
  = set_vent_location_in_windfield py_str filename e2 n2 fs.
Proof.
  intros He Hn. unfold bind. rewrite !set_vent_location_run.
  destruct (fs !! filename) as [content|] eqn:Hf; [|done].
  destruct (readlines content) as [|l ls] eqn:Hl; simpl; [done|].
  rewrite set_vent_location_run, lookup_insert_eq.
  pose proof (readlines_patched 0 (vent_line py_str e1 n1) content
                (terminated_vent_line py_str e1 n1 He Hn)) as Hread.
  rewrite Hl in Hread. simpl in Hread. rewrite Hread. simpl.
  by rewrite insert_insert_eq.
Qed.

Lemma set_vent_location_last_wins_witness :
  (set_vent_location_in_windfield fmt_int "w/p18.profile" 1%Z 2%Z ;;;
   set_vent_location_in_windfield fmt_int "w/p18.profile" 439400%Z 9167200%Z) sample_fs
  = set_vent_location_in_windfield fmt_int "w/p18.profile" 439400%Z 9167200%Z sample_fs.
Proof.
  apply (set_vent_location_last_wins fmt_int "w/p18.profile" 1%Z 2%Z 439400%Z 9167200%Z
           sample_fs); reflexivity.
Defined.

(** X4: the two patches of [generate_wind_profiles_from_ncep] do not
    interfere.  On a file of at least three lines whose name carries an
    hour, with coordinates that render without a line break, patching the
    vent location and then the time block gives the same file as the
    opposite order: line 1 and line 3 are replaced and every other line is
    kept. *)
Theorem patches_commute
    {V} (py_str : V → string) (filename : string)
    (vent_location_easting vent_location_northing : V)
    (fs : gmap string string) (content : string) (h : Z) :
  fs !! filename = Some content →
  (2 < length (readlines content))%nat →
  int (last_chars 2 (fst (splitext filename))) = Some h →
  no_nl (py_str vent_location_easting) = true →
  no_nl (py_str vent_location_northing) = true →
  ∃ content',
    (set_vent_location_in_windfield py_str filename
       vent_location_easting vent_location_northing ;;;
     set_timeblocks_in_windfield filename) fs
    = (<[filename := content']> fs, inr tt)
    ∧ (set_timeblocks_in_windfield filename ;;;
       set_vent_location_in_windfield py_str filename
         vent_location_easting vent_location_northing) fs
      = (<[filename := content']> fs, inr tt)
    ∧ readlines content'
      = <[2%nat := timeblock_line (h * 3600) ((h + 6) * 3600)]>
          (<[0%nat := vent_line py_str vent_location_easting vent_location_northing]>
             (readlines content)).
Proof.
  intros Hf Hlen Hh He Hn.
  set (v := vent_line py_str vent_location_easting vent_location_northing).
  set (t := timeblock_line (h * 3600) ((h + 6) * 3600)).
  pose proof (terminated_vent_line py_str _ _ He Hn) as Hv. fold v in Hv.
  pose proof (terminated_timeblock_line (h * 3600) ((h + 6) * 3600)) as Ht. fold t in Ht.
  exists (join_lines (<[2%nat := t]> (<[0%nat := v]> (readlines content)))).
  split; [|split].
  - unfold bind. rewrite set_vent_location_run, Hf.
    assert ((0 <? length (readlines content))%nat = true) as ->
      by (apply Nat.ltb_lt; lia).
    rewrite set_timeblocks_run, Hh, lookup_insert_eq. fold v t.
    rewrite (readlines_patched 0 v content Hv), length_insert.
    assert ((2 <? length (readlines content))%nat = true) as ->
      by (apply Nat.ltb_lt; lia).
    by rewrite insert_insert_eq.
  - unfold bind. rewrite set_timeblocks_run, Hh, Hf.
    assert ((2 <? length (readlines content))%nat = true) as ->
      by (apply Nat.ltb_lt; lia).
    rewrite set_vent_location_run, lookup_insert_eq. fold v t.
    rewrite (readlines_patched 2 t content Ht), length_insert.
    assert ((0 <? length (readlines content))%nat = true) as ->
      by (apply Nat.ltb_lt; lia).
    rewrite insert_insert_eq. do 3 f_equal.
    by rewrite list_insert_insert_ne.
  - apply readlines_join, lines_ok_insert; [|done].
    apply lines_ok_insert; [apply lines_ok_readlines|done].
Qed.

Lemma patches_commute_witness :
  ∃ content',
    (set_vent_location_in_windfield fmt_int "w/p06.profile" 439400%Z 9167200%Z ;;;
     set_timeblocks_in_windfield "w/p06.profile") sample_fs
    = (<["w/p06.profile" := content']> sample_fs, inr tt)
    ∧ (set_timeblocks_in_windfield "w/p06.profile" ;;;
       set_vent_location_in_windfield fmt_int "w/p06.profile" 439400%Z 9167200%Z)
        sample_fs
      = (<["w/p06.profile" := content']> sample_fs, inr tt)
    ∧ readlines content'
      = [line "439400 9167200"; line "20090913"; line "21600 43200"; line "3";
         line "1000 7.0 3.0"; line "2000 8.0 4.0"].
Proof.
  destruct (patches_commute fmt_int "w/p06.profile" 439400%Z 9167200%Z sample_fs
              profile_06 6%Z) as (content' & H1 & H2 & H3).
  - reflexivity.
  - vm_compute. lia.
  - reflexivity.
  - reflexivity.
  - reflexivity.
  - exists content'. split; [exact H1|]. split; [exact H2|exact H3].
Defined.

(** X5: [set_timeblocks_in_windfield] is idempotent: running it again on
    the same name gives the outcome of the first run, the same exception
    or the same file, whatever the file system. *)
Theorem set_timeblocks_idempotent (filename : string) (fs : gmap string string) :
  (set_timeblocks_in_windfield filename ;;; set_timeblocks_in_windfield filename) fs
  = set_timeblocks_in_windfield filename fs.
Proof.
  unfold bind. rewrite !set_timeblocks_run.
  destruct (int (last_chars 2 (fst (splitext filename)))) as [h|] eqn:Hh; [|done].
  destruct (fs !! filename) as [content|] eqn:Hf; [|done].
  destruct (2 <? length (readlines content))%nat eqn:Hlen; [|done].
  rewrite set_timeblocks_run, Hh, lookup_insert_eq.
  rewrite (readlines_patched 2 _ content (terminated_timeblock_line _ _)).
  rewrite length_insert, Hlen, insert_insert_eq.
  by rewrite list_insert_insert_eq.
Qed.

(** ** The stitcher: what it leaves behind *)

Lemma writes_only_ret {A} out (a : A) : writes_only out (ret a).
Proof. by intros fs. Qed.

Lemma writes_only_raise {A} out e : writes_only out (@raise A e).
Proof. by intros fs. Qed.

Lemma writes_only_lift {A} out (r : exn + A) : writes_only out (lift r).
Proof. by intros fs. Qed.

Lemma writes_only_open_readlines out f : writes_only out (open_readlines f).
Proof. intros fs. unfold open_readlines. by destruct (fs !! f). Qed.

Lemma writes_only_write out s : writes_only out (write out s).
Proof.
  intros fs. unfold write. simpl. split.
  - intros g Hg. by rewrite lookup_insert_ne.
  - intros _. rewrite lookup_insert_eq. by eexists.
Qed.

Lemma writes_only_open_w out : writes_only out (open_w out).
Proof.
  intros fs. unfold open_w. simpl. split.
  - intros g Hg. by rewrite lookup_insert_ne.
  - intros _. rewrite lookup_insert_eq. by eexists.
Qed.

Lemma writes_only_bind {A B} out (m : io A) (k : A → io B) :
  writes_only out m → (∀ a, writes_only out (k a)) → writes_only out (bind m k).
Proof.
  intros Hm Hk fs. unfold bind. destruct (Hm fs) as [Hm1 Hm2].
  destruct (m fs) as [fs' [e|a]]; simpl in *; [done|].
  destruct (Hk a fs') as [Hk1 Hk2]. split.
  - intros g Hg. by rewrite Hk1, Hm1.
  - intros Hout. by apply Hk2, Hm2.
Qed.

Lemma writes_only_for_each out lines : writes_only out (for_each lines (write out)).
Proof.
  induction lines as [|l ls IH]; [apply writes_only_ret|].
  simpl. apply writes_only_bind; [apply writes_only_write|done].
Qed.

Lemma writes_only_join_block out st f : writes_only out (join_block out st f).
Proof.
  unfold join_block.
  apply writes_only_bind; [apply writes_only_open_readlines|]. intros lines.
  apply writes_only_bind.
  { destruct st as [st|]; [apply writes_only_ret|].
    repeat (apply writes_only_bind; [first [apply writes_only_lift|apply writes_only_write]|];
            intros ?).
    apply writes_only_ret. }
  intros st'.
  apply writes_only_bind; [apply writes_only_write|]. intros _.
  apply writes_only_bind; [apply writes_only_write|]. intros _.
  apply writes_only_bind.
  { destruct (_ =? _)%Z; [apply writes_only_ret|apply writes_only_raise]. }
  intros _.
  apply writes_only_bind; [apply writes_only_for_each|]. intros _.
  apply writes_only_ret.
Qed.

Lemma writes_only_join_loop out st files : writes_only out (join_loop out st files).
Proof.
  revert st. induction files as [|f files IH]; intros st; [apply writes_only_ret|].
  simpl. apply writes_only_bind; [apply writes_only_join_block|done].
Qed.

(** X6: whether it succeeds or fails, [join_sorted_windprofiles] changes
    no file other than [outfilename], and [outfilename] exists afterwards:
    it is created (or emptied) before the first source file is opened. *)
Theorem join_sorted_windprofiles_frame
    (wind_data_files : list string) (outfilename : string)
    (fs : gmap string string) :
  (∀ f, f ≠ outfilename →
        fst (join_sorted_windprofiles wind_data_files outfilename fs) !! f = fs !! f)
  ∧ is_Some (fst (join_sorted_windprofiles wind_data_files outfilename fs)
               !! outfilename).
Proof.
  assert (writes_only outfilename
            (join_sorted_windprofiles wind_data_files outfilename)) as Hw.
  { unfold join_sorted_windprofiles.
    apply writes_only_bind; [apply writes_only_open_w|]. intros _.
    apply writes_only_bind; [apply writes_only_join_loop|]. intros _.
    apply writes_only_ret. }
  split; [apply Hw|].
  unfold join_sorted_windprofiles. unfold bind at 1. unfold open_w.
  set (fs0 := <[outfilename := EmptyString]> fs).
  assert (writes_only outfilename
            (join_loop outfilename None wind_data_files ;;; ret tt)) as Hw'.
  { apply writes_only_bind; [apply writes_only_join_loop|]. intros _.
    apply writes_only_ret. }
  apply (Hw' fs0). unfold fs0. rewrite lookup_insert_eq. by eexists.
Qed.

(** X7: when the output name is also the first source file, the call
    raises [IndexError] and leaves that file empty: the output is opened
    for writing, which empties it, before the source is read, so the
    source has no line 1 any more. *)
Theorem join_into_first_source
    (others : list string) (outfilename : string) (fs : gmap string string) :
  join_sorted_windprofiles (outfilename :: others) outfilename fs
  = (<[outfilename := EmptyString]> fs, inl IndexError).
Proof.
  unfold join_sorted_windprofiles. unfold bind at 1. unfold open_w.
  unfold bind at 1. simpl join_loop. unfold bind at 1.
  unfold join_block. unfold bind at 1. unfold open_readlines.
  rewrite lookup_insert_eq. simpl readlines.
  unfold bind at 1. unfold bind at 1. unfold lift at 1. done.
Qed.

Lemma for_each_write_ok out lines (fs : gmap string string) :
  snd (for_each lines (write out) fs) = inr tt.
Proof.
  revert fs. induction lines as [|l ls IH]; intros fs; [done|].
  simpl. unfold bind. unfold write at 1. apply IH.
Qed.

(** A block written with the loop variables set raises nothing but
    [IOError] and [AssertionError], and sets the loop variables again. *)
Lemma join_block_tail out st lines (fs : gmap string string) :
  match snd ((write out (timeblock_line (seconds_start st) (seconds_end st)) ;;;
              write out (count_line (num_layers st)) ;;;
              (if (Z.of_nat (length (drop 4 lines)) =? num_layers st)%Z
               then ret tt else raise AssertionError) ;;;
              for_each (drop 4 lines) (write out) ;;;
              ret (Some {| seconds_start := seconds_end st;
                           seconds_end := seconds_end st + 6 * 3600;
                           num_layers := num_layers st |})) fs) with
  | inl e => e = AssertionError
  | inr r => is_Some r
  end.
Proof.
  unfold bind at 1. unfold write at 1.
  unfold bind at 1. unfold write at 1.
  unfold bind at 1.
  destruct (Z.of_nat (length (drop 4 lines)) =? num_layers st)%Z; [|done].
  unfold ret at 1. unfold bind at 1.
  match goal with
  | |- context [for_each ?l ?w ?s] =>
      pose proof (for_each_write_ok out l s) as Hw;
      destruct (for_each l w s) as [fs' [e|[]]]
  end; [done|]. by eexists.
Qed.

Lemma join_block_later_errors out st f (fs : gmap string string) :
  match snd (join_block out (Some st) f fs) with
  | inl e => e = IOError ∨ e = AssertionError
  | inr r => is_Some r
  end.
Proof.
  unfold join_block. unfold bind at 1. unfold open_readlines.
  destruct (fs !! f) as [content|]; [|by left].
  unfold bind at 1. unfold ret at 1.
  pose proof (join_block_tail out st (readlines content) fs) as Ht.
  destruct (snd _) as [e|r]; [by right|done].
Qed.

Lemma join_loop_later_errors out files st (fs : gmap string string) e :
  snd (join_loop out (Some st) files fs) = inl e →
  e = IOError ∨ e = AssertionError.
Proof.
  revert st fs. induction files as [|f files IH]; intros st fs; [done|].
  simpl join_loop. unfold bind.
  pose proof (join_block_later_errors out st f fs) as H.
  destruct (join_block out (Some st) f fs) as [fs' [e'|r]]; simpl in H.
  - by intros [= <-].
  - destruct H as [st' ->]. apply IH.
Qed.

Lemma parse_time_range_error l e : parse_time_range l = inl e → e = ValueError.
Proof.
  unfold parse_time_range.
  destruct (mapM int (String.words l)) as [[|? [|? [|? ?]]]|]; by intros [=].
Qed.

Lemma join_block_first_cases out f (fs : gmap string string) content :
  fs !! f = Some content →
  if header_parses (readlines content)
  then match snd (join_block out None f fs) with
       | inl e => e = AssertionError
       | inr r => is_Some r
       end
  else ∃ e, (e = IndexError ∨ e = ValueError)
            ∧ join_block out None f fs = (fs, inl e).
Proof.
  intros Hf. unfold header_parses.
  destruct (readlines content) as [|l0 [|l1 [|l2 [|l3 ls]]]] eqn:Hlines.
  - exists IndexError. split; [by left|].
    unfold join_block, bind, open_readlines. by rewrite Hf, Hlines.
  - exists IndexError. split; [by left|].
    unfold join_block, bind, open_readlines. by rewrite Hf, Hlines.
  - exists IndexError. split; [by left|].
    unfold join_block, bind, open_readlines. by rewrite Hf, Hlines.
  - destruct (parse_time_range l2) as [e|range] eqn:Hrange.
    + apply parse_time_range_error in Hrange as Hv. subst e.
      exists ValueError. split; [by right|].
      unfold join_block, bind, open_readlines. rewrite Hf, Hlines.
      unfold lift, getitem. simpl. by rewrite Hrange.
    + exists IndexError. split; [by left|].
      unfold join_block, bind, open_readlines. rewrite Hf, Hlines.
      unfold lift, getitem. simpl. by rewrite Hrange.
  - destruct (parse_time_range l2) as [e|range] eqn:Hrange.
    + apply parse_time_range_error in Hrange as Hv. subst e.
      exists ValueError. split; [by right|].
      unfold join_block, bind, open_readlines. rewrite Hf, Hlines.
      unfold lift, getitem. simpl. by rewrite Hrange.
    + destruct (int l3) as [n|] eqn:Hn.
      * unfold join_block. unfold bind at 1. unfold open_readlines.
        rewrite Hf, Hlines.
        unfold bind at 1.
        unfold bind at 1. unfold lift at 1, getitem at 1. simpl lookup. cbv iota.
        unfold bind at 1. unfold lift at 1, getitem at 1. simpl lookup. cbv iota.
        unfold bind at 1. unfold lift at 1, getitem at 1. simpl lookup. cbv iota.
        unfold bind at 1. unfold lift at 1. rewrite Hrange.
        unfold bind at 1. unfold lift at 1, getitem at 1. simpl lookup. cbv iota.
        unfold bind at 1. unfold lift at 1, parse_int. rewrite Hn.
        unfold bind at 1. unfold write at 1.
        unfold bind at 1. unfold write at 1. unfold ret at 1.
        apply (join_block_tail out
                 {| seconds_start := fst range; seconds_end := snd range;
                    num_layers := n |} (l0 :: l1 :: l2 :: l3 :: ls)).
      * exists ValueError. split; [by right|].
        unfold join_block, bind, open_readlines. rewrite Hf, Hlines.
        unfold lift, getitem, parse_int. simpl. by rewrite Hrange, Hn.
Qed.

(** X8: a fault in the header of the first source file is found before
    anything is written.  If the first file (read after the output has been
    opened) has fewer than four lines, or its line 3 is not two integers,
    or its line 4 is not an integer, the call raises [IndexError] or
    [ValueError] and leaves the output file empty; with fewer than three
    lines the exception is [IndexError].  If the header can be read, the
    call never raises either of the two: whatever the later files hold, it
    can only fail with [IOError] or [AssertionError]. *)
Theorem join_header_fault
    (first_file : string) (others : list string) (outfilename : string)
    (fs : gmap string string) (content : string) :
  (<[outfilename := EmptyString]> fs) !! first_file = Some content →
  (header_parses (readlines content) = false →
     ∃ e, (e = IndexError ∨ e = ValueError)
          ∧ join_sorted_windprofiles (first_file :: others) outfilename fs
            = (<[outfilename := EmptyString]> fs, inl e))
  ∧ ((length (readlines content) ≤ 2)%nat →
     join_sorted_windprofiles (first_file :: others) outfilename fs
     = (<[outfilename := EmptyString]> fs, inl IndexError))
  ∧ (header_parses (readlines content) = true →
     ∀ e, snd (join_sorted_windprofiles (first_file :: others) outfilename fs) = inl e →
          e = IOError ∨ e = AssertionError).
Proof.
  intros Hf.
  pose proof (join_block_first_cases outfilename first_file _ content Hf) as Hfirst.
  assert (header_parses (readlines content) = false →
     ∃ e, (e = IndexError ∨ e = ValueError)
          ∧ join_sorted_windprofiles (first_file :: others) outfilename fs
            = (<[outfilename := EmptyString]> fs, inl e)) as Hfault.
  { intros Hh. rewrite Hh in Hfirst. destruct Hfirst as (e & He & Hrun).
    exists e. split; [done|].
    unfold join_sorted_windprofiles. unfold bind at 1. unfold open_w.
    unfold bind at 1. simpl join_loop. unfold bind at 1. by rewrite Hrun. }
  split; [exact Hfault|]. split.
  - intros Hlen.
    destruct Hfault as (e & He & Hrun).
    { unfold header_parses.
      destruct (readlines content) as [|l0 [|l1 [|l2 ls]]]; try done.
      simpl in Hlen; lia. }
    rewrite Hrun. destruct He as [-> | ->]; [done|].
    exfalso. revert Hrun.
    unfold join_sorted_windprofiles. unfold bind at 1. unfold open_w.
    unfold bind at 1. simpl join_loop. unfold bind at 1.
    unfold join_block, bind, open_readlines. rewrite Hf.
    destruct (readlines content) as [|l0 [|l1 [|l2 ls]]]; try done.
    simpl in Hlen; lia.
  - intros Hh e. rewrite Hh in Hfirst.
    unfold join_sorted_windprofiles. unfold bind at 1. unfold open_w.
    unfold bind at 1. simpl join_loop. unfold bind at 1.
    destruct (join_block outfilename None first_file _) as [fs' [e'|r]];
      simpl in Hfirst.
    + intros [= <-]. by right.
    + destruct Hfirst as [st' ->].
      pose proof (join_loop_later_errors outfilename others st' fs' e) as Hl.
      destruct (join_loop outfilename (Some st') others fs') as [fs'' [e''|r']];
        simpl in *; [|done].
      intros [= <-]. by apply Hl.
Qed.

Lemma join_header_fault_witness :
  join_sorted_windprofiles ["w/short.profile"; "w/p00.profile"] "w/joined.profile"
    (<["w/short.profile" := profile_short]> sample_fs)
  = (<["w/joined.profile" := EmptyString]>
       (<["w/short.profile" := profile_short]> sample_fs), inl IndexError).
Proof.
  refine (proj1 (proj2 (join_header_fault "w/short.profile" ["w/p00.profile"]
                          "w/joined.profile"
                          (<["w/short.profile" := profile_short]> sample_fs)
                          profile_short _)) _).
  - reflexivity.
  - vm_compute. lia.
Defined.

(** ** Reading back what ['%i'] writes *)

Lemma digits_string_of_uint d acc count rest :
  digits acc count (NilEmpty.string_of_uint d +:+ rest)
  = digits (uint_val acc d) (count + Decimal.nb_digits d) rest.
Proof.
  revert acc count.
  induction d as [|d IH|d IH|d IH|d IH|d IH|d IH|d IH|d IH|d IH|d IH];
    intros acc count;
    [simpl; by rewrite Nat.add_0_r
    |simpl NilEmpty.string_of_uint; rewrite app_cons_s; simpl digits;
     rewrite IH; simpl Decimal.nb_digits; by rewrite <- plus_n_Sm ..].
Qed.

Lemma uint_val_of_uint_acc d acc :
  Z.pos (Pos.of_uint_acc d acc) = uint_val (Z.pos acc) d.
Proof.
  revert acc.
  induction d as [|d IH|d IH|d IH|d IH|d IH|d IH|d IH|d IH|d IH|d IH];
    intros acc; [done|simpl; rewrite IH; f_equal; lia ..].
Qed.

Lemma uint_val_of_uint d : Z.of_N (Pos.of_uint d) = uint_val 0 d.
Proof.
  induction d as [|d IH|d IH|d IH|d IH|d IH|d IH|d IH|d IH|d IH|d IH];
    [done|exact IH|simpl; by rewrite uint_val_of_uint_acc ..].
Qed.

Lemma uint_val_to_uint p : uint_val 0 (Pos.to_uint p) = Z.pos p.
Proof. by rewrite <- uint_val_of_uint, DecimalPos.Unsigned.of_to. Qed.

Lemma space_not_digit c : Ascii.is_space c = true → is_digit c = false.
Proof. by destruct c as [[] [] [] [] [] [] [] []]. Qed.

Lemma digits_stop acc count rest :
  all_space rest = true → digits acc count rest = (acc, count, rest).
Proof.
  destruct rest as [|c r]; [done|]. simpl.
  intros [Hc _]%andb_prop. by rewrite (space_not_digit c Hc).
Qed.

Lemma nb_digits_pos d : d ≠ Decimal.Nil → ∃ n, Decimal.nb_digits d = S n.
Proof. destruct d; [done|simpl; eauto ..]. Qed.

Lemma int_digits_rest s2 rest d (sign : Z) :
  d ≠ Decimal.Nil → all_space rest = true →
  s2 = NilEmpty.string_of_uint d +:+ rest →
  (let '(v, count, rest) := digits 0 0 s2 in
   match count with
   | O => None
   | S _ => if all_space rest then Some (sign * v)%Z else None
   end) = Some (sign * uint_val 0 d)%Z.
Proof.
  intros Hd Hrest ->. rewrite digits_string_of_uint, digits_stop by done.
  destruct (nb_digits_pos d Hd) as [n ->]. simpl. by rewrite Hrest.
Qed.

Lemma int_string_of_uint d rest :
  d ≠ Decimal.Nil → all_space rest = true →
  int (NilEmpty.string_of_uint d +:+ rest) = Some (uint_val 0 d).
Proof.
  intros Hd Hrest.
  rewrite <- (Z.mul_1_l (uint_val 0 d)).
  rewrite <- (int_digits_rest (NilEmpty.string_of_uint d +:+ rest) rest d 1 Hd Hrest eq_refl).
  unfold int. destruct d; [done|reflexivity ..].
Qed.

Lemma int_minus_string_of_uint d rest :
  d ≠ Decimal.Nil → all_space rest = true →
  int (String "-" (NilEmpty.string_of_uint d) +:+ rest) = Some (- uint_val 0 d)%Z.
Proof.
  intros Hd Hrest.
  replace (- uint_val 0 d)%Z with (-1 * uint_val 0 d)%Z by lia.
  rewrite <- (int_digits_rest (NilEmpty.string_of_uint d +:+ rest) rest d (-1) Hd Hrest eq_refl).
  reflexivity.
Qed.

(** [int] reads back the number ['%i'] wrote, also when white space
    follows. *)
Lemma int_fmt_int z rest :
  all_space rest = true → int (fmt_int z +:+ rest) = Some z.
Proof.
  intros Hrest. unfold fmt_int. destruct z as [|p|p]; simpl Z.to_int.
  - change (NilZero.string_of_int (Decimal.Pos (Decimal.D0 Decimal.Nil)))
      with (NilEmpty.string_of_uint (Decimal.D0 Decimal.Nil)).
    by rewrite int_string_of_uint.
  - pose proof (DecimalPos.Unsigned.to_uint_nonnil p) as Hp.
    replace (NilZero.string_of_int (Decimal.Pos (Pos.to_uint p)))
      with (NilEmpty.string_of_uint (Pos.to_uint p)).
    2:{ simpl. by destruct (Pos.to_uint p). }
    by rewrite int_string_of_uint, uint_val_to_uint.
  - pose proof (DecimalPos.Unsigned.to_uint_nonnil p) as Hp.
    replace (NilZero.string_of_int (Decimal.Neg (Pos.to_uint p)))
      with (String "-" (NilEmpty.string_of_uint (Pos.to_uint p))).
    2:{ simpl. by destruct (Pos.to_uint p). }
    by rewrite int_minus_string_of_uint, uint_val_to_uint.
Qed.

Lemma rev_app_rev_app a b c :
  String.rev_app (String.rev_app a b) c = String.rev_app b (a +:+ c).
Proof.
  revert b c. induction a as [|x a IH]; intros b c; [done|].
  simpl String.rev_app. rewrite IH. done.
Qed.

Lemma rev_rev s : String.rev (String.rev s) = s.
Proof. unfold String.rev. rewrite rev_app_rev_app. simpl. apply app_nil_r_s. Qed.

Lemma words_go_word w cur rest :
  no_space w = true →
  String.words_go cur (w +:+ rest)
  = String.words_go (match w with
                     | EmptyString => cur
                     | _ => Some (String.rev_app w (default EmptyString cur))
                     end) rest.
Proof.
  revert cur. induction w as [|a w IH]; intros cur Hw; [done|].
  simpl in Hw. apply andb_prop in Hw as [Ha Hw]. apply negb_true_iff in Ha.
  rewrite app_cons_s. simpl String.words_go. rewrite Ha, (IH _ Hw).
  destruct w as [|b w]; [by destruct cur|]. by destruct cur.
Qed.

Lemma no_space_string_of_uint d : no_space (NilEmpty.string_of_uint d) = true.
Proof. induction d as [|d IH|d IH|d IH|d IH|d IH|d IH|d IH|d IH|d IH|d IH]; [done|..]; exact IH. Qed.

Lemma no_space_fmt_int z : no_space (fmt_int z) = true.
Proof.
  unfold fmt_int. destruct (Z.to_int z) as [d|d].
  - destruct d; [done|apply (no_space_string_of_uint _) ..].
  - simpl. destruct d; [done|apply (no_space_string_of_uint _) ..].
Qed.

Lemma fmt_int_nonempty z : ∃ c s, fmt_int z = String c s.
Proof.
  unfold fmt_int. destruct (Z.to_int z) as [d|d]; [|simpl; eauto].
  destruct d; simpl; eauto.
Qed.

Lemma words_go_space cur c rest :
  Ascii.is_space c = true →
  String.words_go cur (String c rest)
  = option_list (String.rev <$> cur) ++ String.words_go None rest.
Proof. intros Hc. simpl. by rewrite Hc. Qed.

Lemma words_two wa wb :
  no_space wa = true → no_space wb = true →
  wa ≠ EmptyString → wb ≠ EmptyString →
  String.words (wa +:+ " " +:+ wb +:+ String NL EmptyString) = [wa; wb].
Proof.
  intros Ha Hb Hane Hbne. unfold String.words.
  rewrite (words_go_word wa) by done.
  destruct wa as [|ca sa]; [done|].
  change (" " +:+ wb +:+ String NL EmptyString)
    with (String " " (wb +:+ String NL EmptyString)).
  rewrite words_go_space by done.
  rewrite (words_go_word wb) by done.
  destruct wb as [|cb sb]; [done|].
  rewrite words_go_space by done.
  cbn [fmap option_fmap option_map option_list default String.words_go app].
  change (String.rev_app (String ca sa) EmptyString) with (String.rev (String ca sa)).
  change (String.rev_app (String cb sb) EmptyString) with (String.rev (String cb sb)).
  by rewrite !rev_rev.
Qed.

Lemma words_timeblock_line a b :
  String.words (timeblock_line a b) = [fmt_int a; fmt_int b].
Proof.
  unfold timeblock_line.
  destruct (fmt_int_nonempty a) as (ca & sa & Ha).
  destruct (fmt_int_nonempty b) as (cb & sb & Hb).
  apply words_two; [apply no_space_fmt_int|apply no_space_fmt_int| |].
  - by rewrite Ha.
  - by rewrite Hb.
Qed.

(** The line ['%i %i\n'] is read back by
    [[int(x) for x in line.split()]] as the two numbers written. *)
Lemma parse_timeblock_line a b : parse_time_range (timeblock_line a b) = inr (a, b).
Proof.
  unfold parse_time_range. rewrite words_timeblock_line. simpl mapM.
  rewrite <- (app_nil_r_s (fmt_int a)), <- (app_nil_r_s (fmt_int b)).
  by rewrite !int_fmt_int.
Qed.

Lemma parse_count_line n : int (count_line n) = Some n.
Proof. unfold count_line. by apply int_fmt_int. Qed.

(** ** The patcher and the stitcher together *)

Lemma lines_ok_terminated ls i l :
  lines_ok ls = true → ls !! i = Some l → (S i < length ls)%nat →
  terminated l = true.
Proof.
  revert i. induction ls as [|x ls IH]; intros i Hok Hl Hlen; [done|].
  destruct ls as [|y ls]; [simpl in Hlen; lia|].
  change (lines_ok (x :: y :: ls)) with (terminated x && lines_ok (y :: ls)) in Hok.
  apply andb_prop in Hok as [Hx Hok].
  destruct i as [|i]; [by simplify_eq/=|].
  apply (IH i Hok Hl). simpl in *. lia.
Qed.

(** X9: the time block [set_timeblocks_in_windfield] writes is the one
    [join_sorted_windprofiles] reads.  When the first source file has been
    patched for the hour [h] of its name, the stitcher takes
    [(3600 h, 3600 (h + 6))] as the range of the first block, whatever
    line 3 held before the patch, and stitches the same data lines. *)
Theorem patched_time_block_is_first_range
    (first_file : string) (others : list string) (outfilename : string)
    (fs : gmap string string) (content l3 : string) (h n : Z) :
  outfilename ∉ first_file :: others →
  fs !! first_file = Some content →
  int (last_chars 2 (fst (splitext first_file))) = Some h →
  readlines content !! 3%nat = Some l3 →
  int l3 = Some n →
  Forall (well_layered fs n) (first_file :: others) →
  ∃ fs1 vent_loc date,
    set_timeblocks_in_windfield first_file fs = (fs1, inr tt)
    ∧ readlines content !! 0%nat = Some vent_loc
    ∧ readlines content !! 1%nat = Some date
    ∧ join_sorted_windprofiles (first_file :: others) outfilename fs1
      = (<[outfilename :=
             stitched fs vent_loc date (h * 3600, (h + 6) * 3600)%Z n
               (first_file :: others)]> fs1,
         inr tt).
Proof.
  intros Hout Hf Hh H3 Hn Hall.
  destruct (first_lines_exist _ _ H3) as (vent_loc & date & H0 & H1).
  pose proof (lookup_lt_Some _ _ _ H3) as Hlen.
  set (t := timeblock_line (h * 3600) ((h + 6) * 3600)).
  set (content1 := join_lines (<[2%nat := t]> (readlines content))).
  assert (readlines content1 = <[2%nat := t]> (readlines content)) as Hread
    by apply readlines_patched, terminated_timeblock_line.
  exists (<[first_file := content1]> fs), vent_loc, date.
  split; [|split; [done|split; [done|]]].
  { rewrite set_timeblocks_run, Hh, Hf.
    assert ((2 <? length (readlines content))%nat = true) as ->
      by (apply Nat.ltb_lt; lia).
    done. }
  assert (∀ f, data_lines (<[first_file := content1]> fs) f = data_lines fs f) as Hdata.
  { intros f. unfold data_lines. destruct (decide (f = first_file)) as [->|Hne].
    - rewrite lookup_insert_eq, Hf. simpl default. rewrite Hread.
      by rewrite drop_insert_lt by lia.
    - by rewrite lookup_insert_ne. }
  rewrite (join_sorted_windprofiles_ok outfilename _ first_file others content1
             vent_loc date t l3 (h * 3600, (h + 6) * 3600)%Z n).
  - f_equal. f_equal. apply stitched_ext. intros f _. apply Hdata.
  - done.
  - apply lookup_insert_eq.
  - rewrite Hread. by rewrite list_lookup_insert_ne.
  - rewrite Hread. by rewrite list_lookup_insert_ne.
  - rewrite Hread. apply list_lookup_insert_eq. lia.
  - apply parse_timeblock_line.
  - rewrite Hread. by rewrite list_lookup_insert_ne.
  - done.
  - apply Forall_forall. intros f Hin. rewrite Forall_forall in Hall.
    destruct (Hall f Hin) as [Hsome Hl]. split.
    + destruct (decide (f = first_file)) as [->|Hne].
      * rewrite lookup_insert_eq. by eexists.
      * by rewrite lookup_insert_ne.
    + by rewrite Hdata.
Qed.

Lemma patched_time_block_is_first_range_witness :
  ∃ fs1 vent_loc date,
    set_timeblocks_in_windfield "w/x06.profile"
      (<["w/x06.profile" := profile_00]> sample_fs) = (fs1, inr tt)
    ∧ join_sorted_windprofiles ["w/x06.profile"; "w/p00.profile"] "w/joined.profile" fs1
      = (<["w/joined.profile" :=
             stitched (<["w/x06.profile" := profile_00]> sample_fs) vent_loc date
               (21600, 43200)%Z 2 ["w/x06.profile"; "w/p00.profile"]]> fs1,
         inr tt).
Proof.
  destruct (patched_time_block_is_first_range "w/x06.profile" ["w/p00.profile"]
              "w/joined.profile" (<["w/x06.profile" := profile_00]> sample_fs)
              profile_00 (line "2") 6 2)
    as (fs1 & vent_loc & date & Hpatch & _ & _ & Hjoin).
  - intros Hin. repeat (apply elem_of_cons in Hin as [Hin|Hin]; [discriminate Hin|]).
    by apply elem_of_nil in Hin.
  - reflexivity.
  - reflexivity.
  - reflexivity.
  - reflexivity.
  - repeat constructor; eexists; reflexivity.
  - exists fs1, vent_loc, date. split; [exact Hpatch|exact Hjoin].
Defined.

Lemma terminated_count_line n : terminated (count_line n) = true.
Proof. unfold count_line. apply terminated_body, no_nl_fmt_int. Qed.

Lemma readlines_header vent_loc date range n rest :
  terminated vent_loc = true → terminated date = true →
  readlines (vent_loc +:+ date +:+ timeblock_line (fst range) (snd range)
               +:+ count_line n +:+ rest)
  = vent_loc :: date :: timeblock_line (fst range) (snd range) :: count_line n
      :: readlines rest.
Proof.
  intros Hv Hd.
  rewrite (readlines_terminated vent_loc) by done.
  rewrite (readlines_terminated date) by done.
  rewrite (readlines_terminated (timeblock_line _ _)) by apply terminated_timeblock_line.
  by rewrite (readlines_terminated (count_line n)) by apply terminated_count_line.
Qed.

Lemma stitched_cons (fs : gmap string string) vent_loc date range n first_file others :
  ∃ rest,
    stitched fs vent_loc date range n (first_file :: others)
    = vent_loc +:+ date +:+ timeblock_line (fst range) (snd range)
        +:+ count_line n +:+ join_lines (data_lines fs first_file) +:+ rest
    ∧ (others = [] → rest = EmptyString).
Proof.
  unfold stitched. rewrite imap_cons, join_lines_cons.
  eexists. split.
  - unfold block_text. simpl block_range. rewrite !app_assoc_s. reflexivity.
  - by intros ->.
Qed.

(** X10: the file [join_sorted_windprofiles] writes has a header the
    function itself can read: its first two lines are those of the first
    source file, its line 3 is read back as the time range of the first
    source and its line 4 as the layer count of the first source. *)
Theorem stitched_header_reads_back
    (first_file : string) (others : list string) (outfilename : string)
    (fs : gmap string string) (content l2 l3 : string)
    (first_range : Z * Z) (n : Z) :
  outfilename ∉ first_file :: others →
  fs !! first_file = Some content →
  readlines content !! 2%nat = Some l2 →
  parse_time_range l2 = inr first_range →
  readlines content !! 3%nat = Some l3 →
  int l3 = Some n →
  Forall (well_layered fs n) (first_file :: others) →
  ∃ joined j2 j3,
    join_sorted_windprofiles (first_file :: others) outfilename fs
    = (<[outfilename := joined]> fs, inr tt)
    ∧ readlines joined !! 0%nat = readlines content !! 0%nat
    ∧ readlines joined !! 1%nat = readlines content !! 1%nat
    ∧ readlines joined !! 2%nat = Some j2
    ∧ parse_time_range j2 = inr first_range
    ∧ readlines joined !! 3%nat = Some j3
    ∧ int j3 = Some n
    ∧ header_parses (readlines joined) = true.
Proof.
  intros Hout Hf H2 Hrange H3 Hn Hall.
  destruct (first_lines_exist _ _ H3) as (vent_loc & date & H0 & H1).
  pose proof (lookup_lt_Some _ _ _ H3) as Hlen.
  pose proof (lines_ok_readlines content) as Hok.
  pose proof (lines_ok_terminated _ 0 vent_loc Hok H0 ltac:(lia)) as Hv.
  pose proof (lines_ok_terminated _ 1 date Hok H1 ltac:(lia)) as Hd.
  destruct (stitched_cons fs vent_loc date first_range n first_file others)
    as (rest & Hst & _).
  exists (stitched fs vent_loc date first_range n (first_file :: others)),
    (timeblock_line (fst first_range) (snd first_range)), (count_line n).
  split.
  { by apply (join_sorted_windprofiles_ok outfilename fs first_file others content
                vent_loc date l2 l3 first_range n). }
  rewrite Hst.
  rewrite (readlines_header vent_loc date first_range n _ Hv Hd).
  rewrite H0, H1.
  split; [done|]. split; [done|]. split; [done|].
  split; [destruct first_range; apply parse_timeblock_line|].
  split; [done|]. split; [apply parse_count_line|].
  unfold header_parses.
  destruct first_range as [a b]. simpl fst. simpl snd.
  by rewrite parse_timeblock_line, parse_count_line.
Qed.

Lemma stitched_header_reads_back_witness :
  ∃ joined j2 j3,
    join_sorted_windprofiles ["w/p00.profile"; "w/p06.profile"] "w/joined.profile"
      sample_fs
    = (<["w/joined.profile" := joined]> sample_fs, inr tt)
    ∧ readlines joined !! 2%nat = Some j2
    ∧ parse_time_range j2 = inr (0, 21600)%Z
    ∧ readlines joined !! 3%nat = Some j3
    ∧ int j3 = Some 2%Z.
Proof.
  destruct (stitched_header_reads_back "w/p00.profile" ["w/p06.profile"]
              "w/joined.profile" sample_fs profile_00
              (line "0 21600") (line "2") (0, 21600)%Z 2%Z)
    as (joined & j2 & j3 & Hrun & _ & _ & H2 & Hr & H3 & Hn & _).
  - intros Hin. repeat (apply elem_of_cons in Hin as [Hin|Hin]; [discriminate Hin|]).
    by apply elem_of_nil in Hin.
  - reflexivity.
  - reflexivity.
  - reflexivity.
  - reflexivity.
  - reflexivity.
  - repeat constructor; eexists; reflexivity.
  - exists joined, j2, j3.
    split; [exact Hrun|]. split; [exact H2|]. split; [exact Hr|].
    split; [exact H3|exact Hn].
Defined.

Lemma lines_ok_drop k ls : lines_ok ls = true → lines_ok (drop k ls) = true.
Proof.
  revert ls. induction k as [|k IH]; intros ls Hok; [by rewrite drop_0|].
  destruct ls as [|l ls]; [done|]. simpl drop. apply IH.
  destruct ls as [|l' ls]; [done|].
  change (lines_ok (l :: l' :: ls)) with (terminated l && lines_ok (l' :: ls)) in Hok.
  by apply andb_prop in Hok as [_ Hok].
Qed.

(** X11: stitching is idempotent on a single file.  The file stitched
    from one source, stitched again on its own, is reproduced byte for
    byte. *)
Theorem join_single_idempotent
    (source outfilename again : string)
    (fs : gmap string string) (content l2 l3 : string)
    (first_range : Z * Z) (n : Z) :
  source ≠ outfilename →
  outfilename ≠ again →
  fs !! source = Some content →
  readlines content !! 2%nat = Some l2 →
  parse_time_range l2 = inr first_range →
  readlines content !! 3%nat = Some l3 →
  int l3 = Some n →
  well_layered fs n source →
  ∃ joined,
    join_sorted_windprofiles [source] outfilename fs
    = (<[outfilename := joined]> fs, inr tt)
    ∧ join_sorted_windprofiles [outfilename] again (<[outfilename := joined]> fs)
      = (<[again := joined]> (<[outfilename := joined]> fs), inr tt).
Proof.
  intros Hne Hne2 Hf H2 Hrange H3 Hn Hwell.
  destruct (first_lines_exist _ _ H3) as (vent_loc & date & H0 & H1).
  pose proof (lookup_lt_Some _ _ _ H3) as Hlen.
  pose proof (lines_ok_readlines content) as Hok.
  pose proof (lines_ok_terminated _ 0 vent_loc Hok H0 ltac:(lia)) as Hv.
  pose proof (lines_ok_terminated _ 1 date Hok H1 ltac:(lia)) as Hd.
  destruct (stitched_cons fs vent_loc date first_range n source [])
    as (rest & Hst & Hrest).
  rewrite (Hrest eq_refl), app_nil_r_s in Hst.
  set (joined := stitched fs vent_loc date first_range n [source]) in *.
  assert (readlines joined
          = vent_loc :: date :: timeblock_line (fst first_range) (snd first_range)
              :: count_line n :: data_lines fs source) as Hread.
  { rewrite Hst, (readlines_header vent_loc date first_range n _ Hv Hd).
    do 4 f_equal. apply readlines_join.
    unfold data_lines. rewrite Hf. apply lines_ok_drop, Hok. }
  exists joined. split.
  { apply (join_sorted_windprofiles_ok outfilename fs source [] content
             vent_loc date l2 l3 first_range n); try done.
    - intros Hin. apply list_elem_of_singleton in Hin. by subst.
    - by constructor. }
  assert (stitched (<[outfilename := joined]> fs) vent_loc date first_range n
            [outfilename] = joined) as Hsame.
  { destruct (stitched_cons (<[outfilename := joined]> fs) vent_loc date
                first_range n outfilename []) as (rest' & Hst' & Hrest').
    rewrite (Hrest' eq_refl), app_nil_r_s in Hst'. rewrite Hst'.
    unfold data_lines at 1. rewrite lookup_insert_eq.
    change (default EmptyString (Some joined)) with joined.
    rewrite Hread. cbn [drop]. rewrite drop_0. symmetry. exact Hst. }
  rewrite (join_sorted_windprofiles_ok again _ outfilename [] joined
             vent_loc date (timeblock_line (fst first_range) (snd first_range))
             (count_line n) first_range n).
  - by rewrite Hsame.
  - intros Hin. apply list_elem_of_singleton in Hin. by subst.
  - apply lookup_insert_eq.
  - by rewrite Hread.
  - by rewrite Hread.
  - by rewrite Hread.
  - destruct first_range. apply parse_timeblock_line.
  - by rewrite Hread.
  - apply parse_count_line.
  - constructor; [|constructor]. split.
    + rewrite lookup_insert_eq. by eexists.
    + unfold data_lines at 1. rewrite lookup_insert_eq.
    change (default EmptyString (Some joined)) with joined.
      rewrite Hread. cbn [drop]. rewrite drop_0. apply Hwell.
Qed.

Lemma join_single_idempotent_witness :
  ∃ joined,
    join_sorted_windprofiles ["w/p00.profile"] "w/joined.profile" sample_fs
    = (<["w/joined.profile" := joined]> sample_fs, inr tt)
    ∧ join_sorted_windprofiles ["w/joined.profile"] "w/again.profile"
        (<["w/joined.profile" := joined]> sample_fs)
      = (<["w/again.profile" := joined]> (<["w/joined.profile" := joined]> sample_fs),
         inr tt).
Proof.
  apply (join_single_idempotent "w/p00.profile" "w/joined.profile" "w/again.profile"
           sample_fs profile_00 (line "0 21600") (line "2") (0, 21600)%Z 2%Z).
  - discriminate.
  - discriminate.
  - reflexivity.
  - reflexivity.
  - reflexivity.
  - reflexivity.
  - reflexivity.
  - split; [eexists; reflexivity|reflexivity].
Defined.

(** ** The scheduler: the whole trace of a rank *)

Lemma local_run_inbox_nil {A} (m : proc A) :
  ∀ events s rest, local_run m [] = (events, s, rest) → rest = [].
Proof.
  induction m as [a|e|ev k IH|source k IH]; intros events s rest; simpl.
  - by intros [= _ _ <-].
  - by intros [= _ _ <-].
  - destruct (local_run k []) as [[events' s'] rest'] eqn:Hk.
    intros [= _ _ <-]. by eapply IH.
  - by intros [= _ _ <-].
Qed.

(** The events of a rank are those of the prologue, of the loop and, when
    the loop returns, of the epilogue. *)
Lemma run_multiple_windfields_trace
    (engine : nat → string → string → exn + option aim_result)
    P p path windfield_directory hazard_output_folder folder dircomment
    eruption_comment listing loop s :
  (p = 0%nat → hazard_output_folder = Some folder) →
  local_run (process_units engine P p windfield_directory folder dircomment
               eruption_comment listing 0 0 0) [] = (loop, s, []) →
  local_run (run_multiple_windfields engine (Some (P, p)) (Script path)
               windfield_directory
               hazard_output_folder dircomment eruption_comment listing)
    (if (p =? 0)%nat then [] else [folder])
  = match s with
    | Returned (count_local, count_all) =>
        (prologue P p folder ++ loop ++ epilogue p count_local count_all folder,
         Returned tt, [])
    | Raised e => (prologue P p folder ++ loop, Raised e, [])
    | Waiting => (prologue P p folder ++ loop, Waiting, [])
    end.
Proof.
  intros Hfolder Hloop.
  unfold run_multiple_windfields, prologue, epilogue.
  simpl pypar_size. simpl pypar_rank.
  destruct (decide (p = 0%nat)) as [->|Hp].
  - rewrite (Hfolder eq_refl). simpl Nat.eqb. cbv iota.
    cbn [local_run]. rewrite local_run_bind, local_run_handshake_leader.
    cbn [pypar_call local_run scenario_basename]. rewrite local_run_bind, Hloop.
    destruct s as [[count_local count_all]|e|]; simpl.
    + by rewrite <- !app_assoc.
    + by rewrite <- !app_assoc.
    + by rewrite <- !app_assoc.
  - pose proof Hp as Hp'. apply Nat.eqb_neq in Hp'. rewrite Hp'.
    cbn [local_run]. rewrite local_run_bind.
    rewrite local_run_handshake_follower by done.
    cbn [pypar_call local_run scenario_basename]. rewrite local_run_bind, Hloop.
    destruct s as [[count_local count_all]|e|]; simpl; by rewrite ?Hp'.
Qed.

(** For a dictionary the trace ends with the prologue: line 677 raises. *)
Lemma run_multiple_windfields_dictionary_trace
    (engine : nat → string → string → exn + option aim_result)
    P p params windfield_directory hazard_output_folder folder dircomment
    eruption_comment listing :
  (p = 0%nat → hazard_output_folder = Some folder) →
  local_run (run_multiple_windfields engine (Some (P, p)) (Dictionary params)
               windfield_directory
               hazard_output_folder dircomment eruption_comment listing)
    (if (p =? 0)%nat then [] else [folder])
  = (prologue P p folder, Raised AttributeError, []).
Proof.
  intros Hfolder.
  unfold run_multiple_windfields, prologue.
  simpl pypar_size. simpl pypar_rank.
  destruct (decide (p = 0%nat)) as [->|Hp].
  - rewrite (Hfolder eq_refl). simpl Nat.eqb. cbv iota.
    cbn [local_run]. rewrite local_run_bind, local_run_handshake_leader.
    cbn [pypar_call local_run scenario_basename]. done.
  - pose proof Hp as Hp'. apply Nat.eqb_neq in Hp'. rewrite Hp'.
    cbn [local_run]. rewrite local_run_bind.
    rewrite local_run_handshake_follower by done.
    cbn [pypar_call local_run scenario_basename]. done.
Qed.




(** *** Which rank copies the projection file *)

Lemma endswith_last s suffix c :
  endswith s suffix = true →
  String.get (String.length suffix - 1) suffix = Some c →
  String.get (String.length s - 1) s = Some c.
Proof.
  unfold endswith.
  destruct (String.length suffix <=? String.length s)%nat eqn:Hle; [|done].
  apply Nat.leb_le in Hle. intros Heq%String.eqb_eq Hc.
  assert (0 < String.length suffix)%nat as Hpos.
  { destruct suffix; [done|simpl; lia]. }
  rewrite <- Heq in Hc at 2.
  rewrite substring_correct1 in Hc by lia.
  by replace (String.length suffix - 1 + (String.length s - String.length suffix))%nat
    with (String.length s - 1)%nat in Hc by lia.
Qed.

Lemma get_last_app s t :
  t ≠ EmptyString →
  String.get (String.length (s +:+ t) - 1) (s +:+ t)
  = String.get (String.length t - 1) t.
Proof.
  intros Ht. rewrite length_app_s.
  assert (0 < String.length t)%nat by (destruct t; [done|simpl; lia]).
  replace (String.length s + String.length t - 1)%nat
    with (String.length t - 1 + String.length s)%nat by lia.
  symmetry. apply append_correct2.
Qed.

Lemma not_prj_res_nc x :
  endswith (x +:+ ".res.nc") "/HazardMaps.res.prj" = false.
Proof.
  destruct (endswith _ _) eqn:He; [|done].
  pose proof (endswith_last _ "/HazardMaps.res.prj" "j"%char He eq_refl) as Hlast.
  by rewrite get_last_app in Hlast.
Qed.

Lemma prefix_app s t : String.prefix s (s +:+ t) = true.
Proof.
  induction s as [|c s IH]; [by destruct t|].
  rewrite app_cons_s. simpl. by destruct (ascii_dec c c).
Qed.

Lemma substring_all s : substring 0 (String.length s) s = s.
Proof. induction s as [|c s IH]; [done|]. simpl. by rewrite IH. Qed.

Lemma endswith_app x suffix : endswith (x +:+ suffix) suffix = true.
Proof.
  unfold endswith. rewrite length_app_s.
  assert ((String.length suffix <=? String.length x + String.length suffix)%nat = true)
    as -> by (apply Nat.leb_le; lia).
  replace (String.length x + String.length suffix - String.length suffix)%nat
    with (String.length x + 0)%nat by lia.
  rewrite substring_app_skip, substring_all. apply String.eqb_refl.
Qed.

Lemma existsb_sends folder destinations :
  existsb prj_copy (ESend folder <$> destinations) = false.
Proof. induction destinations as [|i l IH]; [done|]. exact IH. Qed.

Lemma existsb_prologue P p folder : existsb prj_copy (prologue P p folder) = false.
Proof.
  unfold prologue. simpl existsb. rewrite existsb_app.
  destruct (p =? 0)%nat; simpl; [|done].
  by rewrite existsb_sends.
Qed.

Lemma existsb_epilogue p count_local count_all folder :
  existsb prj_copy (epilogue p count_local count_all folder) = false.
Proof. unfold epilogue. by destruct (p =? 0)%nat. Qed.

Section ProjectionFile.

Variable engine : nat → string → string → exn + option aim_result.

(** Every scenario runs to the end and returns its object. *)
Hypothesis engine_ok : ∀ i windfield comment,
  ∃ aim, engine i windfield comment = inr (Some aim).

Lemma process_unit_run_prj {A} p i file windfield_directory folder c (k : proc A) inbox :
  ∃ pre,
    existsb prj_copy pre = (i =? 0)%nat
    ∧ local_run (process_unit engine p i file windfield_directory folder c k) inbox
      = (let '(events, s, rest) := local_run k inbox in
         (ERunScenario i (windfield_directory +:+ "/" +:+ file)
            (c +:+ "_run" +:+ fmt_nat i +:+ "_proc" +:+ fmt_nat p)
            :: pre ++ events, s, rest)).
Proof.
  unfold process_unit.
  destruct (engine_ok i (windfield_directory +:+ "/" +:+ file)
              (c +:+ "_run" +:+ fmt_nat i +:+ "_proc" +:+ fmt_nat p)) as [aim ->].
  set (windname := fst (splitext file)).
  set (copy := EShell ("cp " +:+ output_dir aim +:+ "/"
                         +:+ (scenario_name aim +:+ ".res.nc") +:+ " " +:+ folder
                         +:+ "/" +:+ (scenario_name aim +:+ "." +:+ windname
                                        +:+ ".res.nc"))).
  set (clean := EShell ("/bin/rm -rf " +:+ output_dir aim)).
  assert (prj_copy copy = false) as Hcopy.
  { unfold copy, prj_copy. apply andb_false_intro2.
    rewrite <- !app_assoc_s. apply not_prj_res_nc. }
  assert (prj_copy clean = false) as Hclean by reflexivity.
  assert (prj_copy (EShell ("chmod -R g+w " +:+ folder)) = false) as Hchmod
    by reflexivity.
  destruct (decide (i = 0%nat)) as [->|Hi].
  - exists [EMakedir folder; EShell ("chmod -R g+w " +:+ folder); copy;
            EShell ("cp " +:+ projection_file aim +:+ " " +:+ folder
                      +:+ "/HazardMaps.res.prj"); clean].
    split.
    + cbn [existsb]. rewrite Hchmod, Hcopy, Hclean.
      assert (prj_copy (EShell ("cp " +:+ projection_file aim +:+ " " +:+ folder
                                  +:+ "/HazardMaps.res.prj")) = true) as ->; [|done].
      unfold prj_copy. rewrite prefix_app.
      rewrite <- !app_assoc_s. by rewrite endswith_app.
    + simpl. by destruct (local_run k inbox) as [[events s] rest].
  - exists [EMakedir folder; EShell ("chmod -R g+w " +:+ folder); copy; clean].
    split.
    + cbn [existsb]. rewrite Hchmod, Hcopy, Hclean.
      apply Nat.eqb_neq in Hi. by rewrite Hi.
    + apply Nat.eqb_neq in Hi. simpl. rewrite Hi.
      simpl. by destruct (local_run k inbox) as [[events s] rest].
Qed.

Lemma process_units_run_prj P p windfield_directory folder :
  ∀ files dircomment eruption_comment i count_local count_all inbox,
    is_Some (loop_comment dircomment eruption_comment) →
    ∃ events,
      local_run (process_units engine P p windfield_directory folder
                   dircomment eruption_comment files i count_local count_all) inbox
      = (events,
         Returned ((count_local + length (processed_from P p i files))%nat,
                   (count_all + length files)%nat),
         inbox)
      ∧ existsb prj_copy events = bool_decide (0%nat ∈ processed_from P p i files).
Proof.
  induction files as [|file others IH];
    intros dircomment eruption_comment i count_local count_all inbox Hc.
  - exists []. change (processed_from P p i []) with (@nil nat). simpl.
    split; [by rewrite !Nat.add_0_r|done].
  - rewrite processed_from_cons. simpl process_units.
    destruct (mine P p i) eqn:Hmine; simpl andb.
    + destruct (endswith file ".profile") eqn:Hprofile; simpl negb; cbv iota.
      * destruct Hc as [c Hc]. fold (loop_comment dircomment eruption_comment).
        rewrite Hc.
        destruct (IH (Some c) eruption_comment (S i) (S count_local) (S count_all)
                     inbox) as (events & Hrun & Hprj); [by eexists|].
        destruct (process_unit_run_prj p i file windfield_directory folder c
                    (process_units engine P p windfield_directory folder (Some c)
                       eruption_comment others (S i) (S count_local) (S count_all))
                    inbox) as (pre & Hpre & Hunit).
        rewrite Hrun in Hunit.
        eexists. split.
        -- rewrite Hunit. do 2 f_equal. simpl. by rewrite <- !plus_n_Sm.
        -- cbn [existsb prj_copy]. rewrite existsb_app, Hpre, Hprj. simpl app.
           destruct (decide (i = 0%nat)) as [->|Hi].
           ++ simpl. done.
           ++ apply Nat.eqb_neq in Hi as Hi'. rewrite Hi'. simpl.
              apply bool_decide_ext. rewrite elem_of_cons.
              split; [by right|]. intros [Heq|Hin]; [by subst|done].
      * destruct (IH dircomment eruption_comment (S i) count_local (S count_all)
                     inbox Hc) as (events & Hrun & Hprj).
        exists events. split; [|done].
        rewrite Hrun. do 2 f_equal. simpl. by rewrite <- !plus_n_Sm.
    + destruct (IH dircomment eruption_comment (S i) count_local (S count_all)
                   inbox Hc) as (events & Hrun & Hprj).
      exists events. split; [|done].
      rewrite Hrun. do 2 f_equal. simpl. by rewrite <- !plus_n_Sm.
Qed.

(** X12: the projection file reaches the hazard output folder (as
    [HazardMaps.res.prj], where [contour_hazardmap] looks for it) through
    the work on index 0 only.  For a scenario script with scenarios that
    all succeed, the trace of a rank contains the copy command exactly
    when the rank is rank 0 and the first entry of the directory listing
    ends in [.profile]: when the listing starts with another entry, no
    rank copies a projection file.  For a scenario given as a dictionary
    no rank copies one, as no rank reaches the loop. *)
Theorem projection_file_copied_for_first_entry
    P p path windfield_directory hazard_output_folder folder dircomment
    eruption_comment listing :
  (p = 0%nat → hazard_output_folder = Some folder) →
  is_Some (loop_comment dircomment eruption_comment) →
  (∀ params, ∃ events,
     local_run (run_multiple_windfields engine (Some (P, p)) (Dictionary params)
                  windfield_directory
                  hazard_output_folder dircomment eruption_comment listing)
       (if (p =? 0)%nat then [] else [folder])
     = (events, Raised AttributeError, [])
     ∧ ¬ ∃ ev, ev ∈ events ∧ prj_copy ev = true)
  ∧ ∃ events,
    local_run (run_multiple_windfields engine (Some (P, p)) (Script path)
                 windfield_directory
                 hazard_output_folder dircomment eruption_comment listing)
      (if (p =? 0)%nat then [] else [folder])
    = (events, Returned tt, [])
    ∧ ((∃ ev, ev ∈ events ∧ prj_copy ev = true)
       ↔ (p = 0%nat
          ∧ ∃ file others, listing = file :: others
                           ∧ endswith file ".profile" = true)).
Proof.
  intros Hfolder Hcomment. split.
  { intros params. exists (prologue P p folder). split.
    - by apply run_multiple_windfields_dictionary_trace.
    - intros (ev & Hev & Hcopy).
      pose proof (existsb_prologue P p folder) as Hnone.
      apply not_true_iff_false in Hnone. apply Hnone.
      apply existsb_exists. exists ev. split; [by apply list_elem_of_In|done]. }
  destruct (process_units_run_prj P p windfield_directory folder listing dircomment
              eruption_comment 0 0 0 [] Hcomment) as (loop & Hloop & Hprj).
  rewrite (run_multiple_windfields_trace engine P p path windfield_directory
             hazard_output_folder folder dircomment eruption_comment listing
             _ _ Hfolder Hloop).
  eexists. split; [reflexivity|].
  assert ((∃ ev, ev ∈ prologue P p folder ++ loop
                   ++ epilogue p (0 + length (processed_from P p 0 listing))
                        (0 + length listing) folder
                 ∧ prj_copy ev = true)
          ↔ 0%nat ∈ processed_from P p 0 listing) as ->.
  { rewrite <- (bool_decide_spec (0%nat ∈ _)), <- Hprj.
    setoid_rewrite list_elem_of_In. rewrite <- existsb_exists.
    rewrite !existsb_app, existsb_prologue, existsb_epilogue.
    simpl. rewrite orb_false_r. by rewrite Is_true_true. }
  rewrite elem_of_processed_from. split.
  - intros (file & _ & Hf & Hm & He). apply mine_spec in Hm.
    split; [by rewrite Hm, Nat.Div0.mod_0_l|].
    destruct listing as [|f others]; [done|]. simpl in Hf. injection Hf as ->.
    by exists file, others.
  - intros (-> & file & others & -> & He). exists file.
    split; [done|]. split; [done|]. split; [|done].
    apply mine_spec. by rewrite Nat.Div0.mod_0_l.
Qed.

End ProjectionFile.

Lemma projection_file_copied_for_first_entry_witness :
  ∃ events,
    local_run (run_multiple_windfields sample_engine (Some (2, 0)%nat)
                 (Script "merapi.py") "w"
                 (Some "out") None (Some "test") sample_listing) []
    = (events, Returned tt, [])
    ∧ ¬ ∃ ev, ev ∈ events ∧ prj_copy ev = true.
Proof.
  destruct (projection_file_copied_for_first_entry sample_engine sample_engine_ok
              2 0 "merapi.py" "w" (Some "out") "out" None (Some "test")
              sample_listing)
    as (_ & events & Hrun & Hiff).
  - reflexivity.
  - by eexists.
  - exists events. split; [exact Hrun|].
    intros Hcopy. apply Hiff in Hcopy as (_ & file & others & Hl & He).
    injection Hl as <- _. discriminate He.
Defined.

(** *** The ranks together *)

Lemma NoDup_processed_from P p start files : NoDup (processed_from P p start files).
Proof.
  revert start. induction files as [|file others IH]; intros start.
  - change (processed_from P p start []) with (@nil nat). constructor.
  - rewrite processed_from_cons. apply NoDup_app. split; [|split; [|apply IH]].
    + destruct (_ && _); [apply NoDup_singleton|constructor].
    + intros i Hi Hin. apply elem_of_processed_from in Hin as (f & Hle & _).
      destruct (_ && _); [|by apply elem_of_nil in Hi].
      apply list_elem_of_singleton in Hi. lia.
Qed.

Lemma NoDup_processed_classes P listing ps :
  NoDup ps → NoDup (concat ((λ p, processed P p listing) <$> ps)).
Proof.
  induction 1 as [|p ps Hp _ IH]; [constructor|].
  csimpl. apply NoDup_app. split; [|split; [|done]].
  - apply NoDup_processed_from.
  - intros i Hi (l & Hl & Hil)%elem_of_concat.
    apply list_elem_of_fmap in Hl as (p' & -> & Hp').
    apply elem_of_processed_from in Hi as (_ & _ & _ & Hm & _).
    apply elem_of_processed_from in Hil as (_ & _ & _ & Hm' & _).
    apply mine_spec in Hm, Hm'. congruence.
Qed.

Section RanksTogether.

Variable engine : nat → string → string → exn + option aim_result.

(** Every scenario runs to the end and returns its object. *)
Hypothesis engine_ok : ∀ i windfield comment,
  ∃ aim, engine i windfield comment = inr (Some aim).

(** X14: no wind field is lost or run twice by the distribution.  For a
    group of [P >= 1] ranks that run [run_multiple_windfields] for a
    scenario script on the same listing, with scenarios that succeed, the
    indices of the scenarios in the traces of the ranks, taken together,
    are those in the trace of a single process working alone, each once:
    the positions of the entries ending in [.profile]. *)
Theorem wind_fields_processed_once (P : nat) (path windfield_directory : string)
    (folders : nat → option string) (folder : string)
    (dircomment eruption_comment : option string) (listing : list string) :
  (1 ≤ P)%nat →
  folders 0%nat = Some folder →
  is_Some (loop_comment dircomment eruption_comment) →
  concat ((λ p, rank_indices engine P p (Script path) windfield_directory folders
                  folder dircomment eruption_comment listing) <$> seq 0 P)
    ≡ₚ rank_indices engine 1 0 (Script path) windfield_directory folders folder
         dircomment eruption_comment listing
  ∧ (∀ i, i ∈ rank_indices engine 1 0 (Script path) windfield_directory folders
                folder dircomment eruption_comment listing
          ↔ ∃ file, listing !! i = Some file ∧ endswith file ".profile" = true).
Proof.
  intros HP Hfolder Hcomment.
  assert (∀ Q p, rank_indices engine Q p (Script path) windfield_directory folders
                   folder dircomment eruption_comment listing
                 = processed Q p listing) as Hidx.
  { intros Q p.
    by apply (rank_indices_processed engine engine_ok Q p path windfield_directory
                folders folder dircomment eruption_comment listing). }
  assert ((λ p, rank_indices engine P p (Script path) windfield_directory folders
                  folder dircomment eruption_comment listing) <$> seq 0 P
          = (λ p, processed P p listing) <$> seq 0 P) as ->.
  { apply list_fmap_ext. intros _ p _. apply Hidx. }
  rewrite Hidx.
  assert (∀ i, i ∈ processed 1 0 listing
               ↔ ∃ file, listing !! i = Some file ∧ endswith file ".profile" = true)
    as Hone.
  { intros i. unfold processed. rewrite elem_of_processed_from, Nat.sub_0_r. split.
    - intros (file & _ & Hf & _ & He). by exists file.
    - intros (file & Hf & He). exists file.
      split; [lia|]. split; [done|]. split; [|done].
      apply mine_spec. by rewrite Nat.mod_1_r. }
  split; [|exact Hone].
  apply NoDup_Permutation.
  - apply NoDup_processed_classes, NoDup_seq.
  - apply NoDup_processed_from.
  - intros i. rewrite Hone, elem_of_concat. split.
    + intros (l & Hl & Hil). apply list_elem_of_fmap in Hl as (p & -> & _).
      unfold processed in Hil.
      apply elem_of_processed_from in Hil as (file & _ & Hf & _ & He).
      rewrite Nat.sub_0_r in Hf. by exists file.
    + intros (file & Hf & He). exists (processed P (i mod P) listing). split.
      * apply list_elem_of_fmap. exists (i mod P)%nat. split; [done|].
        apply elem_of_seq. pose proof (Nat.mod_upper_bound i P). lia.
      * unfold processed. apply elem_of_processed_from. exists file.
        rewrite Nat.sub_0_r. split; [lia|]. split; [done|]. split; [|done].
        by apply mine_spec.
Qed.

End RanksTogether.

Lemma wind_fields_processed_once_witness :
  concat ((λ p, rank_indices sample_engine 2 p (Script "merapi.py") "w"
                  (λ _, Some "out") "out" None (Some "test") sample_listing)
            <$> seq 0 2)
    ≡ₚ rank_indices sample_engine 1 0 (Script "merapi.py") "w" (λ _, Some "out")
         "out" None (Some "test") sample_listing.
Proof.
  apply (wind_fields_processed_once sample_engine sample_engine_ok 2 "merapi.py" "w"
           (λ _, Some "out") "out" None (Some "test") sample_listing).
  - lia.
  - reflexivity.
  - by eexists.
Defined.

(** ** Joining the wind profiles of a directory *)

Section JoinWindProfilesProofs.

Variable epoch_seconds : string → option Z.

#[local] Abbreviation stamp := (profile_stamp epoch_seconds).

Lemma profiles_cons x listing :
  profiles (x :: listing)
  = if endswith x "profile" then x :: profiles listing else profiles listing.
Proof.
  unfold profiles. rewrite filter_cons.
  destruct (endswith x "profile"); by case_decide.
Qed.

Lemma latest_cons x entries s :
  latest epoch_seconds (x :: entries) s
  = match latest epoch_seconds entries s with
    | Some y => Some y
    | None => if decide (stamp x = Some s) then Some x else None
    end.
Proof.
  unfold latest. rewrite filter_cons. case_decide as Hx.
  - rewrite last_cons. by destruct (last _).
  - by destruct (last _).
Qed.

Lemma collect_profiles_none listing d secs :
  Forall (λ x, endswith x "profile" = false) listing →
  collect_profiles epoch_seconds listing d secs = inr (d, secs).
Proof.
  induction 1 as [|x listing Hx _ IH]; [done|]. simpl. by rewrite Hx.
Qed.

Lemma collect_profiles_fail listing :
  Exists (λ x, endswith x "profile" = true ∧ stamp x = None) listing →
  ∀ d secs, collect_profiles epoch_seconds listing d secs = inl ValueError.
Proof.
  induction listing as [|x listing IH]; intros Hex d secs.
  - by apply Exists_nil in Hex.
  - simpl. destruct (endswith x "profile") eqn:Hp.
    + destruct (splitext x) as [basename ext] eqn:Hsplit.
      destruct (epoch_seconds (timestring basename)) as [s|] eqn:Hs; [|done].
      apply IH. apply Exists_cons in Hex as [[_ Hx]|Hex]; [|done].
      unfold profile_stamp in Hx. rewrite Hsplit in Hx. simpl in Hx. congruence.
    + apply IH. apply Exists_cons in Hex as [[Hx _]|Hex]; [congruence|done].
Qed.

Lemma collect_profiles_spec listing :
  ∀ d secs ss,
    mapM stamp (profiles listing) = Some ss →
    ∃ d', collect_profiles epoch_seconds listing d secs = inr (d', secs ++ ss)
          ∧ ∀ s, d' !! s = match latest epoch_seconds (profiles listing) s with
                           | Some x => Some x
                           | None => d !! s
                           end.
Proof.
  induction listing as [|x listing IH]; intros d secs ss Hss.
  - injection Hss as <-. exists d. split; [by rewrite app_nil_r|].
    intros s. reflexivity.
  - rewrite profiles_cons in Hss |- *. simpl collect_profiles.
    destruct (endswith x "profile") eqn:Hp.
    + apply mapM_Some_1 in Hss.
      apply Forall2_cons_inv_l in Hss as (s0 & ss' & Hx & Hss' & ->).
      apply mapM_Some_2 in Hss'.
      destruct (splitext x) as [basename ext] eqn:Hsplit.
      assert (epoch_seconds (timestring basename) = Some s0) as ->.
      { unfold profile_stamp in Hx. by rewrite Hsplit in Hx. }
      destruct (IH (<[s0 := x]> d) (secs ++ [s0]) ss' Hss') as (d' & Hrun & Hd').
      exists d'. split; [by rewrite Hrun, <- app_assoc|].
      intros s. rewrite Hd', latest_cons.
      destruct (latest epoch_seconds (profiles listing) s) as [y|]; [done|].
      rewrite Hx. case_decide as Hs.
      * injection Hs as ->. by rewrite lookup_insert_eq.
      * rewrite lookup_insert_ne; [done|]. by intros ->.
    + by apply IH.
Qed.

Lemma stamp_of_elem entries ss s :
  Forall2 (λ x y, stamp x = Some y) entries ss → s ∈ ss →
  ∃ x, x ∈ entries ∧ stamp x = Some s.
Proof.
  intros Hall Hs. apply list_elem_of_lookup in Hs as [i Hi].
  destruct (Forall2_lookup_r _ _ _ _ _ Hall Hi) as (x & Hx & Hxs).
  exists x. split; [by eapply list_elem_of_lookup_2|done].
Qed.

Lemma latest_is_Some entries s x :
  x ∈ entries → stamp x = Some s → is_Some (latest epoch_seconds entries s).
Proof.
  intros Hx Hs. unfold latest. apply last_is_Some.
  intros Hnil.
  assert (x ∈ filter (λ x, stamp x = Some s) entries) as Hin
    by (by apply list_elem_of_filter).
  rewrite Hnil in Hin. by apply elem_of_nil in Hin.
Qed.

Lemma latest_Some entries s y :
  latest epoch_seconds entries s = Some y → y ∈ entries ∧ stamp y = Some s.
Proof.
  unfold latest. intros Hy%last_Some_elem_of.
  apply list_elem_of_filter in Hy as [Hs Hy]. done.
Qed.

(** With time stamps for all its profiles, the function hands
    [chosen_files] to the stitcher. *)
Lemma join_wind_profiles_run windfield_directory listing seconds :
  mapM stamp (profiles listing) = Some seconds →
  join_wind_profiles epoch_seconds windfield_directory listing
  = match head (chosen_files epoch_seconds listing seconds),
          last (chosen_files epoch_seconds listing seconds) with
    | Some first, Some final =>
        join_sorted_windprofiles
          (path_join windfield_directory <$> chosen_files epoch_seconds listing seconds)
          (joined_name windfield_directory first final)
    | _, _ => raise IndexError
    end.
Proof.
  intros Hss. unfold join_wind_profiles.
  destruct (collect_profiles_spec listing ∅ [] seconds Hss) as (d' & -> & Hd').
  simpl app.
  assert (mapM (λ s, d' !! s) (merge_sort Z.le seconds)
          = Some (chosen_files epoch_seconds listing seconds)) as ->.
  { apply mapM_Some_2. unfold chosen_files. apply Forall2_fmap_r.
    apply Forall_Forall2_diag, Forall_forall. intros s Hs.
    rewrite merge_sort_Permutation in Hs.
    destruct (stamp_of_elem _ _ s (mapM_Some_1 _ _ _ Hss) Hs) as (x & Hx & Hxs).
    destruct (latest_is_Some _ s x Hx Hxs) as [y Hy].
    unfold compose. by rewrite Hd', Hy. }
  rewrite fmap_last.
  destruct (chosen_files epoch_seconds listing seconds) as [|f0 files]; [done|].
  cbn [fmap list_fmap head hd_error].
  destruct (last (f0 :: files)) as [final|] eqn:Hlast; [|done].
  cbn [fmap option_fmap option_map].
  unfold joined_name. by rewrite app_assoc_s.
Qed.


(** X15: [join_wind_profiles] writes nothing when it fails before the
    stitcher starts.  If no entry of the directory ends in [profile] (an
    empty directory included), it raises [IndexError] at
    [wind_data_files[0]]; if some entry ending in [profile] has a name
    from which no time stamp can be read, it raises [ValueError]; in both
    cases no file is created or changed. *)
Theorem join_wind_profiles_fails_before_writing
    (windfield_directory : string) (listing : list string)
    (fs : gmap string string) :
  (Forall (λ x, endswith x "profile" = false) listing →
     join_wind_profiles epoch_seconds windfield_directory listing fs
     = (fs, inl IndexError))
  ∧ (Exists (λ x, endswith x "profile" = true ∧ stamp x = None) listing →
     join_wind_profiles epoch_seconds windfield_directory listing fs
     = (fs, inl ValueError)).
Proof.
  split.
  - intros Hnone. unfold join_wind_profiles.
    by rewrite (collect_profiles_none listing ∅ [] Hnone).
  - intros Hbad. unfold join_wind_profiles.
    by rewrite (collect_profiles_fail listing Hbad).
Qed.

Lemma chosen_files_length listing seconds :
  mapM stamp (profiles listing) = Some seconds →
  length (chosen_files epoch_seconds listing seconds) = length (profiles listing).
Proof.
  intros Hss%mapM_Some_1%Forall2_length. unfold chosen_files.
  by rewrite length_fmap, merge_sort_Permutation.
Qed.

Lemma chosen_files_stamps listing seconds :
  mapM stamp (profiles listing) = Some seconds →
  mapM stamp (chosen_files epoch_seconds listing seconds)
  = Some (merge_sort Z.le seconds).
Proof.
  intros Hss. apply mapM_Some_2. unfold chosen_files. apply Forall2_fmap_l.
  apply Forall_Forall2_diag, Forall_forall. intros s Hs.
  rewrite merge_sort_Permutation in Hs.
  destruct (stamp_of_elem _ _ s (mapM_Some_1 _ _ _ Hss) Hs) as (x & Hx & Hxs).
  destruct (latest_is_Some _ s x Hx Hxs) as [y Hy].
  unfold compose. rewrite Hy. simpl. by apply latest_Some in Hy as [_ Hy].
Qed.

Lemma chosen_files_head_last listing seconds :
  mapM stamp (profiles listing) = Some seconds →
  profiles listing ≠ [] →
  ∃ first final,
    head (chosen_files epoch_seconds listing seconds) = Some first
    ∧ last (chosen_files epoch_seconds listing seconds) = Some final.
Proof.
  intros Hss Hne. pose proof (chosen_files_length listing seconds Hss) as Hlen.
  destruct (chosen_files epoch_seconds listing seconds) as [|f0 files] eqn:Hfiles.
  - destruct (profiles listing); [done|simpl in Hlen; lia].
  - destruct (last_is_Some (f0 :: files)) as [_ [final Hfinal]]; [done|].
    by exists f0, final.
Qed.

Lemma latest_of_distinct listing seconds i x s :
  mapM stamp (profiles listing) = Some seconds →
  NoDup seconds →
  profiles listing !! i = Some x → seconds !! i = Some s →
  latest epoch_seconds (profiles listing) s = Some x.
Proof.
  intros Hss%mapM_Some_1 Hnd Hx Hs.
  destruct (Forall2_lookup_l _ _ _ _ _ Hss Hx) as (s' & Hs' & Hxs).
  assert (s' = s) as -> by congruence.
  destruct (latest_is_Some (profiles listing) s x) as [y Hy];
    [by eapply list_elem_of_lookup_2|done|].
  rewrite Hy. f_equal.
  destruct (latest_Some _ _ _ Hy) as [Hyin Hys].
  apply list_elem_of_lookup in Hyin as [k Hk].
  destruct (Forall2_lookup_l _ _ _ _ _ Hss Hk) as (s'' & Hs'' & Hys').
  assert (s'' = s) as -> by congruence.
  assert (k = i) as -> by (by eapply NoDup_lookup).
  congruence.
Qed.

Lemma StronglySorted_le_lt (l : list Z) :
  StronglySorted Z.le l → NoDup l → StronglySorted Z.lt l.
Proof.
  induction 1 as [|x l Hl IH Hx]; intros Hnd; [constructor|].
  apply NoDup_cons in Hnd as [Hxl Hnd]. constructor; [by apply IH|].
  apply Forall_forall. intros y Hy. rewrite Forall_forall in Hx.
  specialize (Hx y Hy). assert (x ≠ y) by (by intros ->). lia.
Qed.

(** X16: when the entries ending in [profile] have pairwise different
    time stamps, [join_wind_profiles] stitches exactly these entries, each
    once, in ascending order of time stamp whatever their order in the
    directory listing, each joined to the directory path; the output is
    named after the last six characters of the first and of the last
    source without their extensions. *)
Theorem join_wind_profiles_in_time_order
    (windfield_directory : string) (listing : list string) (seconds : list Z) :
  mapM stamp (profiles listing) = Some seconds →
  NoDup seconds →
  profiles listing ≠ [] →
  ∃ files first final sorted,
    join_wind_profiles epoch_seconds windfield_directory listing
    = join_sorted_windprofiles (path_join windfield_directory <$> files)
        (windfield_directory
           +:+ ("_" +:+ last_chars 6 (fst (splitext (path_join windfield_directory first)))
                  +:+ "-")
           +:+ (last_chars 6 (fst (splitext (path_join windfield_directory final)))
                  +:+ ".profile"))
    ∧ files ≡ₚ profiles listing
    ∧ head files = Some first
    ∧ last files = Some final
    ∧ mapM stamp files = Some sorted
    ∧ StronglySorted Z.lt sorted.
Proof.
  intros Hss Hnd Hne.
  destruct (chosen_files_head_last listing seconds Hss Hne)
    as (first & final & Hfirst & Hfinal).
  exists (chosen_files epoch_seconds listing seconds), first, final,
    (merge_sort Z.le seconds).
  split; [|split; [|split; [done|split; [done|split]]]].
  - rewrite (join_wind_profiles_run windfield_directory listing seconds Hss).
    by rewrite Hfirst, Hfinal.
  - unfold chosen_files. rewrite merge_sort_Permutation.
    assert ((λ s, default EmptyString (latest epoch_seconds (profiles listing) s))
              <$> seconds = profiles listing) as ->; [|done].
    apply list_eq. intros i. rewrite list_lookup_fmap.
    pose proof (Forall2_length _ _ _ (mapM_Some_1 _ _ _ Hss)) as Hlen.
    destruct (profiles listing !! i) as [x|] eqn:Hx.
    + destruct (Forall2_lookup_l _ _ _ _ _ (mapM_Some_1 _ _ _ Hss) Hx)
        as (s & Hs & _).
      rewrite Hs. simpl.
      by rewrite (latest_of_distinct listing seconds i x s Hss Hnd Hx Hs).
    + apply lookup_ge_None in Hx.
      rewrite (proj2 (lookup_ge_None seconds i)); [done|lia].
  - by apply chosen_files_stamps.
  - apply StronglySorted_le_lt.
    + apply StronglySorted_merge_sort; apply _.
    + by rewrite merge_sort_Permutation.
Qed.

(** X17: the year in a name is not used, and two entries with the same
    month, day and hour share one key of the dictionary.  When an entry
    has the time stamp of an entry listed after it, the earlier one is
    left out of what is stitched, while the number of stitched files is
    still the number of entries ending in [profile]: a later entry is
    stitched in its place. *)
Theorem join_wind_profiles_same_stamp
    (windfield_directory : string) (listing : list string) (seconds : list Z)
    (i j : nat) (x y : string) :
  mapM stamp (profiles listing) = Some seconds →
  NoDup (profiles listing) →
  (i < j)%nat →
  profiles listing !! i = Some x →
  profiles listing !! j = Some y →
  stamp x = stamp y →
  ∃ files first final,
    join_wind_profiles epoch_seconds windfield_directory listing
    = join_sorted_windprofiles (path_join windfield_directory <$> files)
        (joined_name windfield_directory first final)
    ∧ length files = length (profiles listing)
    ∧ (x ∉ files)
    ∧ ∀ f, f ∈ files → ∃ s, latest epoch_seconds (profiles listing) s = Some f.
Proof.
  intros Hss Hnd Hij Hx Hy Hxy.
  assert (profiles listing ≠ []) as Hne by (by destruct (profiles listing)).
  destruct (chosen_files_head_last listing seconds Hss Hne)
    as (first & final & Hfirst & Hfinal).
  exists (chosen_files epoch_seconds listing seconds), first, final.
  assert (∀ f, f ∈ chosen_files epoch_seconds listing seconds →
               ∃ s, latest epoch_seconds (profiles listing) s = Some f) as Hchosen.
  { intros f Hf. unfold chosen_files in Hf.
    apply list_elem_of_fmap in Hf as (s & -> & Hs).
    rewrite merge_sort_Permutation in Hs.
    destruct (stamp_of_elem _ _ s (mapM_Some_1 _ _ _ Hss) Hs) as (z & Hz & Hzs).
    destruct (latest_is_Some _ s z Hz Hzs) as [f Hf].
    exists s. by rewrite Hf. }
  split; [|split; [by apply chosen_files_length|split; [|done]]].
  - rewrite (join_wind_profiles_run windfield_directory listing seconds Hss).
    by rewrite Hfirst, Hfinal.
  - intros Hin. destruct (Hchosen x Hin) as [s Hlatest].
    destruct (latest_Some _ _ _ Hlatest) as [_ Hxs].
    (* the profiles split at position [i]; [y] comes after [x] *)
    pose proof (take_drop_middle _ _ _ Hx) as Hsplit.
    assert (y ∈ drop (S i) (profiles listing)) as Hydrop.
    { apply list_elem_of_lookup. exists (j - S i)%nat.
      rewrite lookup_drop. by replace (S i + (j - S i))%nat with j by lia. }
    unfold latest in Hlatest. rewrite <- Hsplit in Hlatest.
    rewrite filter_app, filter_cons in Hlatest.
    rewrite decide_True in Hlatest by done.
    rewrite last_app in Hlatest.
    assert (y ∈ filter (λ z, stamp z = Some s) (drop (S i) (profiles listing)))
      as Hyf by (apply list_elem_of_filter; split; [congruence|done]).
    rewrite last_cons in Hlatest.
    destruct (last (filter (λ z, stamp z = Some s) (drop (S i) (profiles listing))))
      as [z|] eqn:Hlast.
    + injection Hlatest as ->.
      apply last_Some_elem_of, list_elem_of_filter in Hlast as [_ Hxdrop].
      rewrite <- Hsplit in Hnd. apply NoDup_app in Hnd as (_ & _ & Hnd).
      by apply NoDup_cons in Hnd as [Hnd _].
    + apply last_None in Hlast. rewrite Hlast in Hyf. by apply elem_of_nil in Hyf.
Qed.

End JoinWindProfilesProofs.

Lemma join_wind_profiles_fails_before_writing_witness :
  join_wind_profiles sample_epoch_seconds "w" ["nc2prof.inp"; "TMP.nc"] sample_fs
  = (sample_fs, inl IndexError).
Proof.
  apply (join_wind_profiles_fails_before_writing sample_epoch_seconds "w"
           ["nc2prof.inp"; "TMP.nc"] sample_fs).
  by repeat constructor.
Defined.

Lemma join_wind_profiles_in_time_order_witness :
  ∃ files first final sorted,
    join_wind_profiles sample_epoch_seconds "w" sample_ncep_listing
    = join_sorted_windprofiles (path_join "w" <$> files)
        ("w" +:+ ("_" +:+ last_chars 6 (fst (splitext (path_join "w" first))) +:+ "-")
           +:+ (last_chars 6 (fst (splitext (path_join "w" final))) +:+ ".profile"))
    ∧ files ≡ₚ profiles sample_ncep_listing
    ∧ head files = Some first
    ∧ last files = Some final
    ∧ mapM (profile_stamp sample_epoch_seconds) files = Some sorted
    ∧ StronglySorted Z.lt sorted.
Proof.
  apply (join_wind_profiles_in_time_order sample_epoch_seconds "w" sample_ncep_listing
           [43200; 0; 21600]%Z).
  - reflexivity.
  - repeat (apply NoDup_cons; split;
            [intros Hin; repeat (apply elem_of_cons in Hin as [Hin|Hin];
                                 [discriminate Hin|]);
             by apply elem_of_nil in Hin|]).
    constructor.
  - discriminate.
Defined.

Lemma join_wind_profiles_same_stamp_witness :
  ∃ files first final,
    join_wind_profiles sample_epoch_seconds "w" sample_two_years
    = join_sorted_windprofiles (path_join "w" <$> files)
        (joined_name "w" first final)
    ∧ length files = 3%nat
    ∧ ("ncep1_2008091306.profile" ∉ files).
Proof.
  destruct (join_wind_profiles_same_stamp sample_epoch_seconds "w" sample_two_years
              [21600; 0; 21600]%Z 0 2 "ncep1_2008091306.profile"
              "ncep1_2009091306.profile")
    as (files & first & final & Hrun & Hlen & Hout & _).
  - reflexivity.
  - repeat (apply NoDup_cons; split;
            [intros Hin; repeat (apply elem_of_cons in Hin as [Hin|Hin];
                                 [discriminate Hin|]);
             by apply elem_of_nil in Hin|]).
    constructor.
  - lia.
  - reflexivity.
  - reflexivity.
  - reflexivity.
  - exists files, first, final. split; [exact Hrun|]. split; [exact Hlen|exact Hout].
Defined.

(** *** The year of a name is not used *)

Lemma substring_split s k :
  (k ≤ String.length s)%nat →
  s = substring 0 k s +:+ substring k (String.length s - k) s.
Proof.
  revert k. induction s as [|c s IH]; intros k Hk.
  - by destruct k.
  - destruct k as [|k].
    + simpl. by rewrite substring_all.
    + simpl in Hk. simpl. rewrite app_cons_s. f_equal. apply IH. lia.
Qed.

Lemma length_substring s n m :
  (n + m ≤ String.length s)%nat → String.length (substring n m s) = m.
Proof.
  revert n m. induction s as [|c s IH]; intros n m Hle.
  - simpl in Hle. assert (n = 0 ∧ m = 0)%nat as [-> ->] by lia. done.
  - destruct n as [|n].
    + destruct m as [|m]; [done|]. simpl. f_equal. apply IH. simpl in Hle. lia.
    + simpl. apply IH. simpl in Hle. lia.
Qed.

(** A string is some prefix followed by its last [n] characters; the
    prefix is empty when the string is shorter than [n]. *)
Lemma last_chars_split n s :
  ∃ pre, s = pre +:+ last_chars n s
         ∧ (pre = EmptyString ∨ String.length (last_chars n s) = n).
Proof.
  unfold last_chars. destruct (decide (n ≤ String.length s)%nat) as [Hle|Hgt].
  - exists (substring 0 (String.length s - n) s). split.
    + rewrite (substring_split s (String.length s - n)) at 1 by lia.
      do 2 f_equal. lia.
    + right. apply length_substring. lia.
  - exists EmptyString. split; [|by left].
    replace (String.length s - n)%nat with 0%nat by lia.
    rewrite app_nil_s. revert n Hgt. induction s as [|c s IH]; intros n Hgt.
    + by destruct n.
    + destruct n as [|n]; [simpl in Hgt; lia|]. simpl. f_equal.
      simpl in Hgt. destruct (decide (n ≤ String.length s)%nat) as [Hle|Hgt'].
      * assert (n = String.length s) as -> by lia. by rewrite substring_all.
      * by apply IH.
Qed.

Lemma slice_from_end_last_six a b s :
  (a ≤ 6)%nat →
  slice_from_end a b s = slice_from_end a b (last_chars 6 s).
Proof.
  intros Ha. destruct (last_chars_split 6 s) as (pre & Hs & [->|Hlen]).
  - rewrite app_nil_s in Hs. by rewrite <- Hs.
  - rewrite Hs at 1. unfold slice_from_end. rewrite length_app_s, Hlen.
    replace (String.length pre + 6 - a)%nat with (String.length pre + (6 - a))%nat
      by lia.
    rewrite substring_app_skip. f_equal. lia.
Qed.

Lemma last_chars_last_six s : last_chars 2 s = last_chars 2 (last_chars 6 s).
Proof.
  destruct (last_chars_split 6 s) as (pre & Hs & [->|Hlen]).
  - rewrite app_nil_s in Hs. by rewrite <- Hs.
  - rewrite Hs at 1. unfold last_chars at 1 3. rewrite length_app_s, Hlen.
    replace (String.length pre + 6 - 2)%nat with (String.length pre + 4)%nat by lia.
    by rewrite substring_app_skip.
Qed.

(** X18: the time stamp of an entry depends on the last six characters
    of its name without extension only (month, day and hour; the year is
    fixed to 2010).  Two entries whose names agree on these six characters,
    such as the same day and hour of two different years, get the same
    time stamp and so the same key in the dictionary of
    [join_wind_profiles]. *)
Theorem time_stamp_uses_last_six_characters
    (epoch_seconds : string → option Z) (x y : string) :
  last_chars 6 (fst (splitext x)) = last_chars 6 (fst (splitext y)) →
  timestring (fst (splitext x)) = timestring (fst (splitext y))
  ∧ profile_stamp epoch_seconds x = profile_stamp epoch_seconds y.
Proof.
  intros Hsix.
  assert (timestring (fst (splitext x)) = timestring (fst (splitext y))) as Ht.
  { unfold timestring.
    rewrite (last_chars_last_six (fst (splitext x))),
      (slice_from_end_last_six 4 2 (fst (splitext x))),
      (slice_from_end_last_six 6 4 (fst (splitext x))) by lia.
    rewrite (last_chars_last_six (fst (splitext y))),
      (slice_from_end_last_six 4 2 (fst (splitext y))),
      (slice_from_end_last_six 6 4 (fst (splitext y))) by lia.
    by rewrite Hsix. }
  split; [exact Ht|]. unfold profile_stamp. by rewrite Ht.
Qed.

Lemma time_stamp_uses_last_six_characters_witness :
  timestring (fst (splitext "ncep1_2008091306.profile")) = "2010-09-13T060000"
  ∧ timestring (fst (splitext "ncep1_2009091306.profile")) = "2010-09-13T060000".
Proof.
  destruct (time_stamp_uses_last_six_characters sample_epoch_seconds
              "ncep1_2008091306.profile" "ncep1_2009091306.profile" eq_refl)
    as [Ht _].
  split; [reflexivity|]. rewrite <- Ht. reflexivity.
Defined.

(** ** The name of a scenario given as a script *)

Lemma rfind_from_absent c s i found :
  no_char c s = true → rfind_from c s i found = found.
Proof.
  revert i found. induction s as [|x s IH]; intros i found Hs; [done|].
  simpl in Hs. apply andb_prop in Hs as [Hx Hs]. apply negb_true_iff in Hx.
  simpl. rewrite Hx. by apply IH.
Qed.

Lemma no_char_app c s t : no_char c (s +:+ t) = no_char c s && no_char c t.
Proof.
  induction s as [|x s IH]; [done|].
  rewrite app_cons_s. simpl. by rewrite IH, andb_assoc.
Qed.

Lemma get_Some_lt s j c : String.get j s = Some c → (j < String.length s)%nat.
Proof.
  revert j. induction s as [|x s IH]; intros j Hj; [done|].
  destruct j as [|j]; simpl; [lia|]. simpl in Hj. apply IH in Hj. lia.
Qed.

Lemma get_app_l s t j c : String.get j s = Some c → String.get j (s +:+ t) = Some c.
Proof.
  revert j. induction s as [|x s IH]; intros j Hj; [done|].
  rewrite app_cons_s. destruct j as [|j]; [done|]. simpl in *. by apply IH.
Qed.

(** The position after the last slash of a path whose directory part is
    [prefix]. *)
Lemma rfind_slash_prefix prefix rest :
  (prefix = EmptyString ∨ ∃ d, prefix = d +:+ "/") →
  no_char "/" rest = true →
  (rfind (prefix +:+ rest) "/" + 1)%Z = Z.of_nat (String.length prefix).
Proof.
  intros Hprefix Hrest. unfold rfind. rewrite rfind_from_app.
  rewrite rfind_from_absent by done.
  destruct Hprefix as [->|[d ->]]; [done|].
  rewrite rfind_from_app. simpl rfind_from.
  rewrite length_app_s. simpl String.length. lia.
Qed.

Lemma splitext_stem stem ext j c :
  no_char "/" stem = true → no_char "/" ext = true → no_char "." ext = true →
  String.get j stem = Some c → c ≠ "."%char →
  splitext (stem +:+ "." +:+ ext) = (stem, "." +:+ ext).
Proof.
  intros Hstem Hext Hdot Hj Hc.
  pose proof (get_Some_lt _ _ _ Hj) as Hjlt.
  unfold splitext, rfind.
  assert (rfind_from "/" (stem +:+ "." +:+ ext) 0 (-1) = (-1)%Z) as ->.
  { apply rfind_from_absent. rewrite !no_char_app, Hstem, Hext. done. }
  assert (rfind_from "." (stem +:+ "." +:+ ext) 0 (-1)
          = Z.of_nat (String.length stem)) as ->.
  { rewrite rfind_from_app.
    change ("." +:+ ext) with (String "." ext). simpl rfind_from.
    rewrite rfind_from_absent by done. lia. }
  assert ((-1 <? Z.of_nat (String.length stem))%Z = true) as ->
    by (apply Z.ltb_lt; lia).
  rewrite (skip_leading_dots_found _ _ _ j c).
  - simpl andb. cbv iota. rewrite Nat2Z.id. f_equal.
    + rewrite <- (Nat.add_0_r (String.length stem)).
      rewrite substring_app_l. simpl. apply app_nil_r_s.
    + rewrite length_app_s.
      replace (String.length stem + String.length ("." +:+ ext) - String.length stem)%nat
        with (String.length ("." +:+ ext)) by lia.
      rewrite <- (Nat.add_0_r (String.length stem)) at 1.
      rewrite substring_app_skip. apply substring_all.
  - simpl Z.to_nat. replace (Z.to_nat (Z.of_nat (String.length stem) - (-1 + 1)))
      with (String.length stem) by lia. lia.
  - by apply get_app_l.
  - done.
  - intros k Hk. apply get_is_Some. rewrite length_app_s. lia.
Qed.

Lemma path_split_tail prefix rest :
  (prefix = EmptyString ∨ ∃ d, prefix = d +:+ "/") →
  no_char "/" rest = true →
  snd (path_split (prefix +:+ rest)) = rest.
Proof.
  intros Hprefix Hrest. unfold path_split. simpl snd.
  rewrite (rfind_slash_prefix prefix rest Hprefix Hrest), Nat2Z.id.
  rewrite length_app_s.
  replace (String.length prefix + String.length rest - String.length prefix)%nat
    with (String.length rest) by lia.
  rewrite <- (Nat.add_0_r (String.length prefix)) at 1.
  rewrite substring_app_skip. apply substring_all.
Qed.

(** X19: a scenario given as the path of a script is named after the
    file, without its directories and without its last extension.  For a
    path [<directories/><stem>.<ext>], where neither [stem] nor [ext] has a
    slash, [ext] has no dot and [stem] is not made of dots only,
    [run_scenario] takes [stem] as the scenario name; dots inside [stem]
    are kept. *)
Theorem scenario_name_is_the_file_stem
    (prefix stem ext : string) (j : nat) (c : ascii) :
  (prefix = EmptyString ∨ ∃ d, prefix = d +:+ "/") →
  no_char "/" stem = true →
  no_char "/" ext = true →
  no_char "." ext = true →
  String.get j stem = Some c →
  c ≠ "."%char →
  scenario_name_of_file (prefix +:+ stem +:+ "." +:+ ext) = stem.
Proof.
  intros Hprefix Hstem Hext Hdot Hj Hc. unfold scenario_name_of_file.
  rewrite path_split_tail.
  - by rewrite (splitext_stem stem ext j c).
  - done.
  - rewrite !no_char_app, Hstem, Hext. done.
Qed.

Lemma scenario_name_is_the_file_stem_witness :
  scenario_name_of_file "/home/user/scenarios/merapi.v2.py" = "merapi.v2".
Proof.
  apply (scenario_name_is_the_file_stem "/home/user/scenarios/" "merapi.v2" "py"
           0 "m"%char).
  - right. by exists "/home/user/scenarios".
  - reflexivity.
  - reflexivity.
  - reflexivity.
  - reflexivity.
  - discriminate.
Defined.

